(** * job-splitter: a shallow embedding of [framework.py] and [zipped_logs.py]

    The coordinator [run_jobs] derives a seed from the configuration files
    and the working set, shuffles the indexed working set with it, keeps the
    slice that the weights give this machine, runs the slice through a worker
    pool and folds and persists the results as they arrive.  The log handler
    of [zipped_logs.py] rotates its log file into zip containers and merges
    them when it is closed.

    Python integers are [Z], byte strings and text are [string], a list or a
    tuple is a [list], the file system is a [gmap] from paths to contents.
    Code that can raise returns an [outcome]; code that also reads or writes
    the outside world runs in the state-and-exception monad [SE]. *)

From stdpp Require Import base gmap list strings pretty.
From Stdlib Require Import ZArith Lia.

Abbreviation bytes := string.

(** ** Python primitives used by the two modules *)

Module Py.

(** The exceptions that the modelled code can meet.  [is_Exception] tells
    the ones an [except Exception:] clause catches from those that derive
    from [BaseException] only. *)
Inductive exn :=
| FileNotFoundError (msg : string)
| ZeroDivisionError
| IndexError
| KeyError (key : string)
| EOFError
| ValueError (msg : string)
| UnicodeDecodeError
| BadZipFile
| SystemExit (code : Z)
| UserException (what : string)
| UserBaseException (what : string).

Definition is_Exception (e : exn) : bool :=
  match e with
  | SystemExit _ | UserBaseException _ => false
  | _ => true
  end.

Inductive outcome (A : Type) :=
| Ok (a : A)
| Raise (e : exn).
Arguments Ok {A} a.
Arguments Raise {A} e.

#[export] Instance outcome_ret : MRet outcome := @Ok.
#[export] Instance outcome_bind : MBind outcome := λ A B k x,
  match x with
  | Ok a => k a
  | Raise e => Raise e
  end.

Definition is_Ok {A} (x : outcome A) : bool :=
  match x with
  | Ok _ => true
  | Raise _ => false
  end.

#[export] Instance outcome_fmap : FMap outcome := λ A B f x,
  match x with
  | Ok a => Ok (f a)
  | Raise e => Raise e
  end.

(** Code with effects on a state [S]: a state in, a state out and a value
    or the exception that ended the code.  What was done before an
    exception stays done. *)
Definition SE (S A : Type) : Type := S → S * outcome A.

#[export] Instance SE_ret {S} : MRet (SE S) := λ A a s, (s, Ok a).
#[export] Instance SE_bind {S} : MBind (SE S) := λ A B k m s,
  match m s with
  | (s', Ok a) => k a s'
  | (s', Raise e) => (s', Raise e)
  end.

Definition raise {S A} (e : exn) : SE S A := λ s, (s, Raise e).
Definition lift {S A} (x : outcome A) : SE S A := λ s, (s, x).

(** [sum(l)] over integers. *)
Definition sum (l : list Z) : Z := foldr Z.add 0%Z l.

(** [a // b]: floor division; Rocq's [Z.div] rounds the same way, and
    Python raises where the divisor is zero. *)
Definition floordiv (a b : Z) : outcome Z :=
  if (b =? 0)%Z then Raise ZeroDivisionError else Ok (a / b)%Z.

(** A slice bound [i] on a sequence of length [len]: a negative bound counts
    from the end, and every bound is clamped into [0, len]. *)
Definition clamp (len i : Z) : Z :=
  if (i <? 0)%Z then Z.max 0 (len + i) else Z.min i len.

(** [l[lo:hi]] *)
Definition slice {A} (l : list A) (lo hi : Z) : list A :=
  let len := Z.of_nat (length l) in
  let a := clamp len lo in
  let b := clamp len hi in
  take (Z.to_nat (b - a)) (drop (Z.to_nat a) l).

(** [l[:hi]] *)
Definition slice_to {A} (l : list A) (hi : Z) : list A :=
  take (Z.to_nat (clamp (Z.of_nat (length l)) hi)) l.

(** [l[i]]: a negative index counts from the end; out of range raises. *)
Definition index {A} (l : list A) (i : Z) : outcome A :=
  let len := Z.of_nat (length l) in
  let j := if (i <? 0)%Z then (len + i)%Z else i in
  if (j <? 0)%Z then Raise IndexError
  else match l !! Z.to_nat j with
       | Some x => Ok x
       | None => Raise IndexError
       end.

(** [a or b] where [a] is [None] or a byte string: an absent or empty [a]
    is falsy and gives [b]. *)
Definition or_else (a : option bytes) (b : bytes) : bytes :=
  match a with
  | Some (String c s) => String c s
  | Some EmptyString | None => b
  end.

(** [s.lower()], on the ASCII letters. *)
Definition lower_ascii (a : Ascii.ascii) : Ascii.ascii :=
  let n := Ascii.nat_of_ascii a in
  if bool_decide (65 ≤ n ≤ 90) then Ascii.ascii_of_nat (n + 32) else a.

Fixpoint lower (s : string) : string :=
  match s with
  | String a s => String (lower_ascii a) (lower s)
  | EmptyString => EmptyString
  end.

(** [s.startswith(p)] *)
Definition startswith (s p : string) : bool := String.prefix p s.

(** [s.endswith(suffix)] *)
Definition endswith (s suffix : string) : bool :=
  bool_decide (String.list_ascii_of_string suffix
                 `suffix_of` String.list_ascii_of_string s).

(** [s.rstrip(chars)]: [s] without its trailing characters that occur in
    [chars], which is a set of characters and not a suffix. *)
Fixpoint rstrip (s chars : string) : string :=
  match s with
  | EmptyString => EmptyString
  | String c s =>
      match rstrip s chars with
      | EmptyString =>
          if bool_decide (c ∈ String.list_ascii_of_string chars)
          then EmptyString else String c EmptyString
      | rest => String c rest
      end
  end.

(** A text of decimal digits. *)
Definition decimal (s : string) : Prop :=
  Forall (λ c, c ∈ String.list_ascii_of_string "0123456789")
         (String.list_ascii_of_string s).

(** [s[:n]] for a count [n] that is not negative. *)
Fixpoint str_take (n : nat) (s : string) : string :=
  match n, s with
  | S n, String c s => String c (str_take n s)
  | _, _ => EmptyString
  end.

End Py.
Export Py.

(** ** framework.py *)

Module framework.

Definition MACHINES_CONFIG : string := "machines.json".
Definition CSV_HEADER : string := "header.csv".
Definition RUNNER_CONFIG : string := "runner.config".
Definition LOG_TEMPLATE : string := "logging.template".
Definition CONFIGS : list string :=
  [MACHINES_CONFIG; CSV_HEADER; RUNNER_CONFIG; LOG_TEMPLATE].
(** [Path(__file__).parent.joinpath('defaults', 'runner.config')]: the
    defaults that ship next to the module. *)
Definition DEFAULT_CONFIG_PATH : string := "defaults/runner.config".
Definition RESULTS_CSV : string := "results.csv".

Definition newline : string := String (Ascii.ascii_of_nat 10) EmptyString.
Definition tab : string := String (Ascii.ascii_of_nat 9) EmptyString.
Definition quote : string := String (Ascii.ascii_of_nat 34) EmptyString.

(** Lines 46-51; the third template is the text of the defaults file. *)
Definition CONFIG_TEMPLATES (defaults : string) : list string :=
  [ "{" +:+ newline +:+ tab +:+ quote +:+ "example_machine" +:+ quote +:+
    ": [example_one_core_weight, example_cores_used]" +:+ newline +:+ "}";
    EmptyString; defaults; EmptyString ].

(** The machine roster as [get_machines] decodes it: an ordered mapping
    from the machine's name to [[thread_weight, threads]]. *)
Definition roster := list (string * (Z * Z)).

(** The keys of the [results] section that [run_jobs] reads. *)
Record config := {
  compress : bool;
  include_start_time : bool;
  include_job_interval : bool;
  include_job_done_time : bool;
  include_job_id : bool;
  file_name : string
}.

(** One column of a result row: a clock reading or a difference of two,
    a job id, or a value returned by the job. *)
Inductive cell (value time : Type) :=
| Float (t : time)
| Int (i : Z)
| Obj (v : value).
Arguments Float {value time} t.
Arguments Int {value time} i.
Arguments Obj {value time} v.

(** What the standard library does for the coordinator.  These functions
    are not part of the repository; the embedding is parametric in them. *)
Class Library := {
  (** the Python objects that jobs take and return *)
  value : Type;
  (** [time.time()] readings and their subtraction *)
  time : Type;
  time_sub : time → time → time;
  (** [hashlib.sha3_512(m).digest()] *)
  sha3_512 : bytes → bytes;
  (** how the objects that the caller hands over lie in the memory of one
      process: which of them are one object, and the hash seed of the
      process *)
  memory : Type;
  (** [pickle.dumps(extras)] for the tuple of extra objects: the bytes
      are those of the objects' values and, through the pickler's memo of
      the objects it has met and the iteration order of sets, of the
      memory they lie in *)
  dumps : memory → list (list (list value)) → bytes;
  (** reading bytes in text mode, as [Path.read_text] and [open(name, 'r')]
      do: decoded in the locale's encoding, the line ends [\r\n] and [\r]
      made [\n]; bytes that do not decode raise [UnicodeDecodeError].  A
      text is held as the bytes that writing it in text mode stores. *)
  decode : bytes → outcome string;
  (** [JSONDecoder(object_pairs_hook=OrderedDict).decode] *)
  json_decode : string → outcome roster;
  (** [ConfigParser] over the defaults and, where present, runner.config *)
  config_parse : string → option string → outcome config;
  (** [int(resp)], [None] where it raises *)
  int_of_string : string → option Z;
  (** [os.cpu_count()] *)
  cpu_count : Z;
  (** [dis.distb] into a buffer, [None] where it raises *)
  distb : exn → option string;
  (** the line that [csv.writer(f).writerow] writes *)
  writerow : list (cell value time) → string;
  (** the gzip member that one [write] to a file opened with
      [gzip.open(..., 'at')] adds *)
  gzip_member : string → string;
  (** line 49: the text of [DEFAULT_CONFIG_PATH] when the module was
      imported *)
  defaults_text : string
}.

(** [int(s)] *)
Definition int `{Library} (s : string) : outcome Z :=
  match int_of_string s with
  | Some n => Ok n
  | None => Raise (ValueError s)
  end.

(** Lines 92-111. *)
Definition parse_file_size `{Library} (value : string) : outcome Z :=
  let value := lower value in
  if endswith value "t" || endswith value "tib" then
    n ← int (rstrip (rstrip value "t") "tib"); Ok (Z.shiftl n 40)
  else if endswith value "g" || endswith value "gib" then
    n ← int (rstrip (rstrip value "g") "gib"); Ok (Z.shiftl n 30)
  else if endswith value "m" || endswith value "mib" then
    n ← int (rstrip (rstrip value "m") "mib"); Ok (Z.shiftl n 20)
  else if endswith value "k" || endswith value "kib" then
    n ← int (rstrip (rstrip value "k") "kib"); Ok (Z.shiftl n 10)
  else if endswith value "tb" then
    n ← int (str_take 2 value); Ok (n * 10 ^ 12)%Z
  else if endswith value "gb" then
    n ← int (str_take 2 value); Ok (n * 10 ^ 9)%Z
  else if endswith value "mb" then
    n ← int (str_take 2 value); Ok (n * 10 ^ 6)%Z
  else if endswith value "kb" then
    n ← int (str_take 2 value); Ok (n * 10 ^ 3)%Z
  else int value.

(** [random.Random]: seeding and the one primitive that [shuffle] calls. *)
Class RandomSource := {
  rng : Type;
  Random : bytes → rng;
  (** [_randbelow(n)]: the draw and the generator's next state *)
  randbelow : rng → nat → nat * rng
}.

(** What the library documents of [_randbelow(n)]: a draw in [range(n)]. *)
Definition randbelow_in_range `{RandomSource} : Prop :=
  ∀ g n, 0 < n → (randbelow g n).1 < n.

(** Modelled from the spec: the worker pool of the missing [progress]
    module.  Section 6 asks of it bounded execution of a callable over a
    collection of argument tuples and "an unordered-completion consumption
    interface"; section 4.4 says that completions are consumed in arrival
    order, not submission order.  [arrival] is the order in which the
    submitted tuples complete. *)
Class ProgressPool := {
  arrival : ∀ A : Type, list A → list A
}.

(** Every submitted tuple completes once. *)
Definition arrival_is_permutation `{ProgressPool} : Prop :=
  ∀ (A : Type) (l : list A), arrival A l ≡ₚ l.

(** What the documentation of [hashlib] says of the digest: 64 bytes. *)
Definition digest_is_512_bits `{Library} : Prop :=
  ∀ m, String.length (sha3_512 m) = 64.

(** Line 177: [names = tuple(machines)]. *)
Definition names_of (machines : roster) : list string := machines.*1.

(** Line 178: [weights = tuple(thread_weight * threads for ...)]. *)
Definition weights_of (machines : roster) : list Z :=
  (λ m, (m.2.1 * m.2.2)%Z) <$> machines.

(** Line 216: [START = sum(weights[:ID]) * lw // TOTAL]. *)
Definition START_of (weights : list Z) (lw ID : Z) : outcome Z :=
  floordiv (sum (slice_to weights ID) * lw) (sum weights).

(** Line 217: [STOP = sum(weights[:ID + 1]) * lw // TOTAL]. *)
Definition STOP_of (weights : list Z) (lw ID : Z) : outcome Z :=
  floordiv (sum (slice_to weights (ID + 1)) * lw) (sum weights).

(** Lines 215-220: the slice of the shuffled [indexed_set] this machine
    keeps, with the bounds that are shown to the operator.  Without an
    identity the whole set is kept and [STOP] stays [len(working_set)]. *)
Definition select_partition {A} (weights : list Z) (lw : Z) (ID : option Z)
    (indexed_set : list A) : outcome (list A * Z * Z) :=
  match ID with
  | Some ID =>
      START ← START_of weights lw ID;
      STOP ← STOP_of weights lw ID;
      Ok (slice indexed_set START STOP, START, STOP)
  | None => Ok (indexed_set, 0%Z, lw)
  end.

(** Position [k] of the shuffled list lies in the range [[START, STOP)]
    that lines 216-217 compute for machine [ID]. *)
Definition owns (weights : list Z) (lw ID k : Z) : Prop :=
  ∃ START STOP, START_of weights lw ID = Ok START ∧
    STOP_of weights lw ID = Ok STOP ∧ (START ≤ k < STOP)%Z.

(** Line 208: [seed = override_seed or entropy]. *)
Definition seed_of (override_seed : option bytes) (entropy : bytes) : bytes :=
  or_else override_seed entropy.

(** Line 209: [seed is override_seed].  The digest is a fresh object, so
    the test holds exactly where [or] kept its left operand. *)
Definition seed_is_override (override_seed : option bytes) : bool :=
  match override_seed with
  | Some (String _ _) => true
  | _ => false
  end.


Section coordinator.
Context `{Library} `{RandomSource} `{ProgressPool}.

Abbreviation row := (list (cell value time)).

(** What a job is called with: its own items, the private copy of the
    random source and the configuration (line 212). *)
Definition job_args : Type := list value * rng * config.
Definition indexed_job : Type := Z * job_args.

(** The records that [run_jobs] hands to its logger, one constructor for
    each call. *)
Inductive record :=
| CheckingConfiguration
| LoadedMachines (machines : roster)
| WithoutID
| InstantiatedAs (ID : Z)
| EntropyIs (entropy : bytes)
| UsingOverrideSeed (seed : bytes)
| JobsQueued (count START STOP_minus_1 lw : Z)
| WorkerCores (num_cores : Z)
| AnswerReceived (idx total : Z)
| ReduceMessedUp (e : exn)
| Disassembly (text : string).

(** The two questions put to the operator. *)
Inductive prompt :=
| WhichNode (names : list string)
| PleaseVerify (who : string) (checksum : bytes)
               (count START STOP_minus_1 lw : Z).

(** The outside world: the files, what the operator will type and has
    been asked, the log, the clock and how often it was read, the
    lists of indexed jobs handed to the pool, and the memory of the process
    in which the caller's objects lie. *)
Record world := {
  files : gmap string string;
  stdin : list string;
  stdout : list prompt;
  log : list record;
  clock : nat → time;
  now : nat;
  submitted : list (list indexed_job);
  heap : memory
}.

Definition set_files (f : gmap string string) (w : world) : world :=
  {| files := f; stdin := stdin w; stdout := stdout w; log := log w;
     clock := clock w; now := now w; submitted := submitted w;
     heap := heap w |}.
Definition set_stdin (i : list string) (w : world) : world :=
  {| files := files w; stdin := i; stdout := stdout w; log := log w;
     clock := clock w; now := now w; submitted := submitted w;
     heap := heap w |}.
Definition set_stdout (o : list prompt) (w : world) : world :=
  {| files := files w; stdin := stdin w; stdout := o; log := log w;
     clock := clock w; now := now w; submitted := submitted w;
     heap := heap w |}.
Definition set_log (l : list record) (w : world) : world :=
  {| files := files w; stdin := stdin w; stdout := stdout w; log := l;
     clock := clock w; now := now w; submitted := submitted w;
     heap := heap w |}.
Definition set_now (n : nat) (w : world) : world :=
  {| files := files w; stdin := stdin w; stdout := stdout w; log := log w;
     clock := clock w; now := n; submitted := submitted w;
     heap := heap w |}.
Definition set_submitted (s : list (list indexed_job)) (w : world) : world :=
  {| files := files w; stdin := stdin w; stdout := stdout w; log := log w;
     clock := clock w; now := now w; submitted := s; heap := heap w |}.

(** The coordinator's code runs on the world. *)
Abbreviation M := (SE world).

Definition logger (r : record) : M unit :=
  λ w, (set_log (log w ++ [r]) w, Ok ()).

(** [input(p)]: shows [p], then takes the operator's next line, or
    raises at the end of the input. *)
Definition input (p : prompt) : M string := λ w,
  let w := set_stdout (stdout w ++ [p]) w in
  match stdin w with
  | [] => (w, Raise EOFError)
  | resp :: rest => (set_stdin rest w, Ok resp)
  end.

(** [time()] *)
Definition time_now : M time :=
  λ w, (set_now (S (now w)) w, Ok (clock w (now w))).

(** [path.read_bytes()] *)
Definition read (path : string) : M string := λ w,
  match files w !! path with
  | Some content => (w, Ok content)
  | None => (w, Raise (FileNotFoundError path))
  end.

(** [path.read_text()], and [open(path, 'r')] with one [read]: the bytes
    of the file, decoded. *)
Definition read_text (path : string) : M string :=
  content ← read path;
  lift (decode content).

(** [path.open('x')] and one [write]: [False] where the file exists
    ([FileExistsError], which line 77 swallows). *)
Definition create_exclusive (path content : string) : M bool := λ w,
  match files w !! path with
  | Some _ => (w, Ok false)
  | None => (set_files (<[path:=content]> (files w)) w, Ok true)
  end.

(** [path.open('w')] and one [write]. *)
Definition write (path content : string) : M unit :=
  λ w, (set_files (<[path:=content]> (files w)) w, Ok ()).

(** [open(path, 'at')] and one [write]. *)
Definition append (path content : string) : M unit := λ w,
  (set_files (<[path:=default EmptyString (files w !! path) +:+ content]>
                (files w)) w, Ok ()).

(** Lines 58-67.  The hash object is the bytes fed to it so far. *)
Fixpoint update_with_files (names : list string) (hash_obj : bytes)
    : M bytes :=
  match names with
  | [] => mret hash_obj
  | name :: names =>
      content ← read name;
      update_with_files names (hash_obj +:+ content)
  end.

(** Line 66: [dumps(extras)], in the memory of this process. *)
Definition pickle (extras : list (list (list value))) : M bytes :=
  λ w, (w, Ok (dumps (heap w) extras)).

Definition get_entropy (extras : list (list (list value))) : M bytes :=
  hash_obj ← update_with_files CONFIGS EmptyString;
  pickled ← pickle extras;
  let hash_obj := hash_obj +:+ pickled in
  mret (sha3_512 hash_obj).

(** Lines 70-82. *)
Fixpoint create_missing (todo : list (string * string))
    (any_triggered : bool) : M bool :=
  match todo with
  | [] => mret any_triggered
  | (name, default) :: todo =>
      created ← create_exclusive name default;
      create_missing todo (created || any_triggered)
  end.

Definition make_config_files : M unit :=
  any_triggered ←
    create_missing (zip CONFIGS (CONFIG_TEMPLATES defaults_text)) false;
  if any_triggered : bool
  then raise (FileNotFoundError
         "Your configuration files have been created. Please fill them out.")
  else mret ().

(** Lines 85-89. *)
Definition get_machines : M roster :=
  text ← read_text MACHINES_CONFIG;
  lift (json_decode text).

(** Lines 114-130; [config.read] skips a file that is not there. *)
Definition read_if_present (path : string) : M (option string) :=
  λ w, match files w !! path with
       | Some content => (w, Some <$> decode content)
       | None => (w, Ok None)
       end.

Definition get_config : M config :=
  defaults ← read_text DEFAULT_CONFIG_PATH;
  runner ← read_if_present RUNNER_CONFIG;
  lift (config_parse defaults runner).

(** Lines 156-157. *)
Definition _indexed_job (job : job_args → outcome (option (list value)))
    (index : Z) (given_args : job_args)
    : outcome (Z * option (list value)) :=
  result ← job given_args;
  Ok (index, result).

(** Lines 188-199: ask until the answer is [N/A] or an integer. *)
Fixpoint identity_loop (dialog : prompt) (responses : list string)
    (w : world) : world * outcome (option Z) :=
  let w := set_stdout (stdout w ++ [dialog]) w in
  match responses with
  | [] => (w, Raise EOFError)
  | resp :: responses =>
      let w := set_stdin responses w in
      if bool_decide (resp = "N/A") then
        (set_log (log w ++ [WithoutID]) w, Ok None)
      else match int_of_string resp with
           | Some ID => (set_log (log w ++ [InstantiatedAs ID]) w,
                         Ok (Some ID))
           | None => identity_loop dialog responses w
           end
  end.

Definition ask_identity (dialog : prompt) : M (option Z) :=
  λ w, identity_loop dialog (stdin w) w.

(** [random.Random.shuffle]:
    [for i in reversed(range(1, len(x))): j = randbelow(i + 1);
     x[i], x[j] = x[j], x[i]]. *)
Definition exchange {A} (x : list A) (i j : nat) : outcome (list A) :=
  match x !! j, x !! i with
  | Some xj, Some xi => Ok (<[j:=xi]> (<[i:=xj]> x))
  | _, _ => Raise IndexError
  end.

Fixpoint shuffle_from {A} (i : nat) (g : rng) (x : list A)
    : outcome (list A * rng) :=
  match i with
  | 0 => Ok (x, g)
  | S i' =>
      let '(j, g) := randbelow g (i + 1) in
      x ← exchange x i j;
      shuffle_from i' g x
  end.

Definition shuffle {A} (g : rng) (x : list A) : outcome (list A * rng) :=
  shuffle_from (length x - 1) g x.

(** [copy(random_obj)]: a new generator in the same state. *)
Definition copy (random_obj : rng) : rng := random_obj.

(** Line 212. *)
Definition index_working_set (working_set : list (list value))
    (random_obj : rng) (config : config) : list indexed_job :=
  imap (λ idx items, (Z.of_nat idx, (items, copy random_obj, config)))
       working_set.

(** Lines 208-213 without the log line: the seed, the generator, the
    indexed set and its shuffle. *)
Definition shuffled_indexed_set (config : config)
    (working_set : list (list value)) (override_seed : option bytes)
    (entropy : bytes) : outcome (list indexed_job) :=
  let seed := seed_of override_seed entropy in
  let random_obj := Random seed in
  let indexed_set := index_working_set working_set random_obj config in
  '(indexed_set, random_obj) ← shuffle random_obj indexed_set;
  Ok indexed_set.

(** Lines 208-220: the shuffled set and this machine's slice of it. *)
Definition arrange (weights : list Z) (ID : option Z) (config : config)
    (working_set : list (list value)) (override_seed : option bytes)
    (entropy : bytes) : outcome (list indexed_job * Z * Z) :=
  let lw := Z.of_nat (length working_set) in
  indexed_set ← shuffled_indexed_set config working_set override_seed entropy;
  select_partition weights lw ID indexed_set.

(** An indexed job without the configuration it carries: its index, its
    items and its random source. *)
Definition job_key (j : indexed_job) : Z * (list value * rng) := (j.1, j.2.1).

(** Lines 221-229: ask until the answer starts with [y]; an answer that
    starts with [n] ends the process with status 1. *)
Fixpoint confirm_loop (question : prompt) (responses : list string)
    (w : world) : world * outcome unit :=
  let w := set_stdout (stdout w ++ [question]) w in
  match responses with
  | [] => (w, Raise EOFError)
  | response :: responses =>
      let w := set_stdin responses w in
      if startswith (lower response) "n" then (w, Raise (SystemExit 1))
      else if startswith (lower response) "y" then (w, Ok ())
      else confirm_loop question responses w
  end.

Definition confirm (question : prompt) : M unit :=
  λ w, confirm_loop question (stdin w) w.

(** [machines[name]] *)
Definition lookup_machine (machines : roster) (name : string)
    : outcome (Z * Z) :=
  match list_find (λ m, m.1 = name) machines with
  | Some (_, m) => Ok m.2
  | None => Raise (KeyError name)
  end.

(** What lines 172-236 hand to the rest of the run. *)
Record plan := {
  plan_config : config;
  plan_ID : option Z;
  plan_entropy : bytes;
  plan_indexed_set : list indexed_job;
  plan_START : Z;
  plan_STOP : Z;
  plan_lw : Z;
  plan_num_cores : Z
}.

(** Lines 172-199: the configuration files, the roster, the settings and
    the operator's answer to "Which node am I?". *)
Definition identify : M (roster * config * option Z) :=
  logger CheckingConfiguration;;
  make_config_files;;
  machines ← get_machines;
  logger (LoadedMachines machines);;
  config ← get_config;
  ID ← ask_identity (WhichNode (names_of machines));
  mret (machines, config, ID).

(** Lines 201-236: seed, shuffle, partition and the operator's
    confirmation. *)
Definition prepare (machines : roster) (config : config) (ID : option Z)
    (working_set : list (list value)) (override_seed : option bytes)
    : M plan :=
  let names := names_of machines in
  let weights := weights_of machines in
  let lw := Z.of_nat (length working_set) in
  entropy ← get_entropy [working_set];
  logger (EntropyIs entropy);;
  (if seed_is_override override_seed
   then logger (UsingOverrideSeed (seed_of override_seed entropy))
   else mret ());;
  '(indexed_set, START, STOP) ←
    lift (arrange weights ID config working_set override_seed entropy);
  who ← lift (match ID with
              | None => Ok "N/A"
              | Some ID => index names ID
              end);
  let count := Z.of_nat (length indexed_set) in
  confirm (PleaseVerify who entropy count START (STOP - 1) lw);;
  num_cores ← lift (match ID with
                    | None => Ok cpu_count
                    | Some ID => m ← lookup_machine machines who; Ok m.2
                    end);
  logger (JobsQueued count START (STOP - 1) lw);;
  logger (WorkerCores num_cores);;
  mret {| plan_config := config; plan_ID := ID; plan_entropy := entropy;
          plan_indexed_set := indexed_set; plan_START := START;
          plan_STOP := STOP; plan_lw := lw; plan_num_cores := num_cores |}.

(** One world continues another: the files, the clock and the submissions
    are the same, and the log and the dialogue have only grown. *)
Definition continues (w w' : world) : Prop :=
  files w' = files w ∧ submitted w' = submitted w ∧ clock w' = clock w ∧
  now w' = now w ∧ log w `prefix_of` log w' ∧ stdout w `prefix_of` stdout w'.

(** How many times the log says that the reduction failed. *)
Definition is_reduce_failure (r : record) : bool :=
  match r with
  | ReduceMessedUp _ => true
  | _ => false
  end.

Definition reduce_failures (l : list record) : nat :=
  length (filter (λ r, is_reduce_failure r = true) l).

Section run.
Context {T : Type}.
(** The callables that the caller passes: each returns or raises.
    [setupargs] are part of [setup_function]; [process_initializer]
    and [initargs] go to the pool's workers. *)
Variable job : job_args → outcome (option (list value)).
Variable setup_function : config → outcome unit.
Variable parse_function : config → row → outcome unit.
Variable reduce_function : T → option (list value) → outcome T.

(** Lines 258-268: the reduction under [try]; an [Exception] is logged,
    with the disassembly where [distb] gives one, and [current] keeps
    its value. *)
Definition guarded_reduce (current : T) (result : option (list value))
    : M T :=
  match reduce_function current result with
  | Ok current => mret current
  | Raise e =>
      if is_Exception e then
        logger (ReduceMessedUp e);;
        (match distb e with
         | Some text => logger (Disassembly text)
         | None => mret ()
         end);;
        mret current
      else raise e
  end.

(** Lines 282-290. *)
Definition meta_of (config : config) (start_time last_time new_time : time)
    (job_id : Z) : row :=
  (if include_start_time config then [Float start_time] else []) ++
  (if include_job_interval config
   then [Float (time_sub new_time last_time)] else []) ++
  (if include_job_done_time config then [Float new_time] else []) ++
  (if include_job_id config then [Int job_id] else []).

(** Lines 272-280: the file that [open_method] opens for appending,
    and what one written line adds to it. *)
Definition results_path (config : config) : string :=
  if compress config then file_name config +:+ ".gz"
  else file_name config.

Definition open_method_write (config : config) (line : string) : M unit :=
  append (results_path config)
         (if compress config then gzip_member line else line).

(** Lines 257-293: one turn of the loop. *)
Definition handle_completion (config : config) (lw : Z)
    (start_time : time) (idx : Z) (current : T) (last_time : time)
    (completion : Z * option (list value)) : M (T * time) :=
  let '(job_id, result) := completion in
  logger (AnswerReceived idx lw);;
  current ← guarded_reduce current result;
  new_time ← time_now;
  let result := default [] result in
  let meta := meta_of config start_time last_time new_time job_id in
  open_method_write config (writerow (meta ++ (Obj <$> result)));;
  lift (parse_function config (meta ++ (Obj <$> result)));;
  mret (current, new_time).

(** Lines 250-293: the loop over the completions.  A job that raises
    raises here, where its result is taken from the pool. *)
Fixpoint consume (config : config) (lw : Z) (start_time : time)
    (pending : list indexed_job) (idx : Z) (current : T)
    (last_time : time) : M T :=
  match pending with
  | [] => mret current
  | (index, given_args) :: pending =>
      completion ← lift (_indexed_job job index given_args);
      '(current, last_time) ←
        handle_completion config lw start_time idx current last_time
                          completion;
      consume config lw start_time pending (idx + 1)%Z current last_time
  end.

(** Line 250: the indexed set goes to the pool, which gives the jobs
    back in the order in which they complete. *)
Definition istarmap_unordered (indexed_set : list indexed_job)
    : M (list indexed_job) :=
  λ w, (set_submitted (submitted w ++ [indexed_set]) w,
        Ok (arrival _ indexed_set)).

(** Lines 238-294.  The logging handler of line 246, the construction of
    the pool with its display settings and the renicer thread of lines
    248-249 act on the worker processes and on the screen, which the world
    does not hold. *)
Definition execute (reduce_start : T) (p : plan) : M T :=
  let config := plan_config p in
  lift (setup_function config);;
  start_time ← time_now;
  write RESULTS_CSV EmptyString;;
  header ← read_text CSV_HEADER;
  write RESULTS_CSV (header +:+ newline);;
  pending ← istarmap_unordered (plan_indexed_set p);
  consume config (plan_lw p) start_time pending 1%Z reduce_start
          start_time.

(** Lines 201-294: the run of a machine that knows who it is. *)
Definition run_as (machines : roster) (config : config) (ID : option Z)
    (working_set : list (list value)) (reduce_start : T)
    (override_seed : option bytes) : M T :=
  p ← prepare machines config ID working_set override_seed;
  execute reduce_start p.

(** Lines 160-294. *)
Definition run_jobs (working_set : list (list value)) (reduce_start : T)
    (override_seed : option bytes) : M T :=
  '(machines, config, ID) ← identify;
  run_as machines config ID working_set reduce_start override_seed.

(** The text that the loop adds to the results file for a list of rows. *)
Definition lines_of (config : config) (rows : list row) : string :=
  foldr (λ r rest,
           (if compress config then gzip_member (writerow r) else writerow r)
           +:+ rest)
        EmptyString rows.


(** A row is that of an indexed job: the enabled metadata for its index and
    some clock readings, then the values it returned, none where it returned
    [None]. *)
Definition row_of_job (config : config) (start_time : time)
    (j : indexed_job) (r : row) : Prop :=
  ∃ result last_time new_time,
    job j.2 = Ok result ∧
    r = meta_of config start_time last_time new_time j.1
        ++ (Obj <$> default [] result).

End run.

End coordinator.

End framework.
Import framework.

(** ** zipped_logs.py *)

Module zipped_logs.

(** A file is plain bytes or a zip archive, the list of its named entries
    in the order in which they were written. *)
Inductive node :=
| Plain (content : bytes)
| Archive (entries : list (string * bytes)).

Abbreviation disk := (gmap string node).

(** [os.path.basename]: what follows the last slash. *)
Fixpoint basename_from (seen : string) (path : string) : string :=
  match path with
  | EmptyString => seen
  | String c path =>
      if bool_decide (c = Ascii.ascii_of_nat 47)
      then basename_from EmptyString path
      else basename_from (seen +:+ String c EmptyString) path
  end.
Definition basename (path : string) : string := basename_from EmptyString path.

(** [s.zfill(width)] for a string of digits. *)
Definition zfill (width : nat) (s : string) : string :=
  String.concat EmptyString (replicate (width - String.length s) "0") +:+ s.

(** [os.path.exists], [os.remove], [os.rename] *)
Definition exists_ (fs : disk) (path : string) : bool :=
  bool_decide (is_Some (fs !! path)).

Definition remove (path : string) : SE disk unit := λ fs,
  match fs !! path with
  | Some _ => (delete path fs, Ok ())
  | None => (fs, Raise (FileNotFoundError path))
  end.

Definition rename (source dest : string) : SE disk unit := λ fs,
  match fs !! source with
  | Some n => (<[dest:=n]> (delete source fs), Ok ())
  | None => (fs, Raise (FileNotFoundError source))
  end.

(** The raw bytes of an archive are not modelled; [open(path, 'rb')] is
    only ever used on the handler's own log file. *)
Definition read_bytes (path : string) : SE disk bytes := λ fs,
  match fs !! path with
  | Some (Plain content) => (fs, Ok content)
  | Some (Archive _) => (fs, Raise (ValueError "raw bytes of an archive"))
  | None => (fs, Raise (FileNotFoundError path))
  end.

(** [ZipFile(name, 'w')]: a new, empty archive in place of what was
    there. *)
Definition zip_create (name : string) : SE disk unit :=
  λ fs, (<[name:=Archive []]> fs, Ok ()).

(** [archive.writestr(entry, data)] on the archive at [name]. *)
Definition writestr (name entry : string) (data : bytes) : SE disk unit :=
  λ fs, match fs !! name with
        | Some (Archive entries) =>
            (<[name:=Archive (entries ++ [(entry, data)])]> fs, Ok ())
        | _ => (fs, Raise BadZipFile)
        end.

(** [ZipFile(name, 'r').read(entry)]: the entry written last under that
    name. *)
Definition zip_read (name entry : string) : SE disk bytes := λ fs,
  match fs !! name with
  | Some (Archive entries) =>
      match last (filter (λ e, e.1 = entry) entries) with
      | Some e => (fs, Ok e.2)
      | None => (fs, Raise (KeyError entry))
      end
  | Some (Plain _) => (fs, Raise BadZipFile)
  | None => (fs, Raise (FileNotFoundError name))
  end.

(** The attributes of the handler that the code reads.  [closed] is the
    private [__closed] of line 9. *)
Record handler := {
  baseFilename : string;
  maxBytes : nat;
  backupCount : nat;
  closed : bool
}.

(** Lines 14-15. *)
Definition rotation_filename (name : string) : string := name +:+ ".zip".

(** ["%s.%d" % (baseFilename, i)] through [rotation_filename], which is
    also the ["%s.%d.zip"] of line 27. *)
Definition numbered (h : handler) (i : nat) : string :=
  rotation_filename (baseFilename h +:+ "." +:+ pretty i).

(** Lines 35-43. *)
Definition rotator (h : handler) (source dest : string) : SE disk unit :=
  if bool_decide (source = baseFilename h) then
    data ← read_bytes source;
    zip_create dest;;
    writestr dest (basename (baseFilename h)) data;;
    remove source
  else rename source dest.

(** Lines 7-9 over [RotatingFileHandler.__init__] without [delay]: the
    log file is opened for appending, which creates it. *)
Definition open_stream (path : string) : SE disk unit := λ fs,
  match fs !! path with
  | Some _ => (fs, Ok ())
  | None => (<[path:=Plain EmptyString]> fs, Ok ())
  end.

Definition init (filename : string) (maxBytes backupCount : nat)
    : SE disk handler :=
  open_stream filename;;
  mret {| baseFilename := filename; maxBytes := maxBytes;
          backupCount := backupCount; closed := false |}.

(** [RotatingFileHandler.doRollover] of the standard library, with the
    two methods that the subclass overrides:
    [for i in range(backupCount - 1, 0, -1)] moves archive [i] to [i + 1],
    then the log file is rotated into archive 1 and opened again. *)
Fixpoint shift_archives (h : handler) (i : nat) : SE disk unit :=
  match i with
  | 0 => mret ()
  | S i' =>
      (λ fs, if exists_ fs (numbered h i)
             then ((if exists_ fs (numbered h (i + 1))
                    then remove (numbered h (i + 1)) else mret ());;
                   rename (numbered h i) (numbered h (i + 1))) fs
             else (fs, Ok ()));;
      shift_archives h i'
  end.

Definition doRollover (h : handler) : SE disk unit :=
  (if bool_decide (0 < backupCount h) then
     shift_archives h (backupCount h - 1);;
     (λ fs, if exists_ fs (numbered h 1)
            then remove (numbered h 1) fs else (fs, Ok ()));;
     rotator h (baseFilename h) (numbered h 1)
   else mret ());;
  open_stream (baseFilename h).

(** [RotatingFileHandler.emit] of the standard library: roll over where
    the formatted record would reach [maxBytes], then write it. *)
Definition shouldRollover (h : handler) (msg : string) : SE disk bool := λ fs,
  match fs !! baseFilename h with
  | Some (Plain content) =>
      (fs, Ok (bool_decide (0 < maxBytes h ∧
                 maxBytes h ≤ String.length content + String.length msg)))
  | _ => (fs, Ok false)
  end.

Definition write_stream (h : handler) (msg : string) : SE disk unit := λ fs,
  match fs !! baseFilename h with
  | Some (Plain content) =>
      (<[baseFilename h:=Plain (content +:+ msg)]> fs, Ok ())
  | Some (Archive _) => (fs, Raise (ValueError "raw bytes of an archive"))
  | None => (<[baseFilename h:=Plain msg]> fs, Ok ())
  end.

Definition emit (h : handler) (record : string) : SE disk unit :=
  let msg := record +:+ framework.newline in
  roll ← shouldRollover h msg;
  (if roll : bool then doRollover h else mret ());;
  write_stream h msg.

(** Lines 26-32: [for i in range(1, backupCount)], with [todo] turns
    left, stops at the first archive that is not there. *)
Fixpoint merge_archives (h : handler) (dest basename : string)
    (max_digits todo i : nat) : SE disk unit :=
  match todo with
  | 0 => mret ()
  | S todo =>
      let fn := numbered h i in
      λ fs, if exists_ fs fn then
              (data ← zip_read fn basename;
               writestr dest
                 (zipped_logs.basename
                    (basename +:+ "." +:+ zfill max_digits (pretty i)))
                 data;;
               remove fn;;
               merge_archives h dest basename max_digits todo (S i)) fs
            else (fs, Ok ())
  end.

(** Lines 17-33.  [super().close()] closes the stream, which leaves the
    files as they are. *)
Definition close (h : handler) : SE disk handler :=
  (if closed h then mret ()
   else
     let dest := baseFilename h +:+ ".zip" in
     zip_create dest;;
     let basename := basename (baseFilename h) in
     data ← read_bytes (baseFilename h);
     writestr dest basename data;;
     remove (baseFilename h);;
     let max_digits := String.length (pretty (backupCount h)) in
     merge_archives h dest basename max_digits (backupCount h - 1) 1);;
  mret {| baseFilename := baseFilename h; maxBytes := maxBytes h;
          backupCount := backupCount h; closed := true |}.

(** The zip archives on the disk, and the plain files. *)
Definition is_archive (n : node) : bool :=
  match n with
  | Archive _ => true
  | Plain _ => false
  end.

Definition archives (fs : disk) : gmap string node :=
  filter (λ kv, is_archive kv.2 = true) fs.

Definition plain_files (fs : disk) : gmap string node :=
  filter (λ kv, is_archive kv.2 = false) fs.

End zipped_logs.

(** ** A small instance of the libraries, to run the code on examples *)

Module Demo.
Import framework.

(** A 64-byte stand-in for the digest: two bytes of a positional checksum
    and 62 filler bytes. *)
Definition checksum (m : bytes) : Z :=
  foldl (λ h c, (h * 31 + Z.of_nat (Ascii.nat_of_ascii c)) mod 65521)%Z 7%Z
        (String.list_ascii_of_string m).

Definition demo_digest (m : bytes) : bytes :=
  String (Ascii.ascii_of_nat (Z.to_nat (checksum m / 256)))
    (String (Ascii.ascii_of_nat (Z.to_nat (checksum m mod 256)))
       (String.concat EmptyString (replicate 62 "0"))).

(** The text of a roster, and a decoder that knows three rosters. *)
Definition machine_text (m : string * (Z * Z)) : string :=
  quote +:+ m.1 +:+ quote +:+ ": [" +:+ pretty m.2.1 +:+ ", " +:+
  pretty m.2.2 +:+ "]".

Definition roster_text (r : roster) : string :=
  "{" +:+ String.concat ", " (machine_text <$> r) +:+ "}".

Definition equal_roster : roster := [("A", (1, 4)); ("B", (1, 4))]%Z.
Definition uneven_roster : roster := [("A", (1, 2)); ("B", (3, 2))]%Z.
Definition idle_roster : roster := [("A", (0, 4)); ("B", (1, 0))]%Z.

Definition demo_json_decode (text : string) : outcome roster :=
  match list_find (λ r, roster_text r = text)
                  [equal_roster; uneven_roster; idle_roster] with
  | Some (_, r) => Ok r
  | None => Raise (ValueError "machines.json")
  end.

(** A configuration reader that looks for its keys as they are spelled. *)
Definition mentions (text key : string) : bool :=
  bool_decide (is_Some (String.index 0 key text)).

Definition demo_config_parse (defaults : string) (runner : option string)
    : outcome config :=
  let text := defaults +:+ default EmptyString runner in
  Ok {| compress := mentions text "compress = yes";
        include_start_time := mentions text "include_start_time = yes";
        include_job_interval := mentions text "include_job_interval = yes";
        include_job_done_time := mentions text "include_job_done_time = yes";
        include_job_id := mentions text "include_job_id = yes";
        file_name := if mentions text "file_name = out.csv"
                     then "out.csv" else "results.csv" |}.

(** Decimal numbers, with a sign. *)
Fixpoint digits (s : string) (acc : Z) : option Z :=
  match s with
  | EmptyString => Some acc
  | String c s =>
      let n := Ascii.nat_of_ascii c in
      if bool_decide (48 ≤ n ≤ 57)
      then digits s (acc * 10 + Z.of_nat (n - 48))%Z
      else None
  end.

Definition demo_int (s : string) : option Z :=
  match s with
  | EmptyString => None
  | String c rest =>
      if bool_decide (Ascii.nat_of_ascii c = 45)
      then match rest with
           | EmptyString => None
           | _ => Z.opp <$> digits rest 0
           end
      else digits s 0
  end.

Definition cell_text (c : cell Z Z) : string :=
  match c with
  | Float t => pretty t
  | Int i => pretty i
  | Obj v => pretty v
  end.

Definition crlf : string :=
  String (Ascii.ascii_of_nat 13) (String (Ascii.ascii_of_nat 10) EmptyString).

Definition demo_writerow (r : list (cell Z Z)) : string :=
  String.concat "," (cell_text <$> r) +:+ crlf.

(** A stand-in for the pickle: the values in their order, except that a
    job whose tuple of arguments is an object that was met before is
    written as a reference to the first job with that object, as the
    pickler's memo does.  [ids] names the objects that the tuples of the
    jobs are, in their order; a job without a name is an object of its
    own. *)
Definition first_same (ids : list nat) (k : nat) : option nat :=
  i ← ids !! k; fst <$> list_find (λ x, x = i) (take k ids).

Definition demo_dumps (ids : list nat) (extras : list (list (list Z)))
    : bytes :=
  String.concat ";"
    (concat (imap (λ k job, match first_same ids k with
                            | Some j => ["@" +:+ pretty j]
                            | None => pretty <$> job
                            end)
                  (concat extras))).

(** Text in ASCII: a byte from 128 on does not decode, and the line ends
    [\r\n] and [\r] are read as [\n]. *)
Fixpoint universal_newlines (s : string) : string :=
  match s with
  | EmptyString => EmptyString
  | String c rest =>
      if bool_decide (Ascii.nat_of_ascii c = 13) then
        String (Ascii.ascii_of_nat 10)
          match rest with
          | String d rest' =>
              if bool_decide (Ascii.nat_of_ascii d = 10)
              then universal_newlines rest' else universal_newlines rest
          | EmptyString => EmptyString
          end
      else String c (universal_newlines rest)
  end.

Definition demo_decode (content : bytes) : outcome string :=
  if bool_decide (Forall (λ c, Ascii.nat_of_ascii c < 128)
                         (String.list_ascii_of_string content))
  then Ok (universal_newlines content)
  else Raise UnicodeDecodeError.

#[export] Instance demo_library : Library := {|
  value := Z;
  time := Z;
  time_sub := Z.sub;
  sha3_512 := demo_digest;
  memory := list nat;
  dumps := demo_dumps;
  decode := demo_decode;
  json_decode := demo_json_decode;
  config_parse := demo_config_parse;
  int_of_string := demo_int;
  cpu_count := 8;
  distb := λ _, None;
  writerow := demo_writerow;
  gzip_member := λ s, "<gz>" +:+ s +:+ "</gz>";
  defaults_text := "[results]"
|}.

(** A linear congruential generator seeded with the checksum of the seed. *)
#[export] Instance demo_random : RandomSource := {|
  rng := Z;
  Random := checksum;
  randbelow := λ g n,
    (Z.to_nat (g mod Z.of_nat n), (g * 1103515245 + 12345) mod 2147483648)%Z
|}.

(** A pool whose jobs complete in the reverse of the order of submission. *)
#[export] Instance demo_pool : ProgressPool := {|
  arrival := λ A l, reverse l
|}.

(** A directory with the four configuration files and the defaults. *)
Definition demo_files (machines : roster) (header runner : string)
    : gmap string string :=
  {[ MACHINES_CONFIG := roster_text machines;
     CSV_HEADER := header;
     RUNNER_CONFIG := runner;
     LOG_TEMPLATE := EmptyString;
     DEFAULT_CONFIG_PATH := "[results]" ]}.

(** A process in which the tuples of the jobs are the objects [ids], and
    the usual one, in which every job has a tuple of its own. *)
Definition demo_process (ids : list nat) (files : gmap string string)
    (answers : list string) (tick : Z) : world :=
  {| files := files; stdin := answers; stdout := []; log := [];
     clock := λ n, (1000 + tick * Z.of_nat n)%Z; now := 0; submitted := [];
     heap := ids |}.

Definition demo_world (files : gmap string string) (answers : list string)
    (tick : Z) : world :=
  demo_process [] files answers tick.

Definition all_columns : string :=
  "include_start_time = yes include_job_interval = yes " +:+
  "include_job_done_time = yes include_job_id = yes".

(** A job that squares its items and returns nothing where it has none. *)
Definition squares (args : job_args) : outcome (option (list Z)) :=
  match args.1.1 with
  | [] => Ok None
  | items => Ok (Some ((λ v, v * v)%Z <$> items))
  end.

Definition no_setup (c : config) : outcome unit := Ok ().
Definition no_parse (c : config) (r : list (cell Z Z)) : outcome unit := Ok ().
Definition adding (acc : Z) (result : option (list Z)) : outcome Z :=
  Ok (acc + sum (default [] result))%Z.
Definition failing (acc : Z) (result : option (list Z)) : outcome Z :=
  Raise (UserException "reduce").
(** A reduction that is interrupted: [KeyboardInterrupt] derives from
    [BaseException] only. *)
Definition interrupted (acc : Z) (result : option (list Z)) : outcome Z :=
  Raise (UserBaseException "KeyboardInterrupt").

Definition four_jobs : list (list Z) := [[1; 2]; [3]; []; [4; 5; 6]]%Z.
(** A working set whose first and third job have equal arguments. *)
Definition repeated_jobs : list (list Z) := [[1; 2]; [3]; [1; 2]; [4; 5; 6]]%Z.

Definition every_column : config :=
  {| compress := false; include_start_time := true;
     include_job_interval := true; include_job_done_time := true;
     include_job_id := true; file_name := "results.csv" |}.

(** The four jobs run by [run_jobs] in a directory, with the operator's
    answers, a reduction and an override seed. *)
Definition demo_run (machines : roster) (header runner : string)
    (answers : list string) (reduce : Z → option (list Z) → outcome Z)
    (override_seed : option bytes) : world * outcome Z :=
  run_jobs squares no_setup no_parse reduce four_jobs 0%Z override_seed
           (demo_world (demo_files machines header runner) answers 7).

(** The indices of the jobs in each list that was handed to the pool. *)
Definition submitted_ids (w : world) : list (list Z) :=
  fmap (M:=list) (fmap (M:=list) fst) (submitted w).

(** A handler with [maxBytes = 8] and [backupCount = 3] that is given four
    records of six bytes: each of the last three rolls the log over. *)
Definition log_path : string := "/var/log/app.log".

Definition three_rotations : SE zipped_logs.disk zipped_logs.handler :=
  h ← zipped_logs.init log_path 8 3;
  zipped_logs.emit h "aaaaa";;
  zipped_logs.emit h "bbbbb";;
  zipped_logs.emit h "ccccc";;
  zipped_logs.emit h "ddddd";;
  mret h.

Definition line (record : string) : string := record +:+ newline.

End Demo.

(** * Properties *)

(** ** The partition planner *)

Section partition_facts.
Local Open Scope Z_scope.

Lemma clamp_in_range (len i : Z) : 0 ≤ i ≤ len → clamp len i = i.
Proof. intros Hi. unfold clamp. destruct (Z.ltb_spec i 0); lia. Qed.

Lemma slice_to_take {A} (l : list A) (i : nat) :
  (i ≤ length l)%nat → slice_to l (Z.of_nat i) = take i l.
Proof.
  intros Hi. unfold slice_to. rewrite clamp_in_range by lia.
  by rewrite Nat2Z.id.
Qed.

Lemma sum_app (l k : list Z) : sum (l ++ k) = sum l + sum k.
Proof. induction l as [|x l IH]; simpl; [done | rewrite IH; lia]. Qed.

Lemma sum_nonneg (l : list Z) : Forall (λ w, 0 ≤ w) l → 0 ≤ sum l.
Proof. induction 1; simpl; lia. Qed.

Lemma sum_take_S (W : list Z) (i : nat) (w : Z) :
  W !! i = Some w → sum (take (S i) W) = sum (take i W) + w.
Proof.
  intros Hw. rewrite (take_S_r _ _ _ Hw), sum_app. simpl. lia.
Qed.

Lemma sum_take_mono (W : list Z) (i j : nat) :
  Forall (λ w, 0 ≤ w) W → (i ≤ j)%nat → sum (take i W) ≤ sum (take j W).
Proof.
  intros HW Hij.
  replace j with (i + (j - i))%nat by lia.
  rewrite <- take_take_drop, sum_app.
  assert (0 ≤ sum (take (j - i) (drop i W))); [|lia].
  apply sum_nonneg. by apply Forall_take, Forall_drop.
Qed.

(** A value between the ends of a monotone sequence lies in one of its
    steps. *)
Lemma step_of_monotone (f : nat → Z) (n : nat) (k : Z) :
  f 0%nat ≤ k < f n → ∃ i, (i < n)%nat ∧ f i ≤ k < f (S i).
Proof.
  induction n as [|n IH]; intros Hk; [lia|].
  destruct (Z.lt_ge_cases k (f n)) as [Hlt|Hge].
  - destruct IH as (i & Hi & Hstep); [lia|]. exists i. split; [lia | done].
  - exists n. split; [lia | lia].
Qed.

Context (W : list Z) (L : Z).
Hypothesis W_nonneg : Forall (λ w, 0 ≤ w) W.
Hypothesis TOTAL_pos : 0 < sum W.
Hypothesis L_nonneg : 0 ≤ L.

Let n := length W.
(** The cumulative share of the first [i] machines. *)
Let share (i : nat) : Z := sum (take i W) * L / sum W.

Lemma START_of_share (i : nat) :
  (i ≤ n)%nat → START_of W L (Z.of_nat i) = Ok (share i).
Proof using TOTAL_pos.
  intros Hi. unfold START_of, floordiv, share.
  destruct (Z.eqb_spec (sum W) 0); [lia|]. by rewrite slice_to_take.
Qed.

Lemma STOP_of_share (i : nat) :
  (i < n)%nat → STOP_of W L (Z.of_nat i) = Ok (share (S i)).
Proof using TOTAL_pos.
  intros Hi. unfold STOP_of, floordiv, share.
  destruct (Z.eqb_spec (sum W) 0); [lia|].
  replace (Z.of_nat i + 1) with (Z.of_nat (S i)) by lia.
  rewrite slice_to_take; [done | unfold n in Hi; lia].
Qed.

Lemma share_0 : share 0 = 0.
Proof. unfold share. by rewrite take_0. Qed.

Lemma share_n : share n = L.
Proof using TOTAL_pos.
  unfold share, n. rewrite firstn_all, Z.mul_comm. apply Z.div_mul. lia.
Qed.

Lemma share_mono (i j : nat) : (i ≤ j)%nat → share i ≤ share j.
Proof using W_nonneg TOTAL_pos L_nonneg.
  intros Hij. unfold share. apply Z.div_le_mono; [done|].
  apply Z.mul_le_mono_nonneg_r; [done|]. by apply sum_take_mono.
Qed.

Lemma share_zero_weight (i : nat) : W !! i = Some 0 → share (S i) = share i.
Proof. intros Hw. unfold share. rewrite (sum_take_S _ _ _ Hw). f_equal. lia. Qed.

Lemma share_cover (k : Z) :
  0 ≤ k < L → ∃ i, (i < n)%nat ∧ share i ≤ k < share (S i).
Proof using TOTAL_pos.
  intros Hk. apply step_of_monotone. rewrite share_0, share_n. lia.
Qed.

Lemma slice_shares {A} (l : list A) (i : nat) :
  Z.of_nat (length l) = L → (i < n)%nat →
  slice l (share i) (share (S i)) =
  take (Z.to_nat (share (S i)) - Z.to_nat (share i))
       (drop (Z.to_nat (share i)) l).
Proof using W_nonneg TOTAL_pos L_nonneg.
  intros Hl Hi. unfold slice. rewrite Hl.
  pose proof (share_mono 0 i ltac:(lia)) as H0. rewrite share_0 in H0.
  pose proof (share_mono i (S i) ltac:(lia)) as H1.
  pose proof (share_mono (S i) n ltac:(lia)) as H2. rewrite share_n in H2.
  rewrite !clamp_in_range by lia. f_equal. lia.
Qed.

End partition_facts.

(** Cutting a list at non-decreasing points and gluing the pieces gives the
    part between the first and the last cut. *)
Lemma concat_cuts {A} (l : list A) (c : nat → nat) (n : nat) :
  (∀ i, i < n → c i ≤ c (S i)) →
  concat ((λ i, take (c (S i) - c i) (drop (c i) l)) <$> seq 0 n) =
  take (c n - c 0) (drop (c 0) l).
Proof.
  induction n as [|n IH]; intros Hc.
  - by rewrite Nat.sub_diag.
  - rewrite seq_S, fmap_app, concat_app, IH by (intros; apply Hc; lia).
    simpl. rewrite app_nil_r.
    assert (c 0 ≤ c n) as H0.
    { clear IH. induction n as [|m IHm]; [done|].
      etrans; [apply IHm; intros; apply Hc; lia | apply Hc; lia]. }
    pose proof (Hc n ltac:(lia)) as H1.
    replace (c (S n) - c 0) with ((c n - c 0) + (c (S n) - c n)) by lia.
    rewrite <- take_take_drop, drop_drop. do 3 f_equal. lia.
Qed.

(** C1: for non-negative weights [W] with a positive total and an item count
    [L], the ranges [[START, STOP)] of the machines [0 .. len(W)-1] start at
    0, end at [L], each begins where the one before ends, they never run
    backwards, a zero-weight machine gets an empty one, two different
    machines own no common position, the positions owned by some machine are
    exactly those of [[0, L)], and the slices the machines keep of a list of
    [L] items, glued in roster order, are that list. *)
Theorem partition_ranges_tile (W : list Z) (L : Z) :
  Forall (λ w, 0 ≤ w)%Z W → (0 < sum W)%Z → (0 ≤ L)%Z →
  let n := Z.of_nat (length W) in
  START_of W L 0 = Ok 0%Z ∧
  STOP_of W L (n - 1) = Ok L ∧
  (∀ i, (0 ≤ i < n)%Z → ∃ a b,
      START_of W L i = Ok a ∧ STOP_of W L i = Ok b ∧
      (0 ≤ a ∧ a ≤ b ∧ b ≤ L)%Z ∧
      (W !! Z.to_nat i = Some 0%Z → a = b)) ∧
  (∀ i, (0 ≤ i)%Z → (i + 1 < n)%Z → STOP_of W L i = START_of W L (i + 1)) ∧
  (∀ i j b a, (0 ≤ i < j)%Z → (j < n)%Z →
      STOP_of W L i = Ok b → START_of W L j = Ok a → (b ≤ a)%Z) ∧
  (∀ i j k, (0 ≤ i < n)%Z → (0 ≤ j < n)%Z →
      owns W L i k → owns W L j k → i = j) ∧
  (∀ k, (0 ≤ k < L)%Z ↔ ∃ i, (0 ≤ i < n)%Z ∧ owns W L i k) ∧
  (∀ (A : Type) (indexed_set : list A), Z.of_nat (length indexed_set) = L →
      ∃ parts : list (list A),
        Forall2 (λ i part, ∃ a b,
                   select_partition W L (Some (Z.of_nat i)) indexed_set =
                   Ok (part, a, b))
                (seq 0 (length W)) parts ∧
        concat parts = indexed_set).
Proof.
  intros HW HT HL n.
  set (share := λ i : nat, (sum (take i W) * L / sum W)%Z).
  assert (Hstart : ∀ i : nat, i ≤ length W →
            START_of W L (Z.of_nat i) = Ok (share i))
    by (intros; by apply START_of_share).
  assert (Hstop : ∀ i : nat, i < length W →
            STOP_of W L (Z.of_nat i) = Ok (share (S i)))
    by (intros; by apply STOP_of_share).
  assert (Hmono : ∀ i j : nat, i ≤ j → (share i ≤ share j)%Z)
    by (intros; by apply share_mono).
  assert (H0 : share 0 = 0%Z) by apply share_0.
  assert (Hn : share (length W) = L) by by apply share_n.
  assert (Hlen : 0 < length W) by (destruct W; simpl in *; lia).
  assert (Hnat : ∀ i, (0 ≤ i)%Z → i = Z.of_nat (Z.to_nat i)) by (intros; lia).
  assert (Howns : ∀ (i : nat) k, i < length W →
            owns W L (Z.of_nat i) k ↔ (share i ≤ k < share (S i))%Z).
  { intros i k Hi. unfold owns. rewrite Hstart, Hstop by lia. split.
    - intros (a & b & [= <-] & [= <-] & Hk). done.
    - intros Hk. eauto. }
  split_and!; [| | | done | | | |].
  - rewrite <- H0. apply (Hstart 0). lia.
  - replace (n - 1)%Z with (Z.of_nat (length W - 1)) by lia.
    rewrite Hstop by lia. do 2 f_equal.
    replace (S (length W - 1)) with (length W) by lia. done.
  - intros i Hi. rewrite (Hnat i) by lia.
    exists (share (Z.to_nat i)), (share (S (Z.to_nat i))).
    rewrite Hstart, Hstop by lia. split_and!; [done | done | | | |].
    + rewrite <- H0. apply Hmono. lia.
    + apply Hmono. lia.
    + rewrite <- Hn. apply Hmono. lia.
    + rewrite Nat2Z.id. intros Hw. symmetry. by apply share_zero_weight.
  - intros i j b a Hij Hj. rewrite (Hnat i), (Hnat j) by lia.
    rewrite Hstart, Hstop by lia. intros [= <-] [= <-]. apply Hmono. lia.
  - intros i j k Hi Hj. rewrite (Hnat i), (Hnat j) by lia.
    rewrite !Howns by lia. intros Hki Hkj.
    destruct (Z.lt_trichotomy i j) as [Hlt|[Heq|Hgt]]; [|lia|].
    + pose proof (Hmono (S (Z.to_nat i)) (Z.to_nat j) ltac:(lia)). lia.
    + pose proof (Hmono (S (Z.to_nat j)) (Z.to_nat i) ltac:(lia)). lia.
  - intros k. split.
    + intros Hk. destruct (share_cover W L HT k Hk) as (i & Hi & Hstep).
      exists (Z.of_nat i). split; [lia|]. by apply Howns.
    + intros (i & Hi & Ho). rewrite (Hnat i) in Ho by lia.
      apply Howns in Ho; [|lia].
      pose proof (Hmono 0 (Z.to_nat i) ltac:(lia)).
      pose proof (Hmono (S (Z.to_nat i)) (length W) ltac:(lia)). lia.
  - intros A indexed_set Hl.
    set (c := λ i : nat, Z.to_nat (share i)).
    exists ((λ i, take (c (S i) - c i) (drop (c i) indexed_set))
              <$> seq 0 (length W)).
    split.
    + apply Forall2_fmap_r, Forall_Forall2_diag, Forall_forall.
      intros i Hi%elem_of_seq.
      exists (share i), (share (S i)). unfold select_partition.
      rewrite Hstart, Hstop by lia. simpl.
      do 3 f_equal. apply (slice_shares W L HW HT HL); [done | lia].
    + rewrite concat_cuts.
      * unfold c. rewrite H0, Hn, <- Hl. simpl.
        rewrite Nat2Z.id, Nat.sub_0_r. apply firstn_all.
      * intros i Hi. unfold c.
        pose proof (Hmono i (S i) ltac:(lia)). lia.
Qed.

(** A roster of three machines, the middle one with weight zero, over ten
    items. *)
Lemma partition_ranges_tile_witness :
  let W := [2; 0; 6]%Z in
  START_of W 10 0 = Ok 0%Z ∧ STOP_of W 10 2 = Ok 10%Z ∧
  STOP_of W 10 0 = START_of W 10 1.
Proof.
  intros W.
  assert (HW : Forall (λ w, 0 ≤ w)%Z W) by (repeat constructor; lia).
  destruct (partition_ranges_tile W 10 HW ltac:(reflexivity) ltac:(lia))
    as (H0 & Hn & _ & Hc & _).
  split_and!; [exact H0 | exact Hn | apply Hc; simpl; lia].
Defined.

(** C8: with weights [thread_weight * threads], the roster
    [{"A": [1,4], "B": [1,4]}] over 10 items gives A the range [[0,5)] and
    B [[5,10)]; the roster [{"A": [1,2], "B": [3,2]}] (weights 2 and 6) over
    8 items gives A [[0,2)] and B [[2,8)]. *)
Theorem partition_examples :
  let r1 : roster := [("A", (1, 4)); ("B", (1, 4))]%Z in
  let r2 : roster := [("A", (1, 2)); ("B", (3, 2))]%Z in
  weights_of r2 = [2; 6]%Z ∧ sum (weights_of r2) = 8%Z ∧
  START_of (weights_of r1) 10 0 = Ok 0%Z ∧
  STOP_of (weights_of r1) 10 0 = Ok 5%Z ∧
  START_of (weights_of r1) 10 1 = Ok 5%Z ∧
  STOP_of (weights_of r1) 10 1 = Ok 10%Z ∧
  START_of (weights_of r2) 8 0 = Ok 0%Z ∧
  STOP_of (weights_of r2) 8 0 = Ok 2%Z ∧
  START_of (weights_of r2) 8 1 = Ok 2%Z ∧
  STOP_of (weights_of r2) 8 1 = Ok 8%Z ∧
  select_partition (weights_of r1) 10 (Some 0%Z) (seq 0 10) =
    Ok ([0; 1; 2; 3; 4], 0%Z, 5%Z) ∧
  select_partition (weights_of r1) 10 (Some 1%Z) (seq 0 10) =
    Ok ([5; 6; 7; 8; 9], 5%Z, 10%Z) ∧
  select_partition (weights_of r2) 8 (Some 0%Z) (seq 0 8) =
    Ok ([0; 1], 0%Z, 2%Z) ∧
  select_partition (weights_of r2) 8 (Some 1%Z) (seq 0 8) =
    Ok ([2; 3; 4; 5; 6; 7], 2%Z, 8%Z).
Proof. repeat split; reflexivity. Qed.

(** ** The shuffle *)

Section shuffle_facts.
Context `{Library} `{RandomSource}.

Lemma shuffle_from_S {A} (i : nat) (g : rng) (x : list A) :
  shuffle_from (S i) g x =
  x1 ← exchange x (S i) (randbelow g (S i + 1)).1;
  shuffle_from i (randbelow g (S i + 1)).2 x1.
Proof. simpl. by destruct (randbelow g (S (i + 1))). Qed.

Lemma exchange_perm {A} (x x' : list A) (i j : nat) :
  exchange x i j = Ok x' → x' ≡ₚ x.
Proof.
  unfold exchange.
  destruct (x !! j) as [xj|] eqn:Hxj; [|done].
  destruct (x !! i) as [xi|] eqn:Hxi; [|done].
  intros [= <-]. by apply Permutation_insert_swap.
Qed.

Lemma exchange_Ok {A} (x : list A) (i j : nat) :
  i < length x → j < length x →
  ∃ x', exchange x i j = Ok x' ∧ x' ≡ₚ x.
Proof.
  intros Hi Hj.
  destruct (lookup_lt_is_Some_2 x i Hi) as [xi Hxi].
  destruct (lookup_lt_is_Some_2 x j Hj) as [xj Hxj].
  exists (<[j:=xi]> (<[i:=xj]> x)).
  assert (exchange x i j = Ok (<[j:=xi]> (<[i:=xj]> x))) as Hx
    by (unfold exchange; by rewrite Hxi, Hxj).
  split; [done | by eapply exchange_perm].
Qed.

Lemma shuffle_from_perm {A} (i : nat) (g g' : rng) (x x' : list A) :
  shuffle_from i g x = Ok (x', g') → x' ≡ₚ x.
Proof.
  revert g x. induction i as [|i IH]; intros g x.
  - by intros [= <- _].
  - rewrite shuffle_from_S.
    destruct (exchange x (S i) _) as [x1|e] eqn:Ex; [|done]. simpl.
    intros Hrec%IH. rewrite Hrec. by eapply exchange_perm.
Qed.

Lemma exchange_fmap {A B} (f : A → B) (x : list A) (i j : nat) :
  exchange (f <$> x) i j = fmap (M:=list) f <$> exchange x i j.
Proof.
  unfold exchange. rewrite !list_lookup_fmap.
  destruct (x !! j) as [xj|], (x !! i) as [xi|]; simpl; try done.
  by rewrite !list_fmap_insert.
Qed.

Lemma shuffle_from_Ok {A} (i : nat) (g : rng) (x : list A) :
  randbelow_in_range → i < length x ∨ i = 0 →
  ∃ x' g', shuffle_from i g x = Ok (x', g') ∧ x' ≡ₚ x.
Proof.
  intros Hlaw. revert g x.
  induction i as [|i IH]; intros g x Hi.
  - by exists x, g.
  - rewrite shuffle_from_S.
    pose proof (Hlaw g (S i + 1) ltac:(lia)) as Hj.
    destruct (exchange_Ok x (S i) (randbelow g (S i + 1)).1)
      as (x1 & -> & Hperm); [lia | lia |].
    simpl. destruct (IH (randbelow g (S (i + 1))).2 x1) as (x2 & g2 & -> & Hperm2).
    + left. rewrite Hperm. lia.
    + exists x2, g2. split; [done|]. by rewrite Hperm2.
Qed.

Lemma shuffle_Ok {A} (g : rng) (x : list A) :
  randbelow_in_range → ∃ x' g', shuffle g x = Ok (x', g') ∧ x' ≡ₚ x.
Proof.
  intros Hlaw. apply shuffle_from_Ok; [done|].
  destruct x; simpl; lia.
Qed.

Lemma shuffle_from_fmap {A B} (f : A → B) (i : nat) (g : rng) (x : list A) :
  shuffle_from i g (f <$> x) = prod_map (fmap (M:=list) f) id <$> shuffle_from i g x.
Proof.
  revert g x. induction i as [|i IH]; intros g x; [done|].
  rewrite !shuffle_from_S, exchange_fmap.
  destruct (exchange x (S i) _) as [x1|e]; simpl; [apply IH | done].
Qed.

Lemma shuffle_fmap {A B} (f : A → B) (g : rng) (x : list A) :
  shuffle g (f <$> x) = prod_map (fmap (M:=list) f) id <$> shuffle g x.
Proof. unfold shuffle. rewrite length_fmap. apply shuffle_from_fmap. Qed.

(** The order of the shuffled set does not depend on the configuration
    that the jobs carry. *)
Lemma shuffled_indexed_set_keys (c1 c2 : config) (ws : list (list value))
    (o : option bytes) (e : bytes) :
  fmap (M:=list) job_key <$> shuffled_indexed_set c1 ws o e =
  fmap (M:=list) job_key <$> shuffled_indexed_set c2 ws o e.
Proof.
  unfold shuffled_indexed_set.
  set (g := Random (seed_of o e)).
  assert (Hkeys : job_key <$> index_working_set ws g c1 =
                  job_key <$> index_working_set ws g c2).
  { unfold index_working_set. by rewrite !fmap_imap. }
  pose proof (shuffle_fmap job_key g (index_working_set ws g c1)) as H1.
  pose proof (shuffle_fmap job_key g (index_working_set ws g c2)) as H2.
  rewrite Hkeys in H1. rewrite H2 in H1.
  destruct (shuffle g (index_working_set ws g c1)) as [[x1 g1]|e1],
           (shuffle g (index_working_set ws g c2)) as [[x2 g2]|e2];
    simpl in *; congruence.
Qed.

Lemma shuffled_indexed_set_perm (c : config) (ws : list (list value))
    (o : option bytes) (e : bytes) (indexed_set : list indexed_job) :
  shuffled_indexed_set c ws o e = Ok indexed_set →
  indexed_set ≡ₚ index_working_set ws (Random (seed_of o e)) c.
Proof.
  unfold shuffled_indexed_set, shuffle.
  destruct (shuffle_from _ _ _) as [[x' g']|err] eqn:Es; [|done].
  intros [= <-]. by eapply shuffle_from_perm.
Qed.

Lemma shuffled_indexed_set_Ok (c : config) (ws : list (list value))
    (o : option bytes) (e : bytes) :
  randbelow_in_range →
  ∃ indexed_set, shuffled_indexed_set c ws o e = Ok indexed_set.
Proof.
  intros Hlaw. unfold shuffled_indexed_set.
  destruct (shuffle_Ok (Random (seed_of o e))
              (index_working_set ws (Random (seed_of o e)) c) Hlaw)
    as (x' & g' & -> & Hperm).
  by exists x'.
Qed.

Lemma index_working_set_rng (ws : list (list value)) (g : rng) (c : config)
    (j : indexed_job) :
  j ∈ index_working_set ws g c → j.2.1.2 = g.
Proof.
  unfold index_working_set. rewrite elem_of_lookup_imap.
  by intros (i & items & -> & _).
Qed.

Lemma slice_subseteq {A} (l : list A) (a b : Z) : slice l a b ⊆ l.
Proof.
  unfold slice. etrans; [apply subseteq_take | apply subseteq_drop].
Qed.

Lemma select_partition_subseteq {A} (weights : list Z) (lw : Z)
    (ID : option Z) (l part : list A) (START STOP : Z) :
  select_partition weights lw ID l = Ok (part, START, STOP) → part ⊆ l.
Proof.
  unfold select_partition. destruct ID as [ID|].
  - destruct (START_of weights lw ID) as [a|]; [|done].
    destruct (STOP_of weights lw ID) as [b|]; [|done].
    simpl. intros [= <- _ _]. apply slice_subseteq.
  - by intros [= <- _ _].
Qed.

Lemma arrange_subseteq (weights : list Z) (ID : option Z) (c : config)
    (ws : list (list value)) (o : option bytes) (e : bytes)
    (part : list indexed_job) (START STOP : Z) :
  arrange weights ID c ws o e = Ok (part, START, STOP) →
  part ⊆ index_working_set ws (Random (seed_of o e)) c.
Proof.
  unfold arrange.
  destruct (shuffled_indexed_set c ws o e) as [x|err] eqn:Es; [|done].
  simpl. intros Hp%select_partition_subseteq.
  apply shuffled_indexed_set_perm in Es. intros j Hj. rewrite <- Es. auto.
Qed.

(** With a total weight of zero a machine that has an index gets no
    partition: the division of line 216 raises. *)
Lemma arrange_zero_total (weights : list Z) (ID : Z) (c : config)
    (ws : list (list value)) (o : option bytes) (e : bytes) :
  sum weights = 0%Z →
  (∃ err, arrange weights (Some ID) c ws o e = Raise err) ∧
  (randbelow_in_range →
   arrange weights (Some ID) c ws o e = Raise ZeroDivisionError).
Proof.
  intros Hzero. unfold arrange, select_partition, START_of, floordiv.
  rewrite Hzero. simpl. split.
  - destruct (shuffled_indexed_set c ws o e); simpl; eauto.
  - intros Hlaw.
    by destruct (shuffled_indexed_set_Ok c ws o e Hlaw) as (x & ->).
Qed.

End shuffle_facts.

(** ** Running code in [SE] *)

Lemma bind_Ok_inv {S A B} (m : SE S A) (k : A → SE S B) (s s'' : S) (b : B) :
  (m ≫= k) s = (s'', Ok b) →
  ∃ s' a, m s = (s', Ok a) ∧ k a s' = (s'', Ok b).
Proof.
  unfold mbind, SE_bind. destruct (m s) as [s' [a|e]]; [eauto | done].
Qed.

Lemma bind_Ok {S A B} (m : SE S A) (k : A → SE S B) (s s' : S) (a : A) :
  m s = (s', Ok a) → (m ≫= k) s = k a s'.
Proof. unfold mbind, SE_bind. by intros ->. Qed.

Lemma bind_Raise {S A B} (m : SE S A) (k : A → SE S B) (s s' : S) (e : exn) :
  m s = (s', Raise e) → (m ≫= k) s = (s', Raise e).
Proof. unfold mbind, SE_bind. by intros ->. Qed.

Lemma bind_related {S A B} (R : relation S) `{!Transitive R}
    (m : SE S A) (k : A → SE S B) :
  (∀ s s' r, m s = (s', r) → R s s') →
  (∀ a s s' r, k a s = (s', r) → R s s') →
  ∀ s s' r, (m ≫= k) s = (s', r) → R s s'.
Proof.
  intros Hm Hk s s' r. unfold mbind, SE_bind.
  destruct (m s) as [s1 [a|e]] eqn:Em.
  - intros Hka. etrans; [by eapply Hm | by eapply Hk].
  - intros [= <- <-]. by eapply Hm.
Qed.

Lemma pair_of_outcome {S A} (x : S * outcome A) (a : A) :
  x.2 = Ok a → x = (x.1, Ok a).
Proof. destruct x as [s r]. simpl. by intros ->. Qed.

Lemma is_Ok_inv {A} (x : outcome A) : is_Ok x = true → ∃ a, x = Ok a.
Proof. destruct x; [eauto | done]. Qed.

Lemma lift_inv {S A} (x : outcome A) (s s' : S) (r : outcome A) :
  lift x s = (s', r) → s' = s ∧ r = x.
Proof. by intros [= <- <-]. Qed.

(** ** The world during a run *)

Section world_facts.
Context `{Library} `{RandomSource} `{ProgressPool}.

#[local] Instance continues_preorder : PreOrder continues.
Proof.
  split.
  - by intros w.
  - intros w1 w2 w3 (?&?&?&?&?&?) (?&?&?&?&?&?).
    split_and!; try congruence; by etrans.
Qed.

Lemma continues_log (w : world) (l : list record) :
  continues w (set_log (log w ++ l) w).
Proof. split_and!; try done. by apply prefix_app_r. Qed.

Lemma logger_continues (r : record) (w w' : world) (x : outcome unit) :
  logger r w = (w', x) → continues w w'.
Proof. intros [= <- _]. apply continues_log. Qed.

Lemma logger_inv (r : record) (w w' : world) (x : outcome unit) :
  logger r w = (w', x) → w' = set_log (log w ++ [r]) w ∧ x = Ok ().
Proof. by intros [= <- <-]. Qed.

Lemma read_inv (path : string) (w w' : world) (r : outcome string) :
  read path w = (w', r) →
  w' = w ∧ r = match files w !! path with
               | Some c => Ok c
               | None => Raise (FileNotFoundError path)
               end.
Proof. unfold read. by destruct (files w !! path); intros [= <- <-]. Qed.

Lemma read_text_inv (path : string) (w w' : world) (r : outcome string) :
  read_text path w = (w', r) → w' = w.
Proof.
  unfold read_text, read, lift, mbind, SE_bind.
  destruct (files w !! path); by intros [= <- _].
Qed.

Lemma read_if_present_inv (path : string) (w w' : world)
    (r : outcome (option string)) :
  read_if_present path w = (w', r) → w' = w.
Proof.
  unfold read_if_present. destruct (files w !! path); by intros [= <- _].
Qed.

Lemma update_with_files_inv (names : list string) (h : bytes) (w w' : world)
    (r : outcome bytes) :
  update_with_files names h w = (w', r) → w' = w.
Proof.
  revert h. induction names as [|name names IH]; intros h; simpl.
  - by intros [= <- _].
  - unfold mbind, SE_bind. destruct (read name w) as [w1 [c|e]] eqn:Er.
    + apply read_inv in Er as [-> _]. apply IH.
    + apply read_inv in Er as [-> _]. by intros [= <- _].
Qed.

Lemma update_with_files_agree (names : list string) (h : bytes)
    (w1 w2 : world) :
  (∀ name, name ∈ names → files w1 !! name = files w2 !! name) →
  (update_with_files names h w1).2 = (update_with_files names h w2).2.
Proof.
  revert h. induction names as [|name names IH]; intros h Hsame; [done|].
  simpl. unfold mbind, SE_bind, read.
  rewrite <- (Hsame name) by set_solver.
  destruct (files w1 !! name) as [c|]; [|done].
  apply IH. intros n Hn. apply Hsame. set_solver.
Qed.

Lemma get_entropy_inv (extras : list (list (list value))) (w w' : world)
    (r : outcome bytes) :
  get_entropy extras w = (w', r) → w' = w.
Proof.
  unfold get_entropy, mbind, SE_bind.
  destruct (update_with_files CONFIGS EmptyString w) as [w1 [h|e]] eqn:Eu;
    apply update_with_files_inv in Eu as ->; by intros [= <- _].
Qed.

Lemma get_entropy_agree (extras : list (list (list value))) (w1 w2 : world) :
  (∀ name, name ∈ CONFIGS → files w1 !! name = files w2 !! name) →
  dumps (heap w1) extras = dumps (heap w2) extras →
  (get_entropy extras w1).2 = (get_entropy extras w2).2.
Proof.
  intros Hsame Hpickle. unfold get_entropy, pickle, mbind, SE_bind.
  pose proof (update_with_files_agree CONFIGS EmptyString w1 w2 Hsame) as Hu.
  destruct (update_with_files CONFIGS EmptyString w1) as [w1' [h1|e1]] eqn:E1,
           (update_with_files CONFIGS EmptyString w2) as [w2' [h2|e2]] eqn:E2;
    apply update_with_files_inv in E1 as ->;
    apply update_with_files_inv in E2 as ->;
    simpl in *; congruence.
Qed.

(** The digest is that of the four files in the order of [CONFIGS] and of
    the pickled extras. *)
Lemma get_entropy_formula (extras : list (list (list value))) (w : world)
    (a b c d : bytes) :
  files w !! MACHINES_CONFIG = Some a → files w !! CSV_HEADER = Some b →
  files w !! RUNNER_CONFIG = Some c → files w !! LOG_TEMPLATE = Some d →
  get_entropy extras w =
  (w, Ok (sha3_512 ((((a +:+ b) +:+ c) +:+ d) +:+ dumps (heap w) extras))).
Proof.
  intros Ha Hb Hc Hd.
  unfold get_entropy, CONFIGS, update_with_files, pickle, mbind, SE_bind,
    read.
  by rewrite Ha, Hb, Hc, Hd.
Qed.

Lemma get_entropy_reads (extras : list (list (list value))) (w w' : world)
    (entropy : bytes) :
  get_entropy extras w = (w', Ok entropy) →
  ∃ a b c d,
    files w !! MACHINES_CONFIG = Some a ∧ files w !! CSV_HEADER = Some b ∧
    files w !! RUNNER_CONFIG = Some c ∧ files w !! LOG_TEMPLATE = Some d.
Proof.
  unfold get_entropy, CONFIGS, update_with_files, pickle, mbind, SE_bind,
    read.
  destruct (files w !! MACHINES_CONFIG) as [a|]; [|done].
  destruct (files w !! CSV_HEADER) as [b|]; [|done].
  destruct (files w !! RUNNER_CONFIG) as [c|]; [|done].
  destruct (files w !! LOG_TEMPLATE) as [d|]; [|done].
  intros _. by exists a, b, c, d.
Qed.

Lemma confirm_loop_inv (q : prompt) (responses : list string) (w w' : world)
    (r : outcome unit) :
  confirm_loop q responses w = (w', r) →
  files w' = files w ∧ submitted w' = submitted w ∧ clock w' = clock w ∧
  now w' = now w ∧ log w' = log w ∧ stdout w `prefix_of` stdout w' ∧
  q ∈ stdout w'.
Proof.
  revert w. induction responses as [|resp responses IH]; intros w; simpl.
  - intros [= <- _]. simpl. split_and!; try done.
    + by apply prefix_app_r.
    + apply elem_of_app; right; by left.
  - destruct (startswith (lower resp) "n"); [|destruct (startswith _ "y")].
    + intros [= <- _]. simpl. split_and!; try done.
      * by apply prefix_app_r.
      * apply elem_of_app; right; by left.
    + intros [= <- _]. simpl. split_and!; try done.
      * by apply prefix_app_r.
      * apply elem_of_app; right; by left.
    + intros Hrec. apply IH in Hrec as (?&?&?&?&?&Hpre&?). simpl in *.
      split_and!; try done. etrans; [|exact Hpre]. by apply prefix_app_r.
Qed.

Lemma confirm_continues (q : prompt) (w w' : world) (r : outcome unit) :
  confirm q w = (w', r) → continues w w'.
Proof.
  intros Hc. apply confirm_loop_inv in Hc as (?&?&?&?&Hlog&?&?).
  split_and!; try done. by rewrite Hlog.
Qed.

Lemma lift_continues {A} (x : outcome A) (w w' : world) (r : outcome A) :
  lift x w = (w', r) → continues w w'.
Proof. by intros [-> _]%lift_inv. Qed.

Lemma ret_continues {A} (a : A) (w w' : world) (r : outcome A) :
  mret (M:=SE world) a w = (w', r) → continues w w'.
Proof. by intros [= <- _]. Qed.

Lemma get_entropy_continues (extras : list (list (list value)))
    (w w' : world) (r : outcome bytes) :
  get_entropy extras w = (w', r) → continues w w'.
Proof. by intros ->%get_entropy_inv. Qed.

(** Whatever its outcome, [prepare] writes no file and submits nothing. *)
Lemma prepare_continues (machines : roster) (c : config) (ID : option Z)
    (ws : list (list value)) (o : option bytes) (w w' : world)
    (r : outcome plan) :
  prepare machines c ID ws o w = (w', r) → continues w w'.
Proof.
  revert w w' r. unfold prepare.
  apply bind_related; [apply _ | apply get_entropy_continues | intros entropy].
  apply bind_related; [apply _ | apply logger_continues | intros _].
  apply bind_related; [apply _ | | intros _].
  { destruct (seed_is_override o);
      [apply logger_continues | apply ret_continues]. }
  apply bind_related; [apply _ | apply lift_continues | intros [[set a] b]].
  apply bind_related; [apply _ | apply lift_continues | intros who].
  apply bind_related; [apply _ | apply confirm_continues | intros _].
  apply bind_related; [apply _ | apply lift_continues | intros cores].
  apply bind_related; [apply _ | apply logger_continues | intros _].
  apply bind_related; [apply _ | apply logger_continues | intros _].
  apply ret_continues.
Qed.

(** What a completed preparation has done. *)
Lemma prepare_Ok_inv (machines : roster) (c : config) (ID : option Z)
    (ws : list (list value)) (o : option bytes) (w w' : world) (p : plan) :
  prepare machines c ID ws o w = (w', Ok p) →
  get_entropy [ws] w = (w, Ok (plan_entropy p)) ∧
  arrange (weights_of machines) ID c ws o (plan_entropy p) =
    Ok (plan_indexed_set p, plan_START p, plan_STOP p) ∧
  plan_config p = c ∧ plan_ID p = ID ∧
  plan_lw p = Z.of_nat (length ws) ∧
  EntropyIs (plan_entropy p) ∈ log w' ∧
  (seed_is_override o = true →
   UsingOverrideSeed (seed_of o (plan_entropy p)) ∈ log w') ∧
  (∃ who, PleaseVerify who (plan_entropy p)
            (Z.of_nat (length (plan_indexed_set p))) (plan_START p)
            (plan_STOP p - 1) (Z.of_nat (length ws)) ∈ stdout w').
Proof.
  intros Hp. pose proof (prepare_continues _ _ _ _ _ _ _ _ Hp) as Hcont.
  unfold prepare in Hp.
  apply bind_Ok_inv in Hp as (w1 & entropy & He & Hp).
  pose proof (get_entropy_inv _ _ _ _ He) as ->.
  apply bind_Ok_inv in Hp as (w2 & [] & Hl1 & Hp).
  apply logger_inv in Hl1 as [-> _].
  apply bind_Ok_inv in Hp as (w3 & [] & Hl2 & Hp).
  assert (Hw3 : continues (set_log (log w ++ [EntropyIs entropy]) w) w3 ∧
                (seed_is_override o = true →
                 UsingOverrideSeed (seed_of o entropy) ∈ log w3)).
  { destruct (seed_is_override o).
    - apply logger_inv in Hl2 as [-> _]. split; [apply continues_log|].
      intros _. simpl. apply elem_of_app; right; by left.
    - injection Hl2 as <-. done. }
  destruct Hw3 as [Hc3 Hov]. clear Hl2.
  apply bind_Ok_inv in Hp as (w4 & [[set a] b] & Ha & Hp).
  apply lift_inv in Ha as [-> Ha].
  apply bind_Ok_inv in Hp as (w5 & who & Hwho & Hp).
  apply lift_inv in Hwho as [-> Hwho].
  apply bind_Ok_inv in Hp as (w6 & [] & Hconf & Hp).
  apply confirm_loop_inv in Hconf as (_ & _ & _ & _ & Hlog6 & _ & Hasked).
  apply bind_Ok_inv in Hp as (w7 & cores & Hcores & Hp).
  apply lift_inv in Hcores as [-> _].
  apply bind_Ok_inv in Hp as (w8 & [] & Hl3 & Hp).
  apply logger_inv in Hl3 as [-> _].
  apply bind_Ok_inv in Hp as (w9 & [] & Hl4 & Hp).
  apply logger_inv in Hl4 as [-> _].
  injection Hp as <- <-. simpl.
  assert (Hent : EntropyIs entropy ∈ log w3).
  { destruct Hc3 as (_ & _ & _ & _ & [l Hl] & _). rewrite Hl. simpl.
    apply elem_of_app; left. apply elem_of_app; right; by left. }
  split_and!; try done.
  - rewrite Hlog6. do 2 (apply elem_of_app; left). done.
  - intros Ho. rewrite Hlog6. do 2 (apply elem_of_app; left). auto.
  - by exists who.
Qed.

End world_facts.

(** ** The loop over the completions *)

Lemma append_assoc (a b c : string) : (a +:+ b) +:+ c = a +:+ (b +:+ c).
Proof.
  induction a as [|x a IH]; [done|].
  change (String x ((a +:+ b) +:+ c) = String x (a +:+ (b +:+ c))).
  by rewrite IH.
Qed.

Lemma append_nil_r (a : string) : a +:+ EmptyString = a.
Proof.
  induction a as [|x a IH]; [done|].
  change (String x (a +:+ EmptyString) = String x a). by rewrite IH.
Qed.

Section loop_facts.
Context `{Library} `{RandomSource} `{ProgressPool} {T : Type}.
Context (job : job_args → outcome (option (list value))).
Context (setup_function : config → outcome unit).
Context (parse_function : config → list (cell value time) → outcome unit).
Context (reduce_function : T → option (list value) → outcome T).

(** One turn of the loop, where the reduction returns or raises an
    [Exception]: the world after it and what it hands to the next turn. *)
Lemma handle_completion_run (c : config) (lw : Z) (start_time : time)
    (idx : Z) (current : T) (last_time : time) (job_id : Z)
    (result : option (list value)) (w : world) :
  (∀ e, reduce_function current result = Raise e → is_Exception e = true) →
  let new_time := clock w (now w) in
  let r := meta_of c start_time last_time new_time job_id
           ++ (Obj <$> default [] result) in
  let entries :=
    match reduce_function current result with
    | Raise e => ReduceMessedUp e ::
                 match distb e with
                 | Some text => [Disassembly text]
                 | None => []
                 end
    | Ok _ => []
    end in
  let w1 :=
    {| files := <[results_path c :=
                    default EmptyString (files w !! results_path c) +:+
                    (if compress c then gzip_member (writerow r)
                     else writerow r)]> (files w);
       stdin := stdin w; stdout := stdout w;
       log := log w ++ AnswerReceived idx lw :: entries;
       clock := clock w; now := S (now w); submitted := submitted w;
       heap := heap w |} in
  handle_completion parse_function reduce_function c lw start_time idx
                    current last_time (job_id, result) w =
  (w1, match parse_function c r with
       | Ok _ => Ok (match reduce_function current result with
                     | Ok current' => current'
                     | Raise _ => current
                     end, new_time)
       | Raise e => Raise e
       end).
Proof.
  intros Hexc. simpl.
  unfold handle_completion, guarded_reduce, open_method_write, append,
    time_now, logger, lift, mbind, SE_bind, mret, SE_ret, set_log, set_now,
    set_files.
  simpl.
  destruct (reduce_function current result) as [current'|e] eqn:Er; simpl.
  - destruct (parse_function c _) as [[]|e']; simpl;
      by rewrite <- ?app_assoc.
  - rewrite (Hexc e eq_refl). simpl.
    destruct (distb e) as [text|]; simpl;
      destruct (parse_function c _) as [[]|e']; simpl;
      by rewrite <- ?app_assoc.
Qed.

Lemma reduce_failures_app (l k : list record) :
  reduce_failures (l ++ k) = reduce_failures l + reduce_failures k.
Proof. unfold reduce_failures. by rewrite filter_app, length_app. Qed.

(** The whole loop, where no job and no hook raises and the reduction
    raises [Exception]s only: it ends, it has added one row for each job in
    the order of arrival, and nothing else has changed on the disk. *)
Lemma consume_run (c : config) (lw : Z) (start_time : time)
    (pending : list indexed_job) :
  (∀ j, j ∈ pending → ∃ result, job j.2 = Ok result) →
  (∀ c r, parse_function c r = Ok ()) →
  (∀ cur res e, reduce_function cur res = Raise e → is_Exception e = true) →
  ∀ idx current last_time w,
  ∃ w' current' rows,
    consume job parse_function reduce_function c lw start_time pending idx
            current last_time w = (w', Ok current') ∧
    Forall2 (row_of_job job c start_time) pending rows ∧
    default EmptyString (files w' !! results_path c) =
      default EmptyString (files w !! results_path c) +:+ lines_of c rows ∧
    (∀ q, q ≠ results_path c → files w' !! q = files w !! q) ∧
    submitted w' = submitted w ∧
    now w' = now w + length pending ∧
    ((∀ cur res, ∃ e, reduce_function cur res = Raise e) →
     current' = current ∧
     reduce_failures (log w') = reduce_failures (log w) + length pending).
Proof.
  intros Hjob Hparse Hexc.
  induction pending as [|[index given_args] pending IH];
    intros idx current last_time w.
  - exists w, current, []. simpl.
    split_and!; [done | constructor | by rewrite append_nil_r | done | done
                | lia | intros _; split; [done | lia]].
  - destruct (Hjob (index, given_args)) as [result Hres]; [by left|].
    simpl in Hres.
    assert (Hrest : ∀ j, j ∈ pending → ∃ result, job j.2 = Ok result)
      by (intros j Hj; apply Hjob; by right).
    specialize (IH Hrest).
    cbn [consume]. unfold _indexed_job. rewrite Hres.
    erewrite bind_Ok by reflexivity.
    pose proof (handle_completion_run c lw start_time idx current last_time
                  index result w (Hexc current result)) as Hstep.
    cbv zeta in Hstep. rewrite Hparse in Hstep.
    rewrite (bind_Ok _ _ _ _ _ Hstep). clear Hstep.
    set (new_time := clock w (now w)).
    set (r := meta_of c start_time last_time new_time index
              ++ (Obj <$> default [] result)).
    match goal with
    | |- context [consume _ _ _ _ _ _ _ _ ?cur _ ?w1] =>
        destruct (IH (idx + 1)%Z cur new_time w1)
          as (w' & current' & rows & Hrun & Hrows & Hfile & Hother & Hsub
              & Hnow & Hfail)
    end.
    exists w', current', (r :: rows). simpl in *.
    split_and!.
    + exact Hrun.
    + constructor; [|done]. by exists result, last_time, new_time.
    + rewrite Hfile, lookup_insert_eq. simpl. apply append_assoc.
    + intros q Hq. rewrite Hother by done. by rewrite lookup_insert_ne.
    + done.
    + lia.
    + intros Hall. destruct (Hfail Hall) as [-> Hcount].
      destruct (Hall current result) as [e He]. rewrite He in *.
      split; [done|]. rewrite Hcount, !reduce_failures_app.
      unfold reduce_failures at 2. simpl.
      destruct (distb e); simpl; lia.
Qed.

(** Lines 238-294 where no job and no hook raises, the header file decodes
    and the reduction raises [Exception]s only.  [disk] is the directory
    after line 244. *)
Lemma execute_run (reduce_start : T) (p : plan) (w : world)
    (content header : string) :
  arrival_is_permutation →
  setup_function (plan_config p) = Ok () →
  files w !! CSV_HEADER = Some content →
  decode content = Ok header →
  (∀ j, j ∈ plan_indexed_set p → ∃ result, job j.2 = Ok result) →
  (∀ c r, parse_function c r = Ok ()) →
  (∀ cur res e, reduce_function cur res = Raise e → is_Exception e = true) →
  let c := plan_config p in
  let disk := <[RESULTS_CSV:=header +:+ newline]> (files w) in
  ∃ w' current' rows,
    execute job setup_function parse_function reduce_function reduce_start p w
      = (w', Ok current') ∧
    Forall2 (row_of_job job c (clock w (now w)))
            (arrival _ (plan_indexed_set p)) rows ∧
    length rows = length (plan_indexed_set p) ∧
    default EmptyString (files w' !! results_path c) =
      default EmptyString (disk !! results_path c) +:+ lines_of c rows ∧
    (∀ q, q ≠ results_path c → files w' !! q = disk !! q) ∧
    submitted w' = submitted w ++ [plan_indexed_set p] ∧
    ((∀ cur res, ∃ e, reduce_function cur res = Raise e) →
     current' = reduce_start ∧
     reduce_failures (log w') =
       reduce_failures (log w) + length (plan_indexed_set p)).
Proof.
  intros Hperm Hsetup Hheader Hdecode Hjob Hparse Hexc c disk.
  set (w1 := {| files := disk; stdin := stdin w; stdout := stdout w;
                log := log w; clock := clock w; now := S (now w);
                submitted := submitted w ++ [plan_indexed_set p];
       heap := heap w |}).
  assert (Hpending : ∀ j, j ∈ arrival _ (plan_indexed_set p) →
                          ∃ result, job j.2 = Ok result).
  { intros j Hj. apply Hjob. by rewrite <- (Hperm _ (plan_indexed_set p)). }
  destruct (consume_run c (plan_lw p) (clock w (now w))
              (arrival _ (plan_indexed_set p)) Hpending Hparse Hexc
              1%Z reduce_start (clock w (now w)) w1)
    as (w' & current' & rows & Hrun & Hrows & Hfile & Hother & Hsub & Hnow
        & Hfail).
  exists w', current', rows. split_and!; try done.
  - rewrite <- Hrun. unfold execute. rewrite Hsetup.
    unfold lift, time_now, write, read_text, read, istarmap_unordered, mbind,
      SE_bind, set_files, set_now, set_submitted.
    simpl. rewrite lookup_insert_ne by done. rewrite Hheader.
    simpl. rewrite Hdecode. simpl. by rewrite insert_insert_eq.
  - rewrite <- (Forall2_length _ _ _ Hrows). by rewrite (Hperm _ _).
  - intros Hall. destruct (Hfail Hall) as [-> Hcount]. split; [done|].
    rewrite Hcount. simpl. by rewrite (Hperm _ (plan_indexed_set p)).
Qed.

End loop_facts.

(** ** The seed and the random sources *)

(** C10: the copy of the random source that each indexed job carries is
    taken at line 212, before the shuffle of line 213 draws from the
    generator: the shuffle succeeds, it keeps every indexed job, and in the
    shuffled set, in every machine's slice of it and in every completed
    plan, each job carries the generator as [Random(seed)] left it, the same
    state for all of them. *)
Theorem indexed_jobs_share_seeded_state `{Library} `{RandomSource}
    (c : config) (ws : list (list value)) (o : option bytes) :
  randbelow_in_range →
  (∀ entropy, ∃ indexed_set,
      shuffled_indexed_set c ws o entropy = Ok indexed_set ∧
      indexed_set ≡ₚ index_working_set ws (Random (seed_of o entropy)) c ∧
      length indexed_set = length ws ∧
      Forall (λ j, j.2.1.2 = Random (seed_of o entropy)) indexed_set) ∧
  (∀ entropy weights ID part START STOP,
      arrange weights ID c ws o entropy = Ok (part, START, STOP) →
      Forall (λ j, j.2.1.2 = Random (seed_of o entropy)) part) ∧
  (∀ machines ID w w' p,
      prepare machines c ID ws o w = (w', Ok p) →
      Forall (λ j, j.2.1.2 = Random (seed_of o (plan_entropy p)))
             (plan_indexed_set p)).
Proof.
  intros Hlaw.
  assert (Harr : ∀ entropy weights ID part START STOP,
            arrange weights ID c ws o entropy = Ok (part, START, STOP) →
            Forall (λ j, j.2.1.2 = Random (seed_of o entropy)) part).
  { intros entropy weights ID part START STOP Hp%arrange_subseteq.
    apply Forall_forall. intros j Hj%Hp.
    by eapply index_working_set_rng. }
  split_and!.
  - intros entropy.
    destruct (shuffled_indexed_set_Ok c ws o entropy Hlaw) as [s Hs].
    pose proof (shuffled_indexed_set_perm _ _ _ _ _ Hs) as Hperm.
    exists s. split_and!; [done | done | |].
    + rewrite Hperm. unfold index_working_set. apply length_imap.
    + apply Forall_forall. intros j Hj. rewrite Hperm in Hj.
      by eapply index_working_set_rng.
  - exact Harr.
  - intros machines ID w w' p Hp.
    apply prepare_Ok_inv in Hp as (_ & Ha & _). by eapply Harr.
Qed.

(** The demonstration libraries keep the laws that the theorems ask for. *)
Lemma demo_randbelow_in_range : @randbelow_in_range Demo.demo_random.
Proof.
  intros g n Hn. simpl.
  pose proof (Z.mod_pos_bound g (Z.of_nat n) ltac:(lia)). lia.
Qed.

Lemma demo_arrival_is_permutation : @arrival_is_permutation Demo.demo_pool.
Proof. intros A l. simpl. apply reverse_Permutation. Qed.

Lemma demo_digest_is_512_bits : @digest_is_512_bits Demo.demo_library.
Proof. intros m. reflexivity. Qed.

(** Four jobs shuffled under the seed [b"seed"]: every job carries the
    state that the demonstration generator has after seeding. *)
Lemma indexed_jobs_share_seeded_state_witness :
  ∃ s, @shuffled_indexed_set Demo.demo_library Demo.demo_random
         Demo.every_column Demo.four_jobs (Some "seed") "entropy" = Ok s ∧
       Forall (λ j, j.2.1.2 = Demo.checksum "seed") s.
Proof.
  destruct (@indexed_jobs_share_seeded_state Demo.demo_library
              Demo.demo_random Demo.every_column Demo.four_jobs (Some "seed")
              demo_randbelow_in_range) as [Hs _].
  destruct (Hs "entropy") as (s & Hs1 & _ & _ & Hs2).
  exists s. split; [exact Hs1 | exact Hs2].
Defined.

Lemma seed_of_override (seed entropy : bytes) :
  seed ≠ EmptyString →
  seed_of (Some seed) entropy = seed ∧ seed_is_override (Some seed) = true.
Proof. by destruct seed. Qed.

(** C3, amended: for every override seed that is not empty, the generator
    is seeded with the override and not with the derived digest, so two runs
    over the same working set shuffle it into the same order of indexed jobs
    whatever their digests and configurations are; the digest is still
    computed from the files, logged and shown to the operator next to the
    line that says the override is in use. *)
Theorem override_seed_drives_shuffle `{Library} `{RandomSource}
    (ws : list (list value)) (seed : bytes) :
  seed ≠ EmptyString →
  randbelow_in_range →
  (∀ c1 c2 entropy1 entropy2, ∃ s1 s2,
      shuffled_indexed_set c1 ws (Some seed) entropy1 = Ok s1 ∧
      shuffled_indexed_set c2 ws (Some seed) entropy2 = Ok s2 ∧
      job_key <$> s1 = job_key <$> s2 ∧
      Forall (λ j, j.2.1.2 = Random seed) s1) ∧
  (∀ machines c ID w w' p,
      prepare machines c ID ws (Some seed) w = (w', Ok p) →
      get_entropy [ws] w = (w, Ok (plan_entropy p)) ∧
      EntropyIs (plan_entropy p) ∈ log w' ∧
      UsingOverrideSeed seed ∈ log w' ∧
      (∃ who count START STOP_minus_1 lw,
          PleaseVerify who (plan_entropy p) count START STOP_minus_1 lw
            ∈ stdout w') ∧
      ∀ entropy,
        arrange (weights_of machines) ID c ws (Some seed) entropy =
        Ok (plan_indexed_set p, plan_START p, plan_STOP p)).
Proof.
  intros Hseed Hlaw.
  destruct (seed_of_override seed EmptyString Hseed) as [_ Hov].
  assert (Hany : ∀ c e1 e2, shuffled_indexed_set c ws (Some seed) e1 =
                            shuffled_indexed_set c ws (Some seed) e2).
  { intros c e1 e2. unfold shuffled_indexed_set.
    by rewrite !(proj1 (seed_of_override seed _ Hseed)). }
  split.
  - intros c1 c2 e1 e2.
    destruct (shuffled_indexed_set_Ok c1 ws (Some seed) e1 Hlaw) as [s1 Hs1].
    destruct (shuffled_indexed_set_Ok c2 ws (Some seed) e2 Hlaw) as [s2 Hs2].
    exists s1, s2. split_and!; [done | done | |].
    + pose proof (shuffled_indexed_set_keys c1 c2 ws (Some seed) e1) as Hk.
      rewrite (Hany c2 e1 e2), Hs1, Hs2 in Hk. by injection Hk.
    + apply shuffled_indexed_set_perm in Hs1.
      rewrite (proj1 (seed_of_override seed _ Hseed)) in Hs1.
      apply Forall_forall. intros j Hj. rewrite Hs1 in Hj.
      by eapply index_working_set_rng.
  - intros machines c ID w w' p Hp.
    apply prepare_Ok_inv in Hp
      as (He & Ha & _ & _ & _ & Hlog & Hover & who & Hask).
    rewrite (proj1 (seed_of_override seed _ Hseed)) in Hover.
    split_and!; [done | done | by apply Hover | by eauto 6 |].
    intros entropy. rewrite <- Ha. unfold arrange.
    by rewrite (Hany c entropy (plan_entropy p)).
Qed.

(** Two directories that differ in their header file, the same four jobs
    and the override seed [b"seed"]: the same order. *)
Lemma override_seed_drives_shuffle_witness :
  ∃ s1 s2,
    @shuffled_indexed_set Demo.demo_library Demo.demo_random
      Demo.every_column Demo.four_jobs (Some "seed") "entropy-one" = Ok s1 ∧
    @shuffled_indexed_set Demo.demo_library Demo.demo_random
      Demo.every_column Demo.four_jobs (Some "seed") "entropy-two" = Ok s2 ∧
    job_key <$> s1 = job_key <$> s2.
Proof.
  destruct (@override_seed_drives_shuffle Demo.demo_library Demo.demo_random
              Demo.four_jobs "seed" ltac:(discriminate)
              demo_randbelow_in_range) as [Hs _].
  destruct (Hs Demo.every_column Demo.every_column "entropy-one"
               "entropy-two") as (s1 & s2 & H1 & H2 & Hk & _).
  exists s1, s2. split_and!; [exact H1 | exact H2 | exact Hk].
Defined.

(** C3 as stated fails for the empty override seed [b""]: line 208 takes the
    digest instead, line 210 does not log an override, and two runs over
    directories that differ in their header file submit the four jobs in
    different orders. *)
Lemma empty_override_seed_is_ignored :
  let run header :=
    (Demo.demo_run Demo.equal_roster header Demo.all_columns ["N/A"; "y"]
                   Demo.adding (Some EmptyString)).1 in
  seed_of (Some EmptyString) "entropy" = "entropy" ∧
  seed_is_override (Some EmptyString) = false ∧
  Demo.submitted_ids (run "a,b") = [[1; 3; 0; 2]]%Z ∧
  Demo.submitted_ids (run "a,b,c") = [[1; 2; 3; 0]]%Z.
Proof. intros run. split_and!; reflexivity. Qed.

(** C4, amended: in two worlds whose four configuration files hold the same
    bytes and in which the working set pickles to the same bytes, whatever
    else differs between them (clock, other files, operator), the entropy
    derivation over the working set returns the same seed: the SHA3-512
    digest, 64 bytes, of the four files in the order of [CONFIGS] followed
    by the pickled working set; it leaves the world as it found it; and
    under that seed the shuffle puts the indexed jobs into the same order in
    both. *)
Theorem entropy_is_deterministic `{Library} `{RandomSource}
    (ws : list (list value)) (w1 w2 : world) (a b c d : bytes) :
  digest_is_512_bits →
  randbelow_in_range →
  files w1 !! MACHINES_CONFIG = Some a → files w2 !! MACHINES_CONFIG = Some a →
  files w1 !! CSV_HEADER = Some b → files w2 !! CSV_HEADER = Some b →
  files w1 !! RUNNER_CONFIG = Some c → files w2 !! RUNNER_CONFIG = Some c →
  files w1 !! LOG_TEMPLATE = Some d → files w2 !! LOG_TEMPLATE = Some d →
  dumps (heap w1) [ws] = dumps (heap w2) [ws] →
  let seed :=
    sha3_512 ((((a +:+ b) +:+ c) +:+ d) +:+ dumps (heap w1) [ws]) in
  get_entropy [ws] w1 = (w1, Ok seed) ∧
  get_entropy [ws] w2 = (w2, Ok seed) ∧
  String.length seed = 64 ∧
  ∀ c1 c2, ∃ s1 s2,
    shuffled_indexed_set c1 ws None seed = Ok s1 ∧
    shuffled_indexed_set c2 ws None seed = Ok s2 ∧
    job_key <$> s1 = job_key <$> s2.
Proof.
  intros Hlen Hlaw Ha1 Ha2 Hb1 Hb2 Hc1 Hc2 Hd1 Hd2 Hpickle seed.
  split_and!.
  - by apply get_entropy_formula.
  - unfold seed. rewrite Hpickle. by apply get_entropy_formula.
  - apply Hlen.
  - intros c1 c2.
    destruct (shuffled_indexed_set_Ok c1 ws None seed Hlaw) as [s1 Hs1].
    destruct (shuffled_indexed_set_Ok c2 ws None seed Hlaw) as [s2 Hs2].
    exists s1, s2. split_and!; [done | done |].
    pose proof (shuffled_indexed_set_keys c1 c2 ws None seed) as Hk.
    rewrite Hs1, Hs2 in Hk. by injection Hk.
Qed.

(** Two machines with the same four files, different defaults, clocks and
    operators; in one of them the first and the last job's tuples have
    names, but no two jobs are one object. *)
Lemma entropy_is_deterministic_witness :
  let files1 := Demo.demo_files Demo.equal_roster "a,b" Demo.all_columns in
  let files2 := <[DEFAULT_CONFIG_PATH:="[results] compress = yes"]> files1 in
  let w1 := Demo.demo_world files1 ["0"; "y"] 7 in
  let w2 := Demo.demo_process [4; 5; 6; 7] files2 ["N/A"; "maybe"; "y"] 1 in
  (@get_entropy Demo.demo_library Demo.demo_random [Demo.four_jobs] w1).2 =
  (@get_entropy Demo.demo_library Demo.demo_random [Demo.four_jobs] w2).2.
Proof.
  intros files1 files2 w1 w2.
  destruct (@entropy_is_deterministic Demo.demo_library Demo.demo_random
              Demo.four_jobs w1 w2
              (Demo.roster_text Demo.equal_roster) "a,b" Demo.all_columns
              EmptyString demo_digest_is_512_bits demo_randbelow_in_range
              eq_refl eq_refl eq_refl eq_refl eq_refl eq_refl eq_refl eq_refl
              eq_refl)
    as (H1 & H2 & _).
  exact (eq_trans (f_equal snd H1) (eq_sym (f_equal snd H2))).
Defined.

(** C4 as stated fails: two processes with the same four files are given
    equal working sets, whose first and third job have equal arguments.  In
    the first process the two tuples are two objects; in the second they
    are one object, which the pickle writes once and then refers to.  The
    pickles differ, so do the seeds, and so do the orders into which the
    jobs are shuffled. *)
Lemma shared_objects_change_the_seed :
  let disk := Demo.demo_files Demo.equal_roster "a,b" Demo.all_columns in
  let w1 := Demo.demo_process [] disk ["y"] 7 in
  let w2 := Demo.demo_process [7; 8; 7] disk ["y"] 7 in
  let seed w :=
    (@get_entropy Demo.demo_library Demo.demo_random [Demo.repeated_jobs]
                  w).2 in
  let order w :=
    (λ p, fst <$> plan_indexed_set p) <$>
    (@prepare Demo.demo_library Demo.demo_random Demo.equal_roster
              Demo.every_column None Demo.repeated_jobs None w).2 in
  files w1 = files w2 ∧
  Demo.demo_dumps (heap w1) [Demo.repeated_jobs] = "1;2;3;1;2;4;5;6" ∧
  Demo.demo_dumps (heap w2) [Demo.repeated_jobs] = "1;2;3;@0;4;5;6" ∧
  seed w1 ≠ seed w2 ∧
  order w1 = Ok [0; 3; 2; 1]%Z ∧
  order w2 = Ok [2; 1; 0; 3]%Z.
Proof.
  intros disk w1 w2 seed order.
  split_and!; try (vm_compute; reflexivity).
  intros Heq. vm_compute in Heq. discriminate Heq.
Qed.

(** ** Identification submits nothing *)

Section identify_facts.
Context `{Library} `{RandomSource} `{ProgressPool}.

(** The two worlds have handed the same lists to the pool. *)
Let same_submitted : relation world := λ w w', submitted w' = submitted w.

#[local] Instance same_submitted_trans : Transitive same_submitted.
Proof. intros w1 w2 w3 H12 H23. unfold same_submitted in *. congruence. Qed.

Lemma create_missing_submitted (todo : list (string * string)) (any : bool)
    (w w' : world) (r : outcome bool) :
  create_missing todo any w = (w', r) → submitted w' = submitted w.
Proof.
  revert any w. induction todo as [|[name default] todo IH]; intros any w.
  - by intros [= <- _].
  - simpl. unfold mbind, SE_bind, create_exclusive.
    destruct (files w !! name).
    + apply IH.
    + intros Hrec%IH. by rewrite Hrec.
Qed.

Lemma identity_loop_submitted (dialog : prompt) (responses : list string)
    (w w' : world) (r : outcome (option Z)) :
  identity_loop dialog responses w = (w', r) → submitted w' = submitted w.
Proof.
  revert w. induction responses as [|resp responses IH]; intros w; simpl.
  - by intros [= <- _].
  - case_bool_decide.
    + by intros [= <- _].
    + destruct (int_of_string resp).
      * by intros [= <- _].
      * intros Hrec%IH. by rewrite Hrec.
Qed.

Lemma identify_submitted (w w' : world)
    (r : outcome (roster * config * option Z)) :
  identify w = (w', r) → submitted w' = submitted w.
Proof.
  revert w w' r. unfold identify.
  apply (bind_related same_submitted); [by intros ??? [= <- _] | intros _].
  apply (bind_related same_submitted).
  { unfold make_config_files.
    apply (bind_related same_submitted);
      [apply create_missing_submitted | intros any].
    destruct any; by intros ??? [= <- _]. }
  intros _. apply (bind_related same_submitted).
  { unfold get_machines.
    apply (bind_related same_submitted).
    - by intros ??? ->%read_text_inv.
    - by intros ???? [-> _]%lift_inv. }
  intros machines.
  apply (bind_related same_submitted); [by intros ??? [= <- _] | intros _].
  apply (bind_related same_submitted).
  { unfold get_config.
    apply (bind_related same_submitted);
      [by intros ??? ->%read_text_inv | intros defaults].
    apply (bind_related same_submitted);
      [by intros ??? ->%read_if_present_inv | intros runner].
    by intros ??? [-> _]%lift_inv. }
  intros c. apply (bind_related same_submitted).
  - intros ???. apply identity_loop_submitted.
  - intros ID. by intros ??? [= <- _].
Qed.

End identify_facts.

(** ** A total weight of zero *)

(** C5, amended: whenever the sum of all configured weights is zero and the
    machine has a roster index, whatever the index is, the run raises before
    the pool is given anything and before a file is written: the run from
    line 201 on ends in an exception, which is the [ZeroDivisionError] of
    line 216 where the four configuration files can be read, and so does
    [run_jobs] once the operator has answered with an index. *)
Theorem zero_total_weight_halts_indexed_machine
    `{Library} `{RandomSource} `{ProgressPool} {T : Type}
    (job : job_args → outcome (option (list value)))
    (setup_function : config → outcome unit)
    (parse_function : config → list (cell value time) → outcome unit)
    (reduce_function : T → option (list value) → outcome T)
    (machines : roster) (c : config) (ID : Z) (ws : list (list value))
    (reduce_start : T) (o : option bytes) :
  sum (weights_of machines) = 0%Z →
  (∀ w, ∃ w' e,
      run_as job setup_function parse_function reduce_function machines c
             (Some ID) ws reduce_start o w = (w', Raise e) ∧
      submitted w' = submitted w ∧ files w' = files w ∧
      (randbelow_in_range →
       (∃ entropy, get_entropy [ws] w = (w, Ok entropy)) →
       e = ZeroDivisionError)) ∧
  (∀ w w0, identify w = (w0, Ok (machines, c, Some ID)) →
      ∃ w' e,
        run_jobs job setup_function parse_function reduce_function ws
                 reduce_start o w = (w', Raise e) ∧
        submitted w' = submitted w).
Proof.
  intros Hzero.
  assert (Hrun : ∀ w, ∃ w' e,
      run_as job setup_function parse_function reduce_function machines c
             (Some ID) ws reduce_start o w = (w', Raise e) ∧
      submitted w' = submitted w ∧ files w' = files w ∧
      (randbelow_in_range →
       (∃ entropy, get_entropy [ws] w = (w, Ok entropy)) →
       e = ZeroDivisionError)).
  { intros w. unfold run_as.
    destruct (prepare machines c (Some ID) ws o w) as [w1 [p|e]] eqn:Hp.
    - apply prepare_Ok_inv in Hp as (_ & Ha & _).
      destruct (arrange_zero_total (weights_of machines) ID c ws o
                  (plan_entropy p) Hzero) as [[err Herr] _].
      congruence.
    - exists w1, e. rewrite (bind_Raise _ _ _ _ _ Hp).
      pose proof (prepare_continues _ _ _ _ _ _ _ _ Hp) as (Hf & Hs & _).
      split_and!; [done | done | done |].
      intros Hlaw [entropy He].
      destruct (arrange_zero_total (weights_of machines) ID c ws o entropy
                  Hzero) as [_ Harr].
      specialize (Harr Hlaw).
      unfold prepare in Hp.
      rewrite (bind_Ok _ _ _ _ _ He) in Hp.
      erewrite bind_Ok in Hp by reflexivity.
      assert (Hov : ∃ w2,
                (if seed_is_override o
                 then logger (UsingOverrideSeed (seed_of o entropy))
                 else mret ())
                  (set_log (log w ++ [EntropyIs entropy]) w) = (w2, Ok ()))
        by (destruct (seed_is_override o); eauto).
      destruct Hov as [w2 Hov].
      rewrite (bind_Ok _ _ _ _ _ Hov) in Hp.
      rewrite Harr in Hp. by injection Hp as _ <-. }
  split; [exact Hrun|].
  intros w w0 Hid.
  destruct (Hrun w0) as (w' & e & Hrun0 & Hsub & _).
  exists w', e. unfold run_jobs. rewrite (bind_Ok _ _ _ _ _ Hid).
  split; [exact Hrun0|].
  rewrite Hsub. by eapply identify_submitted.
Qed.

(** A roster whose weights are 0 * 4 and 1 * 0, answered with the index 1:
    the run raises [ZeroDivisionError] and submits nothing. *)
Lemma zero_total_weight_halts_indexed_machine_witness :
  ∃ w',
    Demo.demo_run Demo.idle_roster "a,b" Demo.all_columns ["1"; "y"]
                  Demo.adding None = (w', Raise ZeroDivisionError) ∧
    submitted w' = [].
Proof.
  set (w := Demo.demo_world
              (Demo.demo_files Demo.idle_roster "a,b" Demo.all_columns)
              ["1"; "y"] 7).
  destruct (@zero_total_weight_halts_indexed_machine Demo.demo_library
              Demo.demo_random Demo.demo_pool Z Demo.squares Demo.no_setup
              Demo.no_parse Demo.adding Demo.idle_roster Demo.every_column
              1%Z Demo.four_jobs 0%Z None eq_refl) as [_ Hjobs].
  destruct (Hjobs w (@identify Demo.demo_library Demo.demo_random w).1
              eq_refl) as (w' & e & Hrun & Hsub).
  exists w'. split; [|exact Hsub].
  unfold Demo.demo_run. fold w. rewrite Hrun. f_equal.
  assert (He : (w', @Raise Z e).2 = Raise ZeroDivisionError)
    by (rewrite <- Hrun; reflexivity).
  exact He.
Defined.

(** C5 as stated fails without an identity: the same roster, whose weights
    sum to zero, answered with [N/A]: lines 216-217 are not run, four jobs
    are submitted and the run returns. *)
Lemma zero_total_weight_without_identity_runs :
  let run := Demo.demo_run Demo.idle_roster "a,b" Demo.all_columns
                           ["N/A"; "y"] Demo.adding None in
  sum (weights_of Demo.idle_roster) = 0%Z ∧
  run.2 = Ok 91%Z ∧
  Demo.submitted_ids run.1 = [[1; 3; 2; 0]]%Z.
Proof. intros run. split_and!; reflexivity. Qed.

(** ** The rows of the results file *)

(** C6: where the reduction raises nothing but [Exception]s, each
    completion appends exactly one line to the results file, the written row
    being the enabled ones of run start time, interval since the previous
    completion, completion time and job id, in this order, followed by the
    values the job returned in their order, and by nothing where the job
    returned [None]; and the loop over jobs that complete appends one such
    row for each of them, in the order of their arrival, and changes no
    other file. *)
Theorem one_row_per_completed_job
    `{Library} `{RandomSource} `{ProgressPool} {T : Type}
    (job : job_args → outcome (option (list value)))
    (parse_function : config → list (cell value time) → outcome unit)
    (reduce_function : T → option (list value) → outcome T)
    (c : config) (lw : Z) (start_time : time) :
  (∀ cur res e, reduce_function cur res = Raise e → is_Exception e = true) →
  (∀ idx current last_time job_id result w,
      let new_time := clock w (now w) in
      let row :=
        (if include_start_time c then [Float start_time] else []) ++
        (if include_job_interval c
         then [Float (time_sub new_time last_time)] else []) ++
        (if include_job_done_time c then [Float new_time] else []) ++
        (if include_job_id c then [Int job_id] else []) ++
        match result with
        | Some values => Obj <$> values
        | None => []
        end in
      files (handle_completion parse_function reduce_function c lw start_time
               idx current last_time (job_id, result) w).1 =
      <[results_path c :=
          default EmptyString (files w !! results_path c) +:+
          (if compress c then gzip_member (writerow row) else writerow row)]>
        (files w)) ∧
  (∀ pending idx current last_time w,
      (∀ j, j ∈ pending → ∃ result, job j.2 = Ok result) →
      (∀ c r, parse_function c r = Ok ()) →
      ∃ w' current' rows,
        consume job parse_function reduce_function c lw start_time pending
                idx current last_time w = (w', Ok current') ∧
        Forall2 (row_of_job job c start_time) pending rows ∧
        length rows = length pending ∧
        default EmptyString (files w' !! results_path c) =
          default EmptyString (files w !! results_path c) +:+ lines_of c rows ∧
        ∀ q, q ≠ results_path c → files w' !! q = files w !! q).
Proof.
  intros Hexc. split.
  - intros idx current last_time job_id result w new_time row.
    rewrite (handle_completion_run parse_function reduce_function c lw
               start_time idx current last_time job_id result w
               (Hexc current result)).
    simpl. do 3 f_equal. subst row new_time. unfold meta_of.
    rewrite <- !app_assoc. by destruct result.
  - intros pending idx current last_time w Hjob Hparse.
    destruct (consume_run job parse_function reduce_function c lw start_time
                pending Hjob Hparse Hexc idx current last_time w)
      as (w' & current' & rows & Hrun & Hrows & Hfile & Hother & _).
    exists w', current', rows. split_and!; try done.
    symmetry. by eapply Forall2_length.
Qed.

(** The job with index 2 returns [None] while every column is enabled, and
    the reduction raises: the row has the four metadata fields only. *)
Lemma one_row_per_completed_job_witness :
  let w := Demo.demo_world ∅ [] 7 in
  files (handle_completion (H:=Demo.demo_library) (H0:=Demo.demo_random)
           Demo.no_parse Demo.failing Demo.every_column 4
           990%Z 1 0%Z 995%Z (2%Z, None) w).1 !! "results.csv" =
  Some (Demo.demo_writerow [Float 990; Float 5; Float 1000; Int 2]%Z).
Proof.
  intros w.
  destruct (@one_row_per_completed_job Demo.demo_library Demo.demo_random
              Demo.demo_pool Z Demo.squares Demo.no_parse Demo.failing
              Demo.every_column 4%Z 990%Z) as [Hrow _].
  - intros cur res e [= <-]. reflexivity.
  - rewrite (Hrow 1%Z 0%Z 995%Z 2%Z None w). reflexivity.
Defined.

(** ** A reduction that raises *)

(** C2, amended: where no job and no hook raises and every submitted job
    completes, a completion whose reduction raises an [Exception] is
    handled: the exception is logged, with the disassembly where [distb]
    gives one, the row is written, and the loop goes on with the accumulator
    it had before the call; where the reduction raises nothing but
    [Exception]s, the loop over any list of completions ends normally with
    one row for each; and a reduction that always raises an [Exception]
    lets the whole run, whose header file decodes, return [reduce_start],
    with all the jobs of the plan submitted, as many rows appended to the
    results file and as many logged failures. *)
Theorem failing_reduction_is_isolated
    `{Library} `{RandomSource} `{ProgressPool} {T : Type}
    (job : job_args → outcome (option (list value)))
    (setup_function : config → outcome unit)
    (parse_function : config → list (cell value time) → outcome unit)
    (reduce_function : T → option (list value) → outcome T) :
  arrival_is_permutation →
  (∀ args, ∃ result, job args = Ok result) →
  (∀ c, setup_function c = Ok ()) →
  (∀ c r, parse_function c r = Ok ()) →
  (∀ c lw start_time idx current last_time job_id result w e,
      reduce_function current result = Raise e →
      is_Exception e = true →
      ∃ w1,
        handle_completion parse_function reduce_function c lw start_time idx
          current last_time (job_id, result) w =
          (w1, Ok (current, clock w (now w))) ∧
        log w1 = log w ++ AnswerReceived idx lw :: ReduceMessedUp e ::
                   match distb e with
                   | Some text => [Disassembly text]
                   | None => []
                   end ∧
        ∃ row, files w1 =
               <[results_path c :=
                   default EmptyString (files w !! results_path c) +:+
                   lines_of c [row]]> (files w)) ∧
  ((∀ cur res e, reduce_function cur res = Raise e → is_Exception e = true) →
   ∀ c lw start_time pending idx current last_time w,
      ∃ w' current' rows,
        consume job parse_function reduce_function c lw start_time pending
                idx current last_time w = (w', Ok current') ∧
        length rows = length pending ∧
        default EmptyString (files w' !! results_path c) =
          default EmptyString (files w !! results_path c) +:+
          lines_of c rows) ∧
  ((∀ cur res, ∃ e, reduce_function cur res = Raise e ∧
                    is_Exception e = true) →
   ∀ machines c ID ws reduce_start o w w0 w1 p content header,
     identify w = (w0, Ok (machines, c, ID)) →
     prepare machines c ID ws o w0 = (w1, Ok p) →
     files w0 !! CSV_HEADER = Some content →
     decode content = Ok header →
     ∃ w' rows,
       run_jobs job setup_function parse_function reduce_function ws
                reduce_start o w = (w', Ok reduce_start) ∧
       submitted w' = submitted w ++ [plan_indexed_set p] ∧
       length rows = length (plan_indexed_set p) ∧
       default EmptyString (files w' !! results_path c) =
         default EmptyString
           (<[RESULTS_CSV:=header +:+ newline]> (files w0) !! results_path c)
         +:+ lines_of c rows ∧
       reduce_failures (log w') =
         reduce_failures (log w1) + length (plan_indexed_set p)).
Proof.
  intros Hperm Hjob Hsetup Hparse. split_and!.
  - intros c lw start_time idx current last_time job_id result w e He Hexc.
    assert (Hlocal : ∀ e', reduce_function current result = Raise e' →
                           is_Exception e' = true) by (intros e'; congruence).
    pose proof (handle_completion_run parse_function reduce_function c lw
                  start_time idx current last_time job_id result w Hlocal)
      as Hstep.
    cbv zeta in Hstep. rewrite Hparse, He in Hstep.
    eexists. split; [exact Hstep|]. split; [done|].
    eexists. simpl. by rewrite append_nil_r.
  - intros Hexc c lw start_time pending idx current last_time w.
    destruct (consume_run job parse_function reduce_function c lw start_time
                pending (λ j _, Hjob j.2) Hparse Hexc idx current last_time w)
      as (w' & current' & rows & Hrun & Hrows & Hfile & _).
    exists w', current', rows. split_and!; try done.
    symmetry. by eapply Forall2_length.
  - intros Hraises machines c ID ws reduce_start o w w0 w1 p content header
      Hid Hp Hcontent Hdecode.
    assert (Hexc : ∀ cur res e, reduce_function cur res = Raise e →
                                is_Exception e = true).
    { intros cur res e He. destruct (Hraises cur res) as (e' & He' & Hcaught).
      congruence. }
    assert (Hall : ∀ cur res, ∃ e, reduce_function cur res = Raise e).
    { intros cur res. destruct (Hraises cur res) as (e & He & _). eauto. }
    pose proof (prepare_continues _ _ _ _ _ _ _ _ Hp) as (Hf & Hs & _).
    pose proof (prepare_Ok_inv _ _ _ _ _ _ _ _ Hp)
      as (He & _ & Hc & _).
    destruct (execute_run job setup_function parse_function reduce_function
                reduce_start p w1 content header Hperm (Hsetup _)
                ltac:(by rewrite Hf) Hdecode (λ j _, Hjob j.2) Hparse Hexc)
      as (w' & current' & rows & Hrun & _ & Hlen & Hfile & _ & Hsub & Hfail).
    destruct (Hfail Hall) as [-> Hcount].
    exists w', rows. rewrite Hc, Hf in Hfile.
    split_and!; try done.
    + unfold run_jobs. rewrite (bind_Ok _ _ _ _ _ Hid). unfold run_as.
      by rewrite (bind_Ok _ _ _ _ _ Hp).
    + rewrite Hsub, Hs. f_equal. by eapply identify_submitted.
Qed.

(** Machine 1 of two equal machines, compressed results, a reduction that
    always raises: the run returns its start value 0, both jobs of the slice
    were submitted and two failures are in the log. *)
Lemma failing_reduction_is_isolated_witness :
  ∃ w',
    Demo.demo_run Demo.equal_roster "a,b"
                  ("compress = yes " +:+ Demo.all_columns) ["1"; "Yes"]
                  Demo.failing (Some "seed") = (w', Ok 0%Z) ∧
    Demo.submitted_ids w' = [[2; 0]]%Z ∧
    reduce_failures (log w') = 2.
Proof.
  set (w := Demo.demo_world
              (Demo.demo_files Demo.equal_roster "a,b"
                 ("compress = yes " +:+ Demo.all_columns))
              ["1"; "Yes"] 7).
  set (c := {| compress := true; include_start_time := true;
               include_job_interval := true; include_job_done_time := true;
               include_job_id := true; file_name := "results.csv" |}).
  destruct (@failing_reduction_is_isolated Demo.demo_library Demo.demo_random
              Demo.demo_pool Z Demo.squares Demo.no_setup Demo.no_parse
              Demo.failing demo_arrival_is_permutation)
    as (_ & _ & Hrun).
  - intros [[[|x items] g] c']; eexists; reflexivity.
  - reflexivity.
  - reflexivity.
  - set (id := @identify Demo.demo_library Demo.demo_random w).
    assert (Hid : id = (id.1, Ok (Demo.equal_roster, c, Some 1%Z)))
      by (apply pair_of_outcome; vm_compute; reflexivity).
    set (pr := @prepare Demo.demo_library Demo.demo_random Demo.equal_roster
                 c (Some 1%Z) Demo.four_jobs (Some "seed") id.1).
    assert (Hok : is_Ok pr.2 = true) by (vm_compute; reflexivity).
    destruct (is_Ok_inv _ Hok) as [p Hp%pair_of_outcome].
    destruct (Hrun (λ _ _, ex_intro _ _ (conj eq_refl eq_refl))
                Demo.equal_roster c
                (Some 1%Z) Demo.four_jobs 0%Z (Some "seed") w id.1 pr.1 p
                "a,b" "a,b" Hid Hp eq_refl eq_refl)
      as (w' & rows & Hr & _).
    exists w'. split; [exact Hr|].
    assert (Hw' : w' = (Demo.demo_run Demo.equal_roster "a,b"
                          ("compress = yes " +:+ Demo.all_columns)
                          ["1"; "Yes"] Demo.failing (Some "seed")).1)
      by (unfold Demo.demo_run; fold w; by rewrite Hr).
    rewrite Hw'. split; vm_compute; reflexivity.
Defined.

(** C2 as stated fails for a reduction that raises outside [Exception]:
    line 260 is [except Exception], so a [KeyboardInterrupt] raised by the
    reduction on the first completion leaves [run_jobs].  Machine 1 of two
    equal machines had two jobs in the pool; the run raises, no row is
    written for either, [results.csv] holds the header alone, and the log
    has no complaint about the reduction. *)
Lemma interrupted_reduction_ends_the_run :
  let run := Demo.demo_run Demo.equal_roster "a,b" Demo.all_columns
                           ["1"; "y"] Demo.interrupted None in
  is_Exception (UserBaseException "KeyboardInterrupt") = false ∧
  run.2 = Raise (UserBaseException "KeyboardInterrupt") ∧
  Demo.submitted_ids run.1 = [[0; 2]]%Z ∧
  files run.1 !! "results.csv" = Some (Demo.line "a,b") ∧
  reduce_failures (log run.1) = 0 ∧
  now run.1 = 1.
Proof. intros run. split_and!; vm_compute; reflexivity. Qed.

(** ** The header of the results file *)

(** Where the rows go to another file than [results.csv], be it the
    compressed sibling or a file of another name, [results.csv] holds the
    header line and nothing else after the run. *)
Lemma header_file_holds_no_rows
    `{Library} `{RandomSource} `{ProgressPool} {T : Type}
    (job : job_args → outcome (option (list value)))
    (setup_function : config → outcome unit)
    (parse_function : config → list (cell value time) → outcome unit)
    (reduce_function : T → option (list value) → outcome T)
    (reduce_start : T) (p : plan) (w : world) (content header : string) :
  arrival_is_permutation →
  setup_function (plan_config p) = Ok () →
  files w !! CSV_HEADER = Some content →
  decode content = Ok header →
  (∀ j, j ∈ plan_indexed_set p → ∃ result, job j.2 = Ok result) →
  (∀ c r, parse_function c r = Ok ()) →
  (∀ cur res e, reduce_function cur res = Raise e → is_Exception e = true) →
  results_path (plan_config p) ≠ RESULTS_CSV →
  ∃ w' current' rows,
    execute job setup_function parse_function reduce_function reduce_start p w
      = (w', Ok current') ∧
    length rows = length (plan_indexed_set p) ∧
    files w' !! RESULTS_CSV = Some (header +:+ newline) ∧
    default EmptyString (files w' !! results_path (plan_config p)) =
      default EmptyString (files w !! results_path (plan_config p))
      +:+ lines_of (plan_config p) rows.
Proof.
  intros Hperm Hsetup Hheader Hdecode Hjob Hparse Hexc Hpath.
  destruct (execute_run job setup_function parse_function reduce_function
              reduce_start p w content header Hperm Hsetup Hheader Hdecode
              Hjob Hparse Hexc)
    as (w' & current' & rows & Hrun & _ & Hlen & Hfile & Hother & _).
  exists w', current', rows. split_and!; [done | done | |].
  - rewrite Hother by done. apply lookup_insert_eq.
  - by rewrite Hfile, lookup_insert_ne.
Qed.

(** C7, the code at two configurations: machine 1 of two equal machines
    runs its two jobs.  With the default file name and no compression the
    header and the rows are in [results.csv].  With compression the rows are
    in [results.csv.gz], which has no header, and [results.csv] holds the
    header alone; with the file name [out.csv] the rows are in [out.csv],
    which has no header, and [results.csv] holds the header alone. *)
Theorem header_is_written_to_results_csv_only :
  let files_after runner :=
    files (Demo.demo_run Demo.equal_roster "a,b" runner ["1"; "Yes"]
                         Demo.adding None).1 in
  let plain := files_after Demo.all_columns in
  let compressed := files_after ("compress = yes " +:+ Demo.all_columns) in
  let renamed := files_after ("file_name = out.csv " +:+ Demo.all_columns) in
  plain !! "results.csv" =
    Some (Demo.line "a,b" +:+
          Demo.demo_writerow [Float 1000; Float 7; Float 1007; Int 2]%Z +:+
          Demo.demo_writerow [Float 1000; Float 7; Float 1014; Int 0;
                              Obj 1; Obj 4]%Z) ∧
  compressed !! "results.csv" = Some (Demo.line "a,b") ∧
  compressed !! "results.csv.gz" =
    Some ("<gz>" +:+
          Demo.demo_writerow [Float 1000; Float 7; Float 1007; Int 0;
                              Obj 1; Obj 4]%Z +:+ "</gz>" +:+ "<gz>" +:+
          Demo.demo_writerow [Float 1000; Float 7; Float 1014; Int 2]%Z +:+
          "</gz>") ∧
  renamed !! "results.csv" = Some (Demo.line "a,b") ∧
  renamed !! "out.csv" =
    Some (Demo.demo_writerow [Float 1000; Float 7; Float 1007; Int 1;
                              Obj 9]%Z +:+
          Demo.demo_writerow [Float 1000; Float 7; Float 1014; Int 3;
                              Obj 16; Obj 25; Obj 36]%Z).
Proof. intros files_after plain compressed renamed. split_and!; vm_compute; reflexivity. Qed.

(** ** The log archiver *)

(** C9, the code after three rotations with [backupCount = 3]: before
    [close] the disk holds the log and the archives 1, 2 and 3; [close]
    merges the log and the archives 1 and 2 into [app.log.zip] under three
    distinct names and removes them, and leaves [app.log.3.zip] where it
    was, so that two zip files remain and no plain file. *)
Theorem close_leaves_the_oldest_archive :
  let before := (Demo.three_rotations ∅).1 in
  let after := (Demo.three_rotations ≫= zipped_logs.close) ∅ in
  before !! "/var/log/app.log" = Some (zipped_logs.Plain (Demo.line "ddddd")) ∧
  before !! "/var/log/app.log.1.zip" =
    Some (zipped_logs.Archive [("app.log", Demo.line "ccccc")]) ∧
  before !! "/var/log/app.log.2.zip" =
    Some (zipped_logs.Archive [("app.log", Demo.line "bbbbb")]) ∧
  before !! "/var/log/app.log.3.zip" =
    Some (zipped_logs.Archive [("app.log", Demo.line "aaaaa")]) ∧
  size before = 4 ∧
  zipped_logs.closed <$> after.2 = Ok true ∧
  after.1 !! "/var/log/app.log.zip" =
    Some (zipped_logs.Archive [("app.log", Demo.line "ddddd");
                               ("app.log.1", Demo.line "ccccc");
                               ("app.log.2", Demo.line "bbbbb")]) ∧
  after.1 !! "/var/log/app.log.3.zip" =
    Some (zipped_logs.Archive [("app.log", Demo.line "aaaaa")]) ∧
  after.1 !! "/var/log/app.log" = None ∧
  size after.1 = 2 ∧
  size (zipped_logs.archives after.1) = 2 ∧
  size (zipped_logs.plain_files after.1) = 0.
Proof. intros before after. split_and!; vm_compute; reflexivity. Qed.

(** [close] touches the log file, the merged archive and the archives
    numbered below [backupCount], and nothing else: the archive numbered
    [backupCount], which the rollover of the standard library fills, is
    outside its reach whatever the handler is. *)
Section close_facts.
Import zipped_logs.

Lemma merge_archives_frame (h : handler) (dest base : string)
    (max_digits todo i : nat) (fs : disk) (q : string) :
  q ≠ dest →
  (∀ k, i ≤ k < i + todo → q ≠ numbered h k) →
  (merge_archives h dest base max_digits todo i fs).1 !! q = fs !! q.
Proof.
  intros Hdest. revert i fs.
  induction todo as [|todo IH]; intros i fs Hq; [done|].
  simpl. destruct (exists_ fs (numbered h i)); [|done].
  unfold mbind, SE_bind, zip_read, writestr, remove.
  destruct (fs !! numbered h i) as [[content|entries]|]; try done.
  destruct (last (filter _ entries)) as [e|]; [|done].
  destruct (fs !! dest) as [[content|dest_entries]|] eqn:Hd; try done.
  destruct (decide (dest = numbered h i)) as [Heq|Hne].
  - rewrite <- Heq, lookup_insert_eq. rewrite IH by (intros; apply Hq; lia).
    rewrite lookup_delete_ne by done. by rewrite lookup_insert_ne.
  - rewrite lookup_insert_ne by done.
    destruct (fs !! numbered h i) as [n|] eqn:Hn.
    + rewrite IH by (intros; apply Hq; lia).
      rewrite lookup_delete_ne by (apply not_eq_sym, Hq; lia).
      by rewrite lookup_insert_ne.
    + simpl. by rewrite lookup_insert_ne.
Qed.

Lemma append_ne (s t : string) : t ≠ EmptyString → s +:+ t ≠ s.
Proof.
  intros Ht. induction s as [|x s IH]; [done|].
  change (String x (s +:+ t) ≠ String x s). by intros [= ?].
Qed.

(** X25: whatever the handler and the disk are, and whether [close]
    returns or raises, [close] leaves every file as it was that is not the
    log, the merged archive or an archive numbered from 1 to
    [backupCount - 1]. *)
Lemma close_frame (h : handler) (fs : disk) (q : string) :
  q ≠ baseFilename h →
  q ≠ baseFilename h +:+ ".zip" →
  (∀ k, 1 ≤ k < backupCount h → q ≠ numbered h k) →
  (close h fs).1 !! q = fs !! q.
Proof.
  intros Hbase Hdest Hq. unfold close.
  destruct (closed h); [reflexivity|].
  unfold mbind, SE_bind, zip_create, read_bytes, writestr, remove.
  assert (Hzip : baseFilename h +:+ ".zip" ≠ baseFilename h)
    by by apply append_ne.
  rewrite lookup_insert_ne by done.
  destruct (fs !! baseFilename h) as [[content|entries]|] eqn:Hb; simpl;
    try by rewrite lookup_insert_ne.
  rewrite lookup_insert_eq, insert_insert_eq.
  rewrite lookup_insert_ne, Hb by done.
  match goal with
  | |- context [merge_archives ?h ?d ?b ?m ?t ?i ?fs] =>
      pose proof (merge_archives_frame h d b m t i fs q Hdest
                    ltac:(intros; apply Hq; lia)) as Hm;
      destruct (merge_archives h d b m t i fs) as [fs' [[]|e]]
  end; simpl in *; rewrite Hm;
    rewrite lookup_delete_ne by done; by rewrite lookup_insert_ne.
Qed.

Lemma close_frame_witness :
  let h := {| baseFilename := Demo.log_path; maxBytes := 8;
              backupCount := 3; closed := false |} in
  let fs := (Demo.three_rotations ∅).1 in
  (close h fs).1 !! "/var/log/app.log.3.zip" = fs !! "/var/log/app.log.3.zip".
Proof.
  intros h fs. apply (close_frame h fs "/var/log/app.log.3.zip").
  - discriminate.
  - discriminate.
  - intros k Hk. assert (k = 1 ∨ k = 2) as [-> | ->] by (simpl in Hk; lia);
      discriminate.
Defined.

End close_facts.

(** * Further properties of the code *)

(** ** Texts *)

Section text_facts.

#[local] Abbreviation chars := String.list_ascii_of_string.

Lemma chars_app (a b : string) : chars (a +:+ b) = chars a ++ chars b.
Proof.
  induction a as [|x a IH]; [done|].
  change (x :: chars (a +:+ b) = x :: chars a ++ chars b). by rewrite IH.
Qed.

Lemma chars_inj (a b : string) : chars a = chars b → a = b.
Proof.
  intros Hab. rewrite <- (String.string_of_list_ascii_of_string a),
    <- (String.string_of_list_ascii_of_string b).
  by rewrite Hab.
Qed.

Lemma lower_app (a b : string) : lower (a +:+ b) = lower a +:+ lower b.
Proof.
  induction a as [|x a IH]; [done|].
  change (String (lower_ascii x) (lower (a +:+ b)) =
          String (lower_ascii x) (lower a +:+ lower b)). by rewrite IH.
Qed.

Lemma lower_ascii_idemp (c : Ascii.ascii) :
  lower_ascii (lower_ascii c) = lower_ascii c.
Proof. by destruct c as [[] [] [] [] [] [] [] []]. Qed.

Lemma lower_idemp (s : string) : lower (lower s) = lower s.
Proof.
  induction s as [|x s IH]; [done|]. simpl.
  by rewrite lower_ascii_idemp, IH.
Qed.

Lemma chars_length (s : string) : length (chars s) = String.length s.
Proof. induction s as [|x s IH]; simpl; [done | by rewrite IH]. Qed.

Lemma lower_decimal (s : string) : decimal s → lower s = s.
Proof.
  assert (Hdigit : Forall (λ c, lower_ascii c = c)
                          (String.list_ascii_of_string "0123456789"))
    by (repeat constructor).
  unfold decimal. induction s as [|x s IH]; [done|].
  intros [Hx Hs]%Forall_cons. simpl. rewrite IH by done. f_equal.
  by eapply Forall_forall in Hdigit.
Qed.

(** Whether a text with a known end [t] ends with [u] is decided by [t]
    alone, as long as [t] is not a proper end of [u]. *)
Lemma endswith_app_short (s t u : string) :
  String.length u ≤ String.length t →
  endswith (s +:+ t) u = endswith t u.
Proof.
  intros Hlen. rewrite <- !chars_length in Hlen.
  unfold endswith. rewrite chars_app.
  apply bool_decide_ext. split.
  - intros [k Hk]. apply app_eq_app in Hk as [l [[Hs Hu]|[Hkk Ht]]].
    + assert (l = []) as ->; [|by rewrite Hu].
      apply (f_equal length) in Hu. rewrite length_app in Hu.
      destruct l; [done | simpl in *; lia].
    + by exists l.
  - intros Hsuf. by apply suffix_app_r.
Qed.

Lemma endswith_app_long (s t u : string) :
  String.length t ≤ String.length u →
  endswith u t = false →
  endswith (s +:+ t) u = false.
Proof.
  intros Hlen Hno. rewrite <- !chars_length in Hlen.
  unfold endswith in *. rewrite chars_app.
  apply bool_decide_eq_false. apply bool_decide_eq_false in Hno.
  intros [k Hk]. apply Hno.
  apply app_eq_app in Hk as [l [[Hs Hu]|[Hkk Ht]]].
  - by exists l.
  - assert (l = []) as ->; [|by rewrite Ht].
    apply (f_equal length) in Ht. rewrite length_app in Ht.
    destruct l; [done | simpl in *; lia].
Qed.

Lemma endswith_chars (s u : string) (c : Ascii.ascii) :
  endswith s u = true → c ∈ chars u → c ∈ chars s.
Proof.
  unfold endswith. intros [k Hk]%bool_decide_eq_true Hc.
  rewrite Hk. apply elem_of_app. by right.
Qed.

(** Stripping: a text none of whose characters is in the set is left as it
    is, an end made of characters of the set goes, and stripping a smaller
    set first changes nothing. *)
Lemma rstrip_keep (s set : string) :
  Forall (λ c, c ∉ chars set) (chars s) → rstrip s set = s.
Proof.
  induction s as [|x s IH]; [done|].
  intros [Hx Hs]%Forall_cons. simpl. rewrite IH by done.
  destruct s; [|done]. by rewrite bool_decide_false.
Qed.

Lemma rstrip_all (t set : string) :
  Forall (λ c, c ∈ chars set) (chars t) → rstrip t set = EmptyString.
Proof.
  induction t as [|x t IH]; [done|].
  intros [Hx Ht]%Forall_cons. simpl. rewrite IH by done.
  by rewrite bool_decide_true.
Qed.

Lemma rstrip_app (s t set : string) :
  Forall (λ c, c ∈ chars set) (chars t) →
  rstrip (s +:+ t) set = rstrip s set.
Proof.
  intros Ht. induction s as [|x s IH].
  - by apply rstrip_all.
  - change (rstrip (String x (s +:+ t)) set = rstrip (String x s) set).
    simpl. by rewrite IH.
Qed.

Lemma rstrip_rstrip (s small set : string) :
  chars small ⊆ chars set →
  rstrip (rstrip s small) set = rstrip s set.
Proof.
  intros Hsub. induction s as [|x s IH]; [done|]. simpl.
  destruct (rstrip s small) as [|y r] eqn:Hr.
  - simpl in IH. rewrite <- IH. case_bool_decide as Hx; [|done].
    simpl. rewrite bool_decide_true by auto. done.
  - change (rstrip (String x (String y r)) set) with
      (match rstrip (String y r) set with
       | EmptyString =>
           if bool_decide (x ∈ String.list_ascii_of_string set)
           then EmptyString else String x EmptyString
       | String c' rest' => String x (String c' rest')
       end).
    by rewrite IH.
Qed.

End text_facts.

(** ** File sizes *)

(** Decides a closed decidable statement by computing. *)
Ltac by_computing :=
  match goal with
  | |- ?P => apply (@bool_decide_unpack P _); vm_compute; exact I
  end.

(** Decides the tests [endswith (x +:+ t) u] of the goal for texts [t] and
    [u] that are written out. *)
Ltac end_tests :=
  repeat match goal with
  | |- context [endswith (?x +:+ ?t) ?u] =>
      first
        [ rewrite (endswith_app_short x t u) by (simpl; lia);
          let b := eval vm_compute in (endswith t u) in
          change (endswith t u) with b
        | rewrite (endswith_app_long x t u)
            by (first [simpl; lia | vm_compute; reflexivity]) ]
  end.

Lemma decimal_not_letter (s set : string) :
  decimal s →
  Forall (λ c, c ∉ String.list_ascii_of_string "0123456789")
         (String.list_ascii_of_string set) →
  Forall (λ c, c ∉ String.list_ascii_of_string set)
         (String.list_ascii_of_string s).
Proof.
  intros Hs Hset. eapply Forall_impl; [exact Hs|].
  intros c Hc Hin. rewrite Forall_forall in Hset. by apply (Hset c Hin).
Qed.

(** X1: the size does not depend on the case of the letters: two texts
    with the same lower-case form are read alike, as a number or as an
    error (lines 94-111 look at [value.lower()] only). *)
Theorem parse_file_size_ignores_case `{Library} (value1 value2 : string) :
  lower value1 = lower value2 →
  parse_file_size value1 = parse_file_size value2.
Proof.
  intros Hsame. unfold parse_file_size. cbv zeta. by rewrite Hsame.
Qed.

Lemma parse_file_size_ignores_case_witness :
  @parse_file_size Demo.demo_library "3GiB" =
  @parse_file_size Demo.demo_library "3gib".
Proof.
  apply (@parse_file_size_ignores_case Demo.demo_library "3GiB" "3gib").
  reflexivity.
Defined.

(** X2: a text that ends in one of the binary suffixes k, kib, m, mib, g,
    gib, t, tib is read as the number that is left of its lower-case form
    when all trailing letters of the suffix are stripped, not just the
    suffix, times 2 to the power 10, 20, 30 or 40; for decimal digits
    followed by the suffix this is the number the digits spell. *)
Theorem parse_file_size_binary `{Library} (s suffix letters : string) (k : Z) :
  (suffix, letters, k) ∈
    [ ("k", "kib", 10); ("kib", "kib", 10); ("m", "mib", 20);
      ("mib", "mib", 20); ("g", "gib", 30); ("gib", "gib", 30);
      ("t", "tib", 40); ("tib", "tib", 40) ]%Z →
  parse_file_size (s +:+ suffix) =
    (n ← int (rstrip (lower s) letters); Ok (n * 2 ^ k)%Z) ∧
  (decimal s →
   parse_file_size (s +:+ suffix) = (n ← int s; Ok (n * 2 ^ k)%Z)).
Proof.
  intros Hin.
  assert (Hgen : parse_file_size (s +:+ suffix) =
                 (n ← int (rstrip (lower s) letters); Ok (n * 2 ^ k)%Z) ∧
                 Forall (λ c, c ∉ String.list_ascii_of_string "0123456789")
                        (String.list_ascii_of_string letters)).
  { unfold parse_file_size. rewrite lower_app.
    repeat (apply elem_of_cons in Hin as [Heq|Hin];
            [injection Heq as -> -> ->|]);
      [..|by apply elem_of_nil in Hin];
      (split; [|by_computing]);
      match goal with
      | |- context [lower ?x +:+ lower ?t] =>
          let t' := eval vm_compute in (lower t) in
          change (lower t) with t'
      end;
      end_tests; cbn [orb];
      (rewrite rstrip_rstrip by (by_computing));
      (rewrite rstrip_app by (by_computing));
      destruct (int _); simpl; by rewrite ?Z.shiftl_mul_pow2. }
  destruct Hgen as [Hgen Hletters].
  split; [exact Hgen|].
  intros Hdec. rewrite Hgen, lower_decimal by done.
  rewrite rstrip_keep; [done|]. by apply decimal_not_letter.
Qed.

Lemma str_take_app (a b : string) :
  str_take (String.length a) (a +:+ b) = a.
Proof.
  induction a as [|x a IH]; [by destruct b|].
  change (String x (str_take (String.length a) (a +:+ b)) = String x a).
  by rewrite IH.
Qed.

Lemma endswith_trans (v u t : string) :
  endswith v u = true → endswith u t = true → endswith v t = true.
Proof.
  unfold endswith. rewrite !bool_decide_eq_true. intros Hu Ht. by etrans.
Qed.

(** X3: a text that ends in one of the decimal suffixes kb, mb, gb, tb is
    read as the number spelled by the first two characters of its lower-case
    form, times 1000 to the power 1 to 4: what stands between the second
    character and the suffix is not looked at. *)
Theorem parse_file_size_decimal `{Library} (s suffix : string) (e : Z) :
  (suffix, e) ∈ [("kb", 3); ("mb", 6); ("gb", 9); ("tb", 12)]%Z →
  parse_file_size (s +:+ suffix) =
    (n ← int (str_take 2 (lower s +:+ suffix)); Ok (n * 10 ^ e)%Z) ∧
  (∀ a rest, s = a +:+ rest → String.length a = 2 →
     parse_file_size (s +:+ suffix) = (n ← int (lower a); Ok (n * 10 ^ e)%Z)).
Proof.
  intros Hin.
  assert (Hgen : parse_file_size (s +:+ suffix) =
            (n ← int (str_take 2 (lower s +:+ suffix)); Ok (n * 10 ^ e)%Z)).
  { unfold parse_file_size. rewrite lower_app.
    repeat (apply elem_of_cons in Hin as [Heq|Hin];
            [injection Heq as -> ->|]);
      [..|by apply elem_of_nil in Hin];
      match goal with
      | |- context [lower ?x +:+ lower ?t] =>
          let t' := eval vm_compute in (lower t) in
          change (lower t) with t'
      end;
      end_tests; cbn [orb]; done. }
  split; [exact Hgen|].
  intros a rest -> Hlen. rewrite Hgen, lower_app, append_assoc.
  assert (Hlow : String.length (lower a) = 2).
  { rewrite <- Hlen. clear. induction a as [|x a IH]; simpl; [done | by rewrite IH]. }
  by rewrite <- Hlow, str_take_app.
Qed.

(** The text [1500kb] is read as 15 thousand. *)
Lemma parse_file_size_decimal_witness :
  @parse_file_size Demo.demo_library "1500kb" = Ok 15000%Z.
Proof.
  destruct (@parse_file_size_decimal Demo.demo_library "1500" "kb" 3%Z)
    as [_ Hfirst].
  - by_computing.
  - exact (Hfirst "15" "00" eq_refl eq_refl).
Defined.

(** Three gibibytes, in capitals. *)
Lemma parse_file_size_binary_witness :
  @parse_file_size Demo.demo_library (lower "3GiB") = Ok 3221225472%Z.
Proof.
  destruct (@parse_file_size_binary Demo.demo_library "3" "gib" "gib" 30%Z)
    as [_ Hdigits].
  - by_computing.
  - exact (Hdigits ltac:(by_computing)).
Defined.

(** X4: a text whose lower-case form ends in none of the letters t, g, m,
    k and b is read by [int] as it stands in lower case; a text of decimal
    digits is such a text. *)
Theorem parse_file_size_plain `{Library} (value : string) :
  Forall (λ c, endswith (lower value) (String c EmptyString) = false)
         (String.list_ascii_of_string "tgmkb") →
  parse_file_size value = int (lower value).
Proof.
  intros Hends. unfold parse_file_size.
  assert (Hno : ∀ u letter,
            letter ∈ String.list_ascii_of_string "tgmkb" →
            endswith u (String letter EmptyString) = true →
            endswith (lower value) u = false).
  { intros u letter Hl Hu.
    destruct (endswith (lower value) u) eqn:Hv; [|done].
    rewrite Forall_forall in Hends. rewrite <- (Hends letter Hl).
    symmetry. by eapply endswith_trans. }
  rewrite (Hno "t" (Ascii.ascii_of_nat 116)),
    (Hno "tib" (Ascii.ascii_of_nat 98)), (Hno "g" (Ascii.ascii_of_nat 103)),
    (Hno "gib" (Ascii.ascii_of_nat 98)), (Hno "m" (Ascii.ascii_of_nat 109)),
    (Hno "mib" (Ascii.ascii_of_nat 98)), (Hno "k" (Ascii.ascii_of_nat 107)),
    (Hno "kib" (Ascii.ascii_of_nat 98)), (Hno "tb" (Ascii.ascii_of_nat 98)),
    (Hno "gb" (Ascii.ascii_of_nat 98)), (Hno "mb" (Ascii.ascii_of_nat 98)),
    (Hno "kb" (Ascii.ascii_of_nat 98)) by by_computing.
  done.
Qed.

Lemma decimal_ends_in_no_letter (s : string) :
  decimal s →
  Forall (λ c, endswith (lower s) (String c EmptyString) = false)
         (String.list_ascii_of_string "tgmkb").
Proof.
  intros Hdec. rewrite (lower_decimal s Hdec).
  assert (Hletters : Forall (λ c, c ∉ String.list_ascii_of_string "0123456789")
                            (String.list_ascii_of_string "tgmkb"))
    by by_computing.
  apply Forall_forall. intros c Hc.
  destruct (endswith s (String c EmptyString)) eqn:Hend; [|done].
  assert (Hin : c ∈ String.list_ascii_of_string s)
    by (eapply endswith_chars; [exact Hend | by left]).
  unfold decimal in Hdec. rewrite Forall_forall in Hdec, Hletters.
  destruct (Hletters c Hc (Hdec c Hin)).
Qed.

(** The text [123]. *)
Lemma parse_file_size_plain_witness :
  @parse_file_size Demo.demo_library "123" = Ok 123%Z.
Proof.
  apply (@parse_file_size_plain Demo.demo_library "123").
  apply decimal_ends_in_no_letter. by_computing.
Defined.

(** ** The configuration files *)

Section config_file_facts.
Context `{Library} `{RandomSource} `{ProgressPool}.

Lemma set_files_same (w : world) : set_files (files w) w = w.
Proof. by destruct w. Qed.

Lemma set_files_twice (f g : gmap string string) (w : world) :
  set_files f (set_files g w) = set_files f w.
Proof. done. Qed.

Lemma union_insert_present (m1 m2 : gmap string string) (i x : string) :
  is_Some (m1 !! i) → m1 ∪ <[i:=x]> m2 = m1 ∪ m2.
Proof.
  intros [y Hy]. apply map_eq. intros j. rewrite !lookup_union.
  destruct (decide (i = j)) as [<-|Hne].
  - rewrite Hy. by destruct (<[i:=x]> m2 !! i), (m2 !! i).
  - by rewrite lookup_insert_ne.
Qed.

(** The files after [create_missing] are the files before it, with the
    template of each name that had no file. *)
Lemma create_missing_run (todo : list (string * string)) (any : bool)
    (w : world) :
  create_missing todo any w =
  (set_files (files w ∪ list_to_map todo) w,
   Ok (any || negb (bool_decide
                      (Forall (λ name, is_Some (files w !! name)) todo.*1)))).
Proof.
  revert any w. induction todo as [|[name default] todo IH]; intros any w.
  - simpl. rewrite (right_id_L ∅ (∪)), set_files_same.
    by rewrite orb_false_r.
  - cbn [create_missing]. unfold mbind, SE_bind, create_exclusive.
    destruct (files w !! name) as [content|] eqn:Hname.
    + rewrite IH. simpl. rewrite union_insert_present by eauto.
      do 4 f_equal. apply bool_decide_ext. rewrite Forall_cons.
      rewrite Hname. split; [by split; [eexists|]|by intros [_ ?]].
    + rewrite IH. simpl. rewrite set_files_twice.
      rewrite <- insert_union_l. rewrite (insert_union_r _ _ _ _ Hname).
      rewrite (bool_decide_false (Forall _ (name :: _))).
      * by rewrite orb_true_r.
      * rewrite Forall_cons, Hname. by intros [[? [=]] _].
Qed.

Lemma make_config_files_run (w : world) :
  make_config_files w =
  (set_files
     (files w ∪ list_to_map (zip CONFIGS (CONFIG_TEMPLATES defaults_text))) w,
   if bool_decide (Forall (λ name, is_Some (files w !! name)) CONFIGS)
   then Ok ()
   else Raise (FileNotFoundError
          "Your configuration files have been created. Please fill them out.")).
Proof.
  unfold make_config_files, mbind, SE_bind. rewrite create_missing_run.
  change ((zip CONFIGS (CONFIG_TEMPLATES defaults_text)).*1) with CONFIGS.
  by destruct (bool_decide _).
Qed.

Lemma templates_cover (name : string) :
  name ∈ CONFIGS ↔
  is_Some ((list_to_map (zip CONFIGS (CONFIG_TEMPLATES defaults_text))
              : gmap string string) !! name).
Proof.
  split.
  - unfold CONFIGS, CONFIG_TEMPLATES. intros Hname.
    repeat (apply elem_of_cons in Hname as [->|Hname]; [by eexists|]).
    by apply elem_of_nil in Hname.
  - intros [c Hc]. destruct (decide (name ∈ CONFIGS)) as [|Hout]; [done|].
    rewrite not_elem_of_list_to_map_1 in Hc; [done|exact Hout].
Qed.

Lemma union_all_present (m1 m2 : gmap string string) :
  (∀ i, is_Some (m2 !! i) → is_Some (m1 !! i)) → m1 ∪ m2 = m1.
Proof.
  intros Hsub. apply map_eq. intros i. rewrite lookup_union.
  destruct (m1 !! i) as [c|] eqn:Hc; simpl.
  - by destruct (m2 !! i).
  - destruct (m2 !! i) as [d|] eqn:Hd; [|done].
    destruct (Hsub i) as [? ?]; [by eexists|congruence].
Qed.

(** X5: [make_config_files] never changes a file that is there, gives each
    of the four names that has no file its template, touches nothing else,
    and raises [FileNotFoundError] exactly where it had to create a file. *)
Theorem make_config_files_creates_what_is_missing (w : world) :
  let templates : gmap string string :=
    list_to_map (zip CONFIGS (CONFIG_TEMPLATES defaults_text)) in
  let w' := (make_config_files w).1 in
  w' = set_files (files w ∪ templates) w ∧
  (∀ name content,
      files w !! name = Some content → files w' !! name = Some content) ∧
  (∀ name, name ∉ CONFIGS → files w' !! name = files w !! name) ∧
  (∀ name, name ∈ CONFIGS → files w !! name = None →
      files w' !! name = templates !! name ∧ is_Some (templates !! name)) ∧
  (Forall (λ name, is_Some (files w !! name)) CONFIGS →
      make_config_files w = (w, Ok ())) ∧
  (¬ Forall (λ name, is_Some (files w !! name)) CONFIGS →
      ∃ msg, (make_config_files w).2 = Raise (FileNotFoundError msg)).
Proof.
  intros templates w'. unfold w'. rewrite make_config_files_run.
  cbn [fst snd files set_files]. fold templates. split_and!.
  - done.
  - intros name content Hname. by apply lookup_union_Some_l.
  - intros name Hname. rewrite lookup_union_l; [done|].
    apply eq_None_not_Some. intros Hsome. by apply Hname, templates_cover.
  - intros name Hname Hnone. rewrite lookup_union_r by done.
    split; [done|]. by apply templates_cover.
  - intros Hall. rewrite bool_decide_true by done.
    rewrite union_all_present; [by rewrite set_files_same|].
    intros name Hname. rewrite Forall_forall in Hall.
    by apply Hall, templates_cover.
  - intros Hsome. rewrite bool_decide_false by done. by eexists.
Qed.

(** X6: after [make_config_files], whatever it found, the four files are
    there, so that calling it again creates nothing and returns. *)
Theorem make_config_files_twice (w : world) :
  let w' := (make_config_files w).1 in
  Forall (λ name, is_Some (files w' !! name)) CONFIGS ∧
  make_config_files w' = (w', Ok ()).
Proof.
  intros w'.
  assert (Hall : Forall (λ name, is_Some (files w' !! name)) CONFIGS).
  { unfold w'. rewrite make_config_files_run. cbn [fst files set_files].
    apply Forall_forall. intros name Hname.
    apply templates_cover in Hname as [c Hc].
    destruct (files w !! name) as [d|] eqn:Hd.
    - exists d. by apply lookup_union_Some_l.
    - exists c. by rewrite lookup_union_r. }
  split; [exact Hall|].
  rewrite (make_config_files_run w'), bool_decide_true by done.
  rewrite union_all_present; [by rewrite set_files_same|].
  intros name Hname. rewrite Forall_forall in Hall.
  by apply Hall, templates_cover.
Qed.

End config_file_facts.

(** ** The partition at its edges *)

Section partition_edges.
Local Open Scope Z_scope.

(** X7: the number of positions that lines 216-217 give machine [i] differs
    from its exact proportional share [w * L / TOTAL] by less than one: it
    is that quotient rounded down, or one more. *)
Theorem partition_share_is_fair (W : list Z) (L : Z) (i : nat) (w : Z) :
  0 < sum W → W !! i = Some w →
  ∃ START STOP,
    START_of W L (Z.of_nat i) = Ok START ∧
    STOP_of W L (Z.of_nat i) = Ok STOP ∧
    w * L - sum W < (STOP - START) * sum W < w * L + sum W ∧
    w * L / sum W ≤ STOP - START ≤ w * L / sum W + 1.
Proof.
  intros HT Hw.
  pose proof (lookup_lt_Some _ _ _ Hw) as Hi.
  exists (sum (take i W) * L / sum W), (sum (take (S i) W) * L / sum W).
  rewrite START_of_share, STOP_of_share by (done || lia).
  rewrite (sum_take_S _ _ _ Hw).
  set (T := sum W) in *. set (x := sum (take i W) * L).
  replace ((sum (take i W) + w) * L) with (x + w * L) by (unfold x; lia).
  set (y := w * L).
  pose proof (Z.mul_div_le x T HT). pose proof (Z.mul_succ_div_gt x T HT).
  pose proof (Z.mul_div_le (x + y) T HT).
  pose proof (Z.mul_succ_div_gt (x + y) T HT).
  pose proof (Z.mul_div_le y T HT). pose proof (Z.mul_succ_div_gt y T HT).
  split_and!; [done | done | nia | nia | nia | nia].
Qed.

Lemma partition_share_is_fair_witness :
  ∃ START STOP,
    START_of [2; 0; 6] 10 1 = Ok START ∧
    STOP_of [2; 0; 6] 10 1 = Ok STOP ∧
    0 * 10 - 8 < (STOP - START) * 8 < 0 * 10 + 8 ∧
    0 * 10 / 8 ≤ STOP - START ≤ 0 * 10 / 8 + 1.
Proof.
  apply (partition_share_is_fair [2; 0; 6] 10 1 0); [reflexivity | reflexivity].
Defined.

(** X8: an identity from [-len(names)] to [-2] is taken from the end of the
    roster, as Python's indices are: the machine is greeted by the name and
    keeps the slice of the machine [len(names) + ID]. *)
Theorem negative_identity_counts_from_the_end {A} (machines : roster)
    (L ID : Z) (indexed_set : list A) :
  let n := Z.of_nat (length machines) in
  - n ≤ ID ≤ -2 →
  select_partition (weights_of machines) L (Some ID) indexed_set =
    select_partition (weights_of machines) L (Some (n + ID)) indexed_set ∧
  index (names_of machines) ID = index (names_of machines) (n + ID).
Proof.
  intros n HID. split.
  - unfold select_partition, START_of, STOP_of, slice_to, clamp.
    replace (Z.of_nat (length (weights_of machines))) with n
      by (unfold weights_of; by rewrite length_fmap).
    destruct (Z.ltb_spec ID 0), (Z.ltb_spec (n + ID) 0),
      (Z.ltb_spec (ID + 1) 0), (Z.ltb_spec (n + ID + 1) 0); try lia.
    by replace (Z.max 0 (n + ID)) with (Z.min (n + ID) n) by lia;
       replace (Z.max 0 (n + (ID + 1))) with (Z.min (n + ID + 1) n) by lia.
  - unfold index.
    replace (Z.of_nat (length (names_of machines))) with n
      by (unfold names_of; by rewrite length_fmap).
    destruct (Z.ltb_spec ID 0), (Z.ltb_spec (n + ID) 0); try lia.
    destruct (Z.ltb_spec (n + ID) 0); [lia | done].
Qed.

Lemma negative_identity_counts_from_the_end_witness :
  select_partition (weights_of Demo.uneven_roster) 8 (Some (-2)) (seq 0 8) =
    select_partition (weights_of Demo.uneven_roster) 8 (Some (2 + -2))
                     (seq 0 8) ∧
  index (names_of Demo.uneven_roster) (-2) =
    index (names_of Demo.uneven_roster) (2 + -2).
Proof.
  apply (negative_identity_counts_from_the_end Demo.uneven_roster 8 (-2)).
  simpl. lia.
Defined.

(** X9: the identity [-1] is the exception: the machine is greeted by the
    last name of the roster, but [weights[:ID + 1]] is [weights[:0]], so
    that [STOP] is 0 and the machine keeps no job at all. *)
Theorem identity_minus_one_is_given_nothing {A} (machines : roster) (L : Z)
    (indexed_set : list A) :
  sum (weights_of machines) ≠ 0 →
  ∃ START name,
    select_partition (weights_of machines) L (Some (-1)) indexed_set =
      Ok ([], START, 0) ∧
    last (names_of machines) = Some name ∧
    index (names_of machines) (-1) = Ok name.
Proof.
  intros HT.
  destruct (last (names_of machines)) as [name|] eqn:Hlast; last first.
  { apply last_None in Hlast. apply fmap_nil_inv in Hlast as ->. done. }
  exists (sum (slice_to (weights_of machines) (-1)) * L
          / sum (weights_of machines)), name.
  split_and!; [|done|].
  - unfold select_partition, START_of, STOP_of, floordiv.
    destruct (Z.eqb_spec (sum (weights_of machines)) 0); [done|].
    assert (slice_to (weights_of machines) (-1 + 1) = []) as ->.
    { unfold slice_to, clamp. simpl.
      by replace (Z.to_nat _) with 0%nat by lia. }
    simpl. rewrite Z.div_0_l by done. do 3 f_equal.
    unfold slice. set (len := Z.of_nat (length indexed_set)).
    assert (clamp len 0 = 0) as -> by (unfold clamp; simpl; lia).
    set (START := sum (slice_to (weights_of machines) (-1)) * L
                  / sum (weights_of machines)).
    assert (0 ≤ clamp len START)
      by (unfold clamp; destruct (Z.ltb_spec START 0); lia).
    by replace (Z.to_nat (0 - clamp len START)) with 0%nat by lia.
  - unfold index. simpl. rewrite last_lookup in Hlast.
    destruct (Z.ltb_spec (Z.of_nat (length (names_of machines)) + -1) 0)
      as [Hneg|Hpos].
    + destruct (names_of machines); simpl in *; [done | lia].
    + replace (Z.to_nat _) with (pred (length (names_of machines))) by lia.
      by rewrite Hlast.
Qed.

Lemma identity_minus_one_is_given_nothing_witness :
  ∃ START name,
    select_partition (weights_of Demo.uneven_roster) 8 (Some (-1)) (seq 0 8) =
      Ok ([], START, 0) ∧
    last (names_of Demo.uneven_roster) = Some name ∧
    index (names_of Demo.uneven_roster) (-1) = Ok name.
Proof.
  apply (identity_minus_one_is_given_nothing Demo.uneven_roster 8 (seq 0 8)).
  vm_compute. discriminate.
Defined.

End partition_edges.

(** ** The two dialogues with the operator *)

Section dialogue_facts.
Context `{Library} `{RandomSource} `{ProgressPool}.

Lemma identity_loop_skips (dialog : prompt) (junk rest : list string)
    (w : world) :
  Forall (λ r, r ≠ "N/A" ∧ int_of_string r = None) junk →
  stdin w = junk ++ rest →
  identity_loop dialog (junk ++ rest) w =
  identity_loop dialog rest
    {| files := files w; stdin := rest;
       stdout := stdout w ++ replicate (length junk) dialog;
       log := log w; clock := clock w; now := now w;
       submitted := submitted w;
       heap := heap w |}.
Proof.
  intros Hjunk. revert w. induction Hjunk as [|r junk [Hna Hint] _ IH];
    intros w Hin.
  - destruct w. simpl in *. subst. by rewrite app_nil_r.
  - cbn [app identity_loop]. rewrite bool_decide_false, Hint by done.
    rewrite IH by done. simpl. by rewrite <- app_assoc.
Qed.

(** X10: the question "Which node am I?" is repeated for as long as the
    answer is neither [N/A] nor an integer; the first answer that is one of
    the two decides, is logged, and leaves the rest of the input unread; at
    the end of the input [input] raises [EOFError]. *)
Theorem ask_identity_skips_invalid_answers (dialog : prompt)
    (junk : list string) (w : world) :
  Forall (λ r, r ≠ "N/A" ∧ int_of_string r = None) junk →
  let asked rest entries :=
    {| files := files w; stdin := rest;
       stdout := stdout w ++ replicate (S (length junk)) dialog;
       log := log w ++ entries; clock := clock w; now := now w;
       submitted := submitted w;
       heap := heap w |} in
  (∀ rest, stdin w = junk ++ "N/A" :: rest →
     ask_identity dialog w = (asked rest [WithoutID], Ok None)) ∧
  (∀ resp ID rest, stdin w = junk ++ resp :: rest → resp ≠ "N/A" →
     int_of_string resp = Some ID →
     ask_identity dialog w = (asked rest [InstantiatedAs ID], Ok (Some ID))) ∧
  (stdin w = junk →
     ask_identity dialog w = (asked [] [], Raise EOFError)).
Proof.
  intros Hjunk asked. unfold ask_identity, asked.
  assert (Hlast : replicate (S (length junk)) dialog =
                  replicate (length junk) dialog ++ [dialog]).
  { clear. induction junk as [|r junk IH]; [done|].
    simpl in *. by rewrite <- IH. }
  rewrite Hlast, app_assoc. split_and!.
  - intros rest Hin. rewrite Hin, identity_loop_skips by done. done.
  - intros resp ID rest Hin Hna Hint.
    rewrite Hin, identity_loop_skips by done.
    cbn [identity_loop]. by rewrite bool_decide_false, Hint by done.
  - intros Hin. rewrite Hin. rewrite <- (app_nil_r junk) at 1.
    rewrite identity_loop_skips by (done || by rewrite app_nil_r).
    simpl. by rewrite app_nil_r.
Qed.

Lemma confirm_loop_skips (question : prompt) (junk rest : list string)
    (w : world) :
  Forall (λ r, startswith (lower r) "y" = false ∧
               startswith (lower r) "n" = false) junk →
  stdin w = junk ++ rest →
  confirm_loop question (junk ++ rest) w =
  confirm_loop question rest
    {| files := files w; stdin := rest;
       stdout := stdout w ++ replicate (length junk) question;
       log := log w; clock := clock w; now := now w;
       submitted := submitted w;
       heap := heap w |}.
Proof.
  intros Hjunk. revert w. induction Hjunk as [|r junk [Hy Hn] _ IH];
    intros w Hin.
  - destruct w. simpl in *. subst. by rewrite app_nil_r.
  - cbn [app confirm_loop]. rewrite Hy, Hn.
    rewrite IH by done. simpl. by rewrite <- app_assoc.
Qed.

Lemma startswith_y_not_n (s : string) :
  startswith s "y" = true → startswith s "n" = false.
Proof.
  unfold startswith. destruct s as [|c s]; [done|]. cbn [String.prefix].
  destruct (Ascii.ascii_dec _ c) as [<-|]; done.
Qed.

(** X11: the question "Please verify" is repeated for as long as the answer
    starts with neither [y] nor [n], in either case of the letter; the first
    answer that does decides: [y] lets the run go on, [n] ends the process
    with status 1, and the end of the input raises [EOFError].  Nothing but
    the dialogue changes. *)
Theorem confirm_asks_until_decided (question : prompt) (junk : list string)
    (w : world) :
  Forall (λ r, startswith (lower r) "y" = false ∧
               startswith (lower r) "n" = false) junk →
  let asked rest :=
    {| files := files w; stdin := rest;
       stdout := stdout w ++ replicate (S (length junk)) question;
       log := log w; clock := clock w; now := now w;
       submitted := submitted w;
       heap := heap w |} in
  (∀ resp rest, stdin w = junk ++ resp :: rest →
     startswith (lower resp) "y" = true →
     confirm question w = (asked rest, Ok ())) ∧
  (∀ resp rest, stdin w = junk ++ resp :: rest →
     startswith (lower resp) "n" = true →
     confirm question w = (asked rest, Raise (SystemExit 1))) ∧
  (stdin w = junk →
     confirm question w = (asked [], Raise EOFError)).
Proof.
  intros Hjunk asked. unfold confirm, asked.
  assert (Hlast : replicate (S (length junk)) question =
                  replicate (length junk) question ++ [question]).
  { clear. induction junk as [|r junk IH]; [done|].
    simpl in *. by rewrite <- IH. }
  rewrite Hlast, app_assoc. split_and!.
  - intros resp rest Hin Hy. rewrite Hin, confirm_loop_skips by done.
    cbn [confirm_loop]. by rewrite (startswith_y_not_n _ Hy), Hy.
  - intros resp rest Hin Hn. rewrite Hin, confirm_loop_skips by done.
    cbn [confirm_loop]. by rewrite Hn.
  - intros Hin. rewrite Hin. rewrite <- (app_nil_r junk) at 1.
    by rewrite confirm_loop_skips by (done || by rewrite app_nil_r).
Qed.

End dialogue_facts.

Lemma ask_identity_skips_invalid_answers_witness :
  (ask_identity (H:=Demo.demo_library) (H0:=Demo.demo_random)
     (WhichNode ["A"; "B"]) (Demo.demo_world ∅ ["me"; "n/a"; "1"; "y"] 7)).2 =
  Ok (Some 1%Z).
Proof.
  destruct (ask_identity_skips_invalid_answers
              (H:=Demo.demo_library) (H0:=Demo.demo_random)
              (WhichNode ["A"; "B"]) ["me"; "n/a"]
              (Demo.demo_world ∅ ["me"; "n/a"; "1"; "y"] 7))
    as (_ & Hint & _).
  - repeat constructor; done.
  - by rewrite (Hint "1" 1%Z ["y"] eq_refl ltac:(done) eq_refl).
Defined.

Lemma confirm_asks_until_decided_witness :
  (confirm (H:=Demo.demo_library) (H0:=Demo.demo_random)
     (PleaseVerify "A" "00" 2 0 1 4)
     (Demo.demo_world ∅ ["maybe"; ""; "No"; "y"] 7)).2 = Raise (SystemExit 1).
Proof.
  destruct (confirm_asks_until_decided
              (H:=Demo.demo_library) (H0:=Demo.demo_random)
              (PleaseVerify "A" "00" 2 0 1 4) ["maybe"; ""]
              (Demo.demo_world ∅ ["maybe"; ""; "No"; "y"] 7))
    as (_ & Hno & _).
  - repeat constructor; done.
  - by rewrite (Hno "No" ["y"] eq_refl eq_refl).
Defined.

(** ** From the identity to the plan *)

Section prepare_facts.
Context `{Library} `{RandomSource} `{ProgressPool}.

(** Lines 201-236 in one expression: where each step can raise, and the
    world at that point. *)
Lemma prepare_unfold (machines : roster) (c : config) (ID : option Z)
    (ws : list (list value)) (o : option bytes) (w : world) :
  prepare machines c ID ws o w =
  let lw := Z.of_nat (length ws) in
  match get_entropy [ws] w with
  | (_, Raise e) => (w, Raise e)
  | (_, Ok entropy) =>
      let w1 :=
        set_log (log w ++ EntropyIs entropy ::
                   if seed_is_override o
                   then [UsingOverrideSeed (seed_of o entropy)] else []) w in
      match arrange (weights_of machines) ID c ws o entropy with
      | Raise e => (w1, Raise e)
      | Ok (indexed_set, START, STOP) =>
          let count := Z.of_nat (length indexed_set) in
          match match ID with
                | None => Ok "N/A"
                | Some ID => index (names_of machines) ID
                end with
          | Raise e => (w1, Raise e)
          | Ok who =>
              match confirm (PleaseVerify who entropy count START (STOP - 1)
                                          lw) w1 with
              | (w2, Raise e) => (w2, Raise e)
              | (w2, Ok _) =>
                  match match ID with
                        | None => Ok cpu_count
                        | Some _ => m ← lookup_machine machines who; Ok m.2
                        end with
                  | Raise e => (w2, Raise e)
                  | Ok num_cores =>
                      (set_log (log w2 ++ [JobsQueued count START (STOP - 1) lw;
                                           WorkerCores num_cores]) w2,
                       Ok {| plan_config := c; plan_ID := ID;
                             plan_entropy := entropy;
                             plan_indexed_set := indexed_set;
                             plan_START := START; plan_STOP := STOP;
                             plan_lw := lw; plan_num_cores := num_cores |})
                  end
              end
          end
      end
  end.
Proof.
  unfold prepare. cbv zeta. unfold mbind at 1, SE_bind at 1.
  destruct (get_entropy [ws] w) as [w0 [entropy|e]] eqn:He;
    apply get_entropy_inv in He as ->; [|done].
  unfold mbind, SE_bind, logger, lift, mret, SE_ret.
  destruct (seed_is_override o); simpl;
    (destruct (arrange _ _ _ _ _ _) as [[[indexed_set START] STOP]|e];
     simpl; [|by rewrite <- ?app_assoc]);
    (destruct (match ID with
               | Some ID0 => index (names_of machines) ID0
               | None => Ok "N/A"
               end) as [who|e]; simpl; [|by rewrite <- ?app_assoc]);
    rewrite <- ?app_assoc; simpl;
    (destruct (confirm _ _) as [w2 [[]|e]]; simpl; [|done]);
    (destruct (match ID with
               | Some _ => _
               | None => Ok cpu_count
               end) as [num_cores|e]; simpl; [|done]);
    by rewrite <- ?app_assoc.
Qed.

Lemma get_entropy_present (extras : list (list (list value))) (w : world) :
  Forall (λ name, is_Some (files w !! name)) CONFIGS →
  ∃ entropy, get_entropy extras w = (w, Ok entropy).
Proof.
  unfold CONFIGS. rewrite !Forall_cons.
  intros ([a Ha] & [b Hb] & [d Hd] & [e He] & _).
  eexists. by apply get_entropy_formula.
Qed.

Lemma arrange_Ok (weights : list Z) (ID : option Z) (c : config)
    (ws : list (list value)) (o : option bytes) (entropy : bytes) :
  randbelow_in_range → (ID = None ∨ sum weights ≠ 0%Z) →
  ∃ indexed_set START STOP,
    arrange weights ID c ws o entropy = Ok (indexed_set, START, STOP) ∧
    (ID = None →
     indexed_set ≡ₚ index_working_set ws (Random (seed_of o entropy)) c ∧
     START = 0%Z ∧ STOP = Z.of_nat (length ws)).
Proof.
  intros Hlaw HID. unfold arrange.
  destruct (shuffled_indexed_set_Ok c ws o entropy Hlaw) as [x Hx].
  rewrite Hx. simpl. destruct ID as [ID|]; simpl.
  - destruct HID as [|HT]; [done|]. unfold START_of, STOP_of, floordiv.
    destruct (Z.eqb_spec (sum weights) 0); [done|]. simpl.
    do 3 eexists. split; [reflexivity | done].
  - do 3 eexists. split; [done|]. intros _.
    split; [by apply shuffled_indexed_set_perm|done].
Qed.

(** X12: an answer that starts with [n] to "Please verify" ends the run
    before anything has happened: the run raises, no file is written, the
    clock is not read and the pool is given nothing.  Where the four files
    are read, the set is arranged and the machine has a name, what it
    raises is [SystemExit(1)], and the input after the answer is left
    unread. *)
Theorem refusal_ends_the_run {T : Type}
    (job : job_args → outcome (option (list value)))
    (setup_function : config → outcome unit)
    (parse_function : config → list (cell value time) → outcome unit)
    (reduce_function : T → option (list value) → outcome T)
    (machines : roster) (c : config) (ID : option Z) (ws : list (list value))
    (reduce_start : T) (o : option bytes)
    (junk : list string) (resp : string) (rest : list string) (w : world) :
  Forall (λ r, startswith (lower r) "y" = false ∧
               startswith (lower r) "n" = false) junk →
  stdin w = junk ++ resp :: rest →
  startswith (lower resp) "n" = true →
  ∃ w' e,
    run_as job setup_function parse_function reduce_function machines c ID
           ws reduce_start o w = (w', Raise e) ∧
    files w' = files w ∧ submitted w' = submitted w ∧ now w' = now w ∧
    (e = SystemExit 1 ∨ stdout w' = stdout w) ∧
    (∀ entropy part who,
        get_entropy [ws] w = (w, Ok entropy) →
        arrange (weights_of machines) ID c ws o entropy = Ok part →
        match ID with
        | None => Ok "N/A"
        | Some ID => index (names_of machines) ID
        end = Ok who →
        e = SystemExit 1 ∧ stdin w' = rest).
Proof.
  intros Hjunk Hin Hn. unfold run_as. unfold mbind at 1, SE_bind at 1.
  rewrite prepare_unfold. cbv zeta.
  destruct (get_entropy [ws] w) as [w0 [entropy|e]] eqn:He.
  2: { exists w, e. apply get_entropy_inv in He as ->.
       split_and!; auto. intros ??? [=]. }
  apply get_entropy_inv in He as ->.
  destruct (arrange _ _ _ _ _ _) as [[[indexed_set START] STOP]|e] eqn:Ha.
  2: { eexists _, e. split_and!; [done..| by right |].
       intros ??? [= <-] Hpart. congruence. }
  destruct (match ID with
            | Some ID0 => index (names_of machines) ID0
            | None => Ok "N/A"
            end) as [who|e] eqn:Hwho.
  2: { eexists _, e. split_and!; [done..| by right |]. intros ??? _ _ [=]. }
  unfold confirm. cbn [stdin set_log]. rewrite Hin.
  rewrite confirm_loop_skips by done. cbn [confirm_loop]. rewrite Hn.
  eexists _, _. split_and!; [done..| by left |]. done.
Qed.

(** X13: without an identity the roster plays no part: whatever the
    machines and their weights are, once the operator has agreed the plan
    holds every job of the working set, in the shuffled order, with the
    bounds 0 and [len(working_set)], and the pool gets [cpu_count()]
    workers. *)
Theorem without_identity_everything_is_planned
    (machines : roster) (c : config) (ws : list (list value))
    (o : option bytes) (junk : list string) (resp : string)
    (rest : list string) (w : world) :
  randbelow_in_range →
  Forall (λ name, is_Some (files w !! name)) CONFIGS →
  Forall (λ r, startswith (lower r) "y" = false ∧
               startswith (lower r) "n" = false) junk →
  stdin w = junk ++ resp :: rest →
  startswith (lower resp) "y" = true →
  ∃ w' p,
    prepare machines c None ws o w = (w', Ok p) ∧
    get_entropy [ws] w = (w, Ok (plan_entropy p)) ∧
    plan_indexed_set p ≡ₚ
      index_working_set ws (Random (seed_of o (plan_entropy p))) c ∧
    plan_START p = 0%Z ∧ plan_STOP p = Z.of_nat (length ws) ∧
    plan_num_cores p = cpu_count ∧
    stdin w' = rest ∧ files w' = files w ∧ submitted w' = submitted w ∧
    PleaseVerify "N/A" (plan_entropy p) (Z.of_nat (length ws)) 0
                 (Z.of_nat (length ws) - 1) (Z.of_nat (length ws))
      ∈ stdout w'.
Proof.
  intros Hlaw Hfiles Hjunk Hin Hy.
  destruct (get_entropy_present [ws] w Hfiles) as [entropy He].
  destruct (arrange_Ok (weights_of machines) None c ws o entropy Hlaw)
    as (indexed_set & START & STOP & Ha & Hall); [by left|].
  destruct (Hall eq_refl) as (Hperm & -> & ->).
  rewrite prepare_unfold. cbv zeta. rewrite He, Ha.
  unfold confirm. cbn [stdin set_log]. rewrite Hin.
  rewrite confirm_loop_skips by done. cbn [confirm_loop].
  rewrite (startswith_y_not_n _ Hy), Hy.
  eexists _, _. split; [reflexivity|]. cbn.
  split_and!; try done.
  assert (length indexed_set = length ws) as ->.
  { rewrite Hperm. unfold index_working_set. by rewrite length_imap. }
  apply elem_of_app; right. by constructor.
Qed.

(** X14: an identity beyond the roster, on either side, is found out at
    line 227, where the question to the operator is put together:
    [names[ID]] raises [IndexError] before anything is asked. *)
Theorem identity_beyond_the_roster
    (machines : roster) (c : config) (ID : Z) (ws : list (list value))
    (o : option bytes) (w : world) :
  randbelow_in_range →
  Forall (λ name, is_Some (files w !! name)) CONFIGS →
  sum (weights_of machines) ≠ 0%Z →
  (Z.of_nat (length machines) ≤ ID ∨ ID < - Z.of_nat (length machines))%Z →
  ∃ w',
    prepare machines c (Some ID) ws o w = (w', Raise IndexError) ∧
    stdout w' = stdout w ∧ stdin w' = stdin w ∧ files w' = files w ∧
    submitted w' = submitted w.
Proof.
  intros Hlaw Hfiles HT HID.
  destruct (get_entropy_present [ws] w Hfiles) as [entropy He].
  destruct (arrange_Ok (weights_of machines) (Some ID) c ws o entropy Hlaw)
    as (indexed_set & START & STOP & Ha & _); [by right|].
  rewrite prepare_unfold. cbv zeta. rewrite He, Ha.
  assert (index (names_of machines) ID = Raise IndexError) as ->.
  { unfold index.
    assert (length (names_of machines) = length machines) as ->
      by (unfold names_of; by rewrite length_fmap).
    destruct (Z.ltb_spec ID 0).
    - destruct (Z.ltb_spec (Z.of_nat (length machines) + ID) 0); [done|lia].
    - destruct (Z.ltb_spec ID 0); [lia|].
      rewrite lookup_ge_None_2; [done|].
      unfold names_of. rewrite length_fmap. lia. }
  by eexists.
Qed.

Lemma lookup_machine_at (machines : roster) (i : nat) (name : string)
    (m : Z * Z) :
  NoDup (names_of machines) → machines !! i = Some (name, m) →
  lookup_machine machines name = Ok m.
Proof.
  intros Hnd Hi. unfold lookup_machine.
  assert (Hfind : list_find (λ m, m.1 = name) machines = Some (i, (name, m))).
  { apply list_find_Some. split_and!; [done | done |].
    intros j [k v] Hj Hlt Hk. simpl in Hk. subst k.
    assert (j = i); [|lia].
    apply (NoDup_lookup _ _ _ name Hnd); unfold names_of.
    - rewrite list_lookup_fmap. by rewrite Hj.
    - rewrite list_lookup_fmap. exact (f_equal (fmap fst) Hi). }
  by rewrite Hfind.
Qed.

(** X15: a machine within the roster, once the operator has agreed, is
    greeted by its own name, is given the slice of the shuffled set between
    its two bounds, and its pool gets the number of threads that the roster
    lists for it. *)
Theorem indexed_machine_uses_its_own_cores
    (machines : roster) (c : config) (i : nat) (name : string)
    (weight threads : Z) (ws : list (list value))
    (o : option bytes) (junk : list string) (resp : string)
    (rest : list string) (w : world) :
  randbelow_in_range →
  Forall (λ name, is_Some (files w !! name)) CONFIGS →
  sum (weights_of machines) ≠ 0%Z →
  NoDup (names_of machines) →
  machines !! i = Some (name, (weight, threads)) →
  Forall (λ r, startswith (lower r) "y" = false ∧
               startswith (lower r) "n" = false) junk →
  stdin w = junk ++ resp :: rest →
  startswith (lower resp) "y" = true →
  ∃ w' p shuffled,
    prepare machines c (Some (Z.of_nat i)) ws o w = (w', Ok p) ∧
    shuffled_indexed_set c ws o (plan_entropy p) = Ok shuffled ∧
    plan_indexed_set p = slice shuffled (plan_START p) (plan_STOP p) ∧
    START_of (weights_of machines) (Z.of_nat (length ws)) (Z.of_nat i) =
      Ok (plan_START p) ∧
    STOP_of (weights_of machines) (Z.of_nat (length ws)) (Z.of_nat i) =
      Ok (plan_STOP p) ∧
    plan_num_cores p = threads ∧
    WorkerCores threads ∈ log w' ∧
    PleaseVerify name (plan_entropy p)
                 (Z.of_nat (length (plan_indexed_set p))) (plan_START p)
                 (plan_STOP p - 1) (Z.of_nat (length ws)) ∈ stdout w' ∧
    stdin w' = rest ∧ files w' = files w ∧ submitted w' = submitted w.
Proof.
  intros Hlaw Hfiles HT Hnd Hi Hjunk Hin Hy.
  destruct (get_entropy_present [ws] w Hfiles) as [entropy He].
  destruct (shuffled_indexed_set_Ok c ws o entropy Hlaw) as [shuffled Hs].
  assert (Harr : ∃ START STOP,
    START_of (weights_of machines) (Z.of_nat (length ws)) (Z.of_nat i) =
      Ok START ∧
    STOP_of (weights_of machines) (Z.of_nat (length ws)) (Z.of_nat i) =
      Ok STOP ∧
    arrange (weights_of machines) (Some (Z.of_nat i)) c ws o entropy =
      Ok (slice shuffled START STOP, START, STOP)).
  { unfold arrange, select_partition, START_of, STOP_of, floordiv.
    rewrite Hs. destruct (Z.eqb_spec (sum (weights_of machines)) 0); [done|].
    simpl. by eauto. }
  destruct Harr as (START & STOP & Hstart & Hstop & Ha).
  assert (Hwho : index (names_of machines) (Z.of_nat i) = Ok name).
  { unfold index. destruct (Z.ltb_spec (Z.of_nat i) 0); [lia|].
    destruct (Z.ltb_spec (Z.of_nat i) 0); [lia|].
    unfold names_of. rewrite Nat2Z.id, list_lookup_fmap.
    by rewrite (f_equal (fmap fst) Hi : fst <$> _ !! i = Some name). }
  rewrite prepare_unfold. cbv zeta. rewrite He, Ha, Hwho.
  unfold confirm. cbn [stdin set_log]. rewrite Hin.
  rewrite confirm_loop_skips by done. cbn [confirm_loop].
  rewrite (startswith_y_not_n _ Hy), Hy.
  rewrite (lookup_machine_at machines i name (weight, threads) Hnd Hi).
  eexists _, _, shuffled. split; [reflexivity|]. cbn.
  split_and!; try done.
  - apply elem_of_app; right. by do 2 constructor.
  - apply elem_of_app; right. by constructor.
Qed.

End prepare_facts.

Lemma refusal_ends_the_run_witness :
  let w := Demo.demo_world
             (Demo.demo_files Demo.uneven_roster "a,b" Demo.all_columns)
             ["maybe"; "no"; "y"] 7 in
  ∃ w' e,
    run_as (H:=Demo.demo_library) (H0:=Demo.demo_random) (H1:=Demo.demo_pool)
           Demo.squares Demo.no_setup Demo.no_parse Demo.adding
           Demo.uneven_roster Demo.every_column (Some 1%Z) Demo.four_jobs
           0%Z None w = (w', Raise e) ∧
    submitted w' = [] ∧ now w' = 0.
Proof.
  intros w.
  destruct (refusal_ends_the_run
              (H:=Demo.demo_library) (H0:=Demo.demo_random)
              (H1:=Demo.demo_pool)
              Demo.squares Demo.no_setup Demo.no_parse Demo.adding
              Demo.uneven_roster Demo.every_column (Some 1%Z) Demo.four_jobs
              0%Z None ["maybe"] "no" ["y"] w)
    as (w' & e & Hrun & _ & Hsub & Hnow & _).
  - repeat constructor; done.
  - reflexivity.
  - reflexivity.
  - exists w', e. split_and!; [exact Hrun | exact Hsub | exact Hnow].
Defined.

Lemma demo_files_present (machines : roster) (header runner : string)
    (answers : list string) :
  Forall (λ name,
            is_Some (files (Demo.demo_world
                              (Demo.demo_files machines header runner)
                              answers 7) !! name)) CONFIGS.
Proof. repeat constructor; by eexists. Qed.

Lemma without_identity_everything_is_planned_witness :
  let w := Demo.demo_world
             (Demo.demo_files Demo.idle_roster "a,b" Demo.all_columns)
             ["?"; "Yes"] 7 in
  ∃ w' p,
    prepare (H:=Demo.demo_library) (H0:=Demo.demo_random)
            Demo.idle_roster Demo.every_column None Demo.four_jobs None w =
      (w', Ok p) ∧
    plan_START p = 0%Z ∧ plan_STOP p = 4%Z ∧ plan_num_cores p = 8%Z.
Proof.
  intros w.
  destruct (without_identity_everything_is_planned
              (H:=Demo.demo_library) (H0:=Demo.demo_random)
              Demo.idle_roster Demo.every_column Demo.four_jobs None
              ["?"] "Yes" [] w demo_randbelow_in_range)
    as (w' & p & Hrun & _ & _ & Hstart & Hstop & Hcores & _).
  - apply demo_files_present.
  - repeat constructor; done.
  - reflexivity.
  - reflexivity.
  - exists w', p. split_and!; [exact Hrun | exact Hstart | exact Hstop
                              | exact Hcores].
Defined.

Lemma identity_beyond_the_roster_witness :
  let w := Demo.demo_world
             (Demo.demo_files Demo.uneven_roster "a,b" Demo.all_columns)
             ["y"] 7 in
  ∃ w',
    prepare (H:=Demo.demo_library) (H0:=Demo.demo_random)
            Demo.uneven_roster Demo.every_column (Some 2%Z) Demo.four_jobs
            None w = (w', Raise IndexError) ∧
    stdout w' = [] ∧ stdin w' = ["y"].
Proof.
  intros w.
  destruct (identity_beyond_the_roster
              (H:=Demo.demo_library) (H0:=Demo.demo_random)
              Demo.uneven_roster Demo.every_column 2%Z Demo.four_jobs None w
              demo_randbelow_in_range)
    as (w' & Hrun & Hout & Hin & _).
  - apply demo_files_present.
  - vm_compute. discriminate.
  - left. simpl. lia.
  - exists w'. split_and!; [exact Hrun | exact Hout | exact Hin].
Defined.

Lemma indexed_machine_uses_its_own_cores_witness :
  let w := Demo.demo_world
             (Demo.demo_files Demo.uneven_roster "a,b" Demo.all_columns)
             ["y"] 7 in
  ∃ w' p,
    prepare (H:=Demo.demo_library) (H0:=Demo.demo_random)
            Demo.uneven_roster Demo.every_column (Some 1%Z) Demo.four_jobs
            None w = (w', Ok p) ∧
    plan_num_cores p = 2%Z ∧
    START_of [2; 6]%Z 4 1 = Ok (plan_START p) ∧
    STOP_of [2; 6]%Z 4 1 = Ok (plan_STOP p).
Proof.
  intros w.
  destruct (indexed_machine_uses_its_own_cores
              (H:=Demo.demo_library) (H0:=Demo.demo_random)
              Demo.uneven_roster Demo.every_column 1 "B" 3%Z 2%Z
              Demo.four_jobs None [] "y" [] w demo_randbelow_in_range)
    as (w' & p & shuffled & Hrun & _ & _ & Hstart & Hstop & Hcores & _).
  - apply demo_files_present.
  - vm_compute. discriminate.
  - apply (@bool_decide_unpack _ (NoDup_dec _)). vm_compute. exact I.
  - reflexivity.
  - constructor.
  - reflexivity.
  - reflexivity.
  - exists w', p. split_and!; [exact Hrun | exact Hcores | exact Hstart
                              | exact Hstop].
Defined.

(** ** What the run returns, and what ends it *)

Section run_facts.
Context `{Library} `{RandomSource} `{ProgressPool} {T : Type}.
Context (job : job_args → outcome (option (list value))).
Context (setup_function : config → outcome unit).
Context (parse_function : config → list (cell value time) → outcome unit).
Context (reduce_function : T → option (list value) → outcome T).

(** Lines 238-250, where the setup returns and the header file is there
    and decodes: the world in which the loop starts. *)
Lemma execute_unfold (reduce_start : T) (p : plan) (w : world)
    (content header : string) :
  setup_function (plan_config p) = Ok () →
  files w !! CSV_HEADER = Some content →
  decode content = Ok header →
  execute job setup_function parse_function reduce_function reduce_start p w =
  consume job parse_function reduce_function (plan_config p) (plan_lw p)
    (clock w (now w)) (arrival _ (plan_indexed_set p)) 1%Z reduce_start
    (clock w (now w))
    {| files := <[RESULTS_CSV:=header +:+ newline]> (files w);
       stdin := stdin w; stdout := stdout w; log := log w; clock := clock w;
       now := S (now w);
       submitted := submitted w ++ [plan_indexed_set p];
       heap := heap w |}.
Proof.
  intros Hsetup Hheader Hdecode. unfold execute. rewrite Hsetup.
  unfold lift, time_now, write, read_text, read, istarmap_unordered, mbind,
    SE_bind, set_files, set_now, set_submitted.
  simpl. rewrite lookup_insert_ne by done. rewrite Hheader.
  simpl. rewrite Hdecode. simpl. by rewrite insert_insert_eq.
Qed.

Lemma consume_fold (f : T → option (list value) → T) (c : config) (lw : Z)
    (start_time : time) (pending : list indexed_job) :
  (∀ j, j ∈ pending → ∃ result, job j.2 = Ok result) →
  (∀ c r, parse_function c r = Ok ()) →
  (∀ cur res, reduce_function cur res = Ok (f cur res)) →
  ∀ idx current last_time w,
  ∃ w' results,
    consume job parse_function reduce_function c lw start_time pending idx
            current last_time w = (w', Ok (foldl f current results)) ∧
    Forall2 (λ j result, job j.2 = Ok result) pending results ∧
    reduce_failures (log w') = reduce_failures (log w) ∧
    submitted w' = submitted w ∧ stdin w' = stdin w.
Proof.
  intros Hjob Hparse Hred.
  induction pending as [|[index given_args] pending IH];
    intros idx current last_time w.
  - exists w, []. by split_and!.
  - destruct (Hjob (index, given_args)) as [result Hres]; [by left|].
    simpl in Hres.
    assert (Hrest : ∀ j, j ∈ pending → ∃ result, job j.2 = Ok result)
      by (intros j Hj; apply Hjob; by right).
    specialize (IH Hrest).
    cbn [consume]. unfold _indexed_job. rewrite Hres.
    erewrite bind_Ok by reflexivity.
    pose proof (handle_completion_run parse_function reduce_function c lw
                  start_time idx current last_time index result w) as Hstep.
    cbv zeta in Hstep. rewrite Hparse, Hred in Hstep.
    rewrite (bind_Ok _ _ _ _ _ (Hstep ltac:(done))). clear Hstep.
    match goal with
    | |- context [consume _ _ _ _ _ _ _ _ ?cur ?t ?w1] =>
        destruct (IH (idx + 1)%Z cur t w1)
          as (w' & results & Hrun & Hres' & Hlog & Hsub & Hin)
    end.
    exists w', (result :: results). split_and!.
    + exact Hrun.
    + by constructor.
    + rewrite Hlog. simpl. rewrite reduce_failures_app.
      unfold reduce_failures at 2. simpl. lia.
    + exact Hsub.
    + exact Hin.
Qed.

(** X16: where nothing raises and the bytes of the header file decode, what
    [run_jobs] returns from line 294 is the left fold of [reduce_function]
    over the results of the jobs, from [reduce_start], in the order in which
    the pool hands them back, which need not be the order of submission;
    and the log holds no complaint about the reduction. *)
Theorem run_returns_the_fold (f : T → option (list value) → T)
    (reduce_start : T) (p : plan) (w : world) (content header : string) :
  setup_function (plan_config p) = Ok () →
  files w !! CSV_HEADER = Some content →
  decode content = Ok header →
  (∀ j, j ∈ arrival _ (plan_indexed_set p) → ∃ result, job j.2 = Ok result) →
  (∀ c r, parse_function c r = Ok ()) →
  (∀ cur res, reduce_function cur res = Ok (f cur res)) →
  ∃ w' results,
    execute job setup_function parse_function reduce_function reduce_start
            p w = (w', Ok (foldl f reduce_start results)) ∧
    Forall2 (λ j result, job j.2 = Ok result)
            (arrival _ (plan_indexed_set p)) results ∧
    reduce_failures (log w') = reduce_failures (log w).
Proof.
  intros Hsetup Hheader Hdecode Hjob Hparse Hred.
  rewrite (execute_unfold _ _ _ content header) by done.
  match goal with
  | |- context [consume _ _ _ ?c ?lw ?st ?pending ?idx ?cur ?t ?w1] =>
      destruct (consume_fold f c lw st pending Hjob Hparse Hred idx cur t w1)
        as (w' & results & Hrun & Hres & Hlog & _)
  end.
  by exists w', results.
Qed.

Lemma consume_stops (c : config) (lw : Z) (start_time : time)
    (finished : list indexed_job) (j : indexed_job)
    (rest : list indexed_job) (e : exn) :
  (∀ j, j ∈ finished → ∃ result, job j.2 = Ok result) →
  job j.2 = Raise e →
  (∀ c r, parse_function c r = Ok ()) →
  (∀ cur res e, reduce_function cur res = Raise e → is_Exception e = true) →
  ∀ idx current last_time w,
  ∃ w' rows,
    consume job parse_function reduce_function c lw start_time
            (finished ++ j :: rest) idx current last_time w =
      (w', Raise e) ∧
    Forall2 (row_of_job job c start_time) finished rows ∧
    default EmptyString (files w' !! results_path c) =
      default EmptyString (files w !! results_path c) +:+ lines_of c rows ∧
    (∀ q, q ≠ results_path c → files w' !! q = files w !! q) ∧
    submitted w' = submitted w ∧
    now w' = now w + length finished.
Proof.
  intros Hjob Hj Hparse Hexc.
  induction finished as [|[index given_args] finished IH];
    intros idx current last_time w.
  - exists w, []. destruct j as [index given_args]. simpl in *.
    unfold _indexed_job. rewrite Hj.
    split_and!; [done | constructor | by rewrite append_nil_r | done | done
                | lia].
  - destruct (Hjob (index, given_args)) as [result Hres]; [by left|].
    simpl in Hres.
    assert (Hrest : ∀ j, j ∈ finished → ∃ result, job j.2 = Ok result)
      by (intros k Hk; apply Hjob; by right).
    specialize (IH Hrest).
    cbn [app consume]. unfold _indexed_job. rewrite Hres.
    erewrite bind_Ok by reflexivity.
    pose proof (handle_completion_run parse_function reduce_function c lw
                  start_time idx current last_time index result w
                  (Hexc current result)) as Hstep.
    cbv zeta in Hstep. rewrite Hparse in Hstep.
    rewrite (bind_Ok _ _ _ _ _ Hstep). clear Hstep.
    set (new_time := clock w (now w)).
    set (r := meta_of c start_time last_time new_time index
              ++ (Obj <$> default [] result)).
    match goal with
    | |- context [consume _ _ _ _ _ _ _ _ ?cur _ ?w1] =>
        destruct (IH (idx + 1)%Z cur new_time w1)
          as (w' & rows & Hrun & Hrows & Hfile & Hother & Hsub & Hnow)
    end.
    exists w', (r :: rows). simpl in *.
    split_and!.
    + exact Hrun.
    + constructor; [|done]. by exists result, last_time, new_time.
    + rewrite Hfile, lookup_insert_eq. simpl. apply append_assoc.
    + intros q Hq. rewrite Hother by done. by rewrite lookup_insert_ne.
    + done.
    + lia.
Qed.

(** X17: unlike a reduction, a job that raises is not caught: where the
    header file decodes to [header], so that line 244 has written
    [header] and a line end to [results.csv], its exception leaves
    [run_jobs] when the loop comes to it, the jobs that the pool handed
    back after it get no row, and the rows of those that came before it
    stay in the results file. *)
Theorem raising_job_ends_the_run (reduce_start : T) (p : plan) (w : world)
    (content header : string) (finished : list indexed_job)
    (j : indexed_job) (rest : list indexed_job) (e : exn) :
  setup_function (plan_config p) = Ok () →
  files w !! CSV_HEADER = Some content →
  decode content = Ok header →
  arrival _ (plan_indexed_set p) = finished ++ j :: rest →
  (∀ j, j ∈ finished → ∃ result, job j.2 = Ok result) →
  job j.2 = Raise e →
  (∀ c r, parse_function c r = Ok ()) →
  (∀ cur res e, reduce_function cur res = Raise e → is_Exception e = true) →
  let c := plan_config p in
  let disk := <[RESULTS_CSV:=header +:+ newline]> (files w) in
  ∃ w' rows,
    execute job setup_function parse_function reduce_function reduce_start
            p w = (w', Raise e) ∧
    Forall2 (row_of_job job c (clock w (now w))) finished rows ∧
    default EmptyString (files w' !! results_path c) =
      default EmptyString (disk !! results_path c) +:+ lines_of c rows ∧
    (∀ q, q ≠ results_path c → files w' !! q = disk !! q) ∧
    submitted w' = submitted w ++ [plan_indexed_set p].
Proof.
  intros Hsetup Hheader Hdecode Harr Hjob Hj Hparse Hexc c disk.
  rewrite (execute_unfold _ _ _ content header), Harr by done.
  match goal with
  | |- context [consume _ _ _ ?c ?lw ?st _ ?idx ?cur ?t ?w1] =>
      destruct (consume_stops c lw st finished j rest e Hjob Hj Hparse Hexc
                  idx cur t w1)
        as (w' & rows & Hrun & Hrows & Hfile & Hother & Hsub & _)
  end.
  by exists w', rows.
Qed.

(** X18: within one turn the reduction comes first, the row second and
    [parse_function] last.  So an exception of the reduction that is no
    [Exception] leaves the run before the clock is read and the row is
    written, while an exception of [parse_function] leaves it with the row
    of that job already in the results file. *)
Theorem order_within_a_turn (c : config) (lw : Z) (start_time : time)
    (idx : Z) (current : T) (last_time : time) (job_id : Z)
    (result : option (list value)) (w : world) (e : exn) :
  (reduce_function current result = Raise e → is_Exception e = false →
   ∃ w',
     handle_completion parse_function reduce_function c lw start_time idx
                       current last_time (job_id, result) w = (w', Raise e) ∧
     files w' = files w ∧ now w' = now w) ∧
  ((∀ e', reduce_function current result = Raise e' →
          is_Exception e' = true) →
   let r := meta_of c start_time last_time (clock w (now w)) job_id
            ++ (Obj <$> default [] result) in
   parse_function c r = Raise e →
   ∃ w',
     handle_completion parse_function reduce_function c lw start_time idx
                       current last_time (job_id, result) w = (w', Raise e) ∧
     files w' =
       <[results_path c :=
           default EmptyString (files w !! results_path c) +:+
           (if compress c then gzip_member (writerow r) else writerow r)]>
         (files w) ∧
     now w' = S (now w)).
Proof.
  split.
  - intros Hred Hbase. unfold handle_completion, guarded_reduce.
    rewrite Hred, Hbase. by eexists.
  - intros Hexc r Hparse.
    pose proof (handle_completion_run parse_function reduce_function c lw
                  start_time idx current last_time job_id result w Hexc)
      as Hstep.
    cbv zeta in Hstep. fold r in Hstep. rewrite Hparse in Hstep.
    rewrite Hstep. by eexists.
Qed.

(** X28: a header file whose bytes do not decode ends the run at line 244,
    after [setup_function] has run and the clock has been read once: the
    exception of the decoder leaves [run_jobs], [results.csv], which line
    243 has opened for writing, is left empty, no other file changes and
    the pool is given nothing. *)
Theorem undecodable_header_ends_the_run (reduce_start : T) (p : plan)
    (w : world) (content : bytes) (e : exn) :
  setup_function (plan_config p) = Ok () →
  files w !! CSV_HEADER = Some content →
  decode content = Raise e →
  ∃ w',
    execute job setup_function parse_function reduce_function reduce_start
            p w = (w', Raise e) ∧
    files w' = <[RESULTS_CSV:=EmptyString]> (files w) ∧
    submitted w' = submitted w ∧ now w' = S (now w) ∧ log w' = log w.
Proof.
  intros Hsetup Hheader Hdecode. unfold execute. rewrite Hsetup.
  unfold lift, time_now, write, read_text, read, mbind, SE_bind, set_files,
    set_now.
  simpl. rewrite lookup_insert_ne by done. rewrite Hheader.
  simpl. rewrite Hdecode. by eexists.
Qed.

(** Lines 172-199 where the four files and the defaults are there, decode
    and can be parsed: what is left is the operator's answer. *)
Lemma identify_run (machines : roster) (c : config)
    (roster_bytes text defaults_bytes defaults runner_bytes runner : string)
    (w : world) :
  Forall (λ name, is_Some (files w !! name)) CONFIGS →
  files w !! MACHINES_CONFIG = Some roster_bytes →
  decode roster_bytes = Ok text →
  json_decode text = Ok machines →
  files w !! DEFAULT_CONFIG_PATH = Some defaults_bytes →
  decode defaults_bytes = Ok defaults →
  files w !! RUNNER_CONFIG = Some runner_bytes →
  decode runner_bytes = Ok runner →
  config_parse defaults (Some runner) = Ok c →
  identify w =
  match ask_identity (WhichNode (names_of machines))
          (set_log (log w ++ [CheckingConfiguration;
                              LoadedMachines machines]) w) with
  | (w', Ok ID) => (w', Ok (machines, c, ID))
  | (w', Raise e) => (w', Raise e)
  end.
Proof.
  intros Hfiles Hroster Htext Hjson Hdefaults Hdtext Hrunner Hrtext Hparse.
  unfold identify, mbind, SE_bind, logger.
  rewrite make_config_files_run. cbn [files set_log set_files].
  rewrite bool_decide_true by done.
  rewrite union_all_present.
  2: { intros name Hname. rewrite Forall_forall in Hfiles.
       by apply Hfiles, templates_cover. }
  unfold get_machines, get_config, read_text, read, read_if_present, lift,
    mbind, SE_bind.
  simpl. rewrite Hroster. simpl. rewrite Htext. simpl. rewrite Hjson. simpl.
  rewrite Hdefaults. simpl. rewrite Hdtext. simpl. rewrite Hrunner, Hrtext.
  simpl. rewrite Hparse.
  rewrite <- app_assoc. simpl.
  change (set_log ?l (set_files (files w) (set_log _ w))) with (set_log l w).
  by destruct (ask_identity _ _) as [w' [ID|e]].
Qed.

(** X26: the whole of [run_jobs] for a machine without an identity, in a
    directory whose configuration files and header decode and can be
    parsed, with an operator who answers [N/A] and agrees, and with hooks
    and jobs that do not raise: it returns the fold of the reduction over
    the results of all the jobs, it hands the pool one list, which holds
    every job of the working set once, and it leaves the input after the
    two answers unread. *)
Theorem run_without_identity_runs_every_job
    (f : T → option (list value) → T) (machines : roster) (c : config)
    (roster_bytes text defaults_bytes defaults runner_bytes runner : string)
    (header_bytes header : string) (ws : list (list value))
    (reduce_start : T) (o : option bytes) (resp : string)
    (rest : list string) (w : world) :
  randbelow_in_range → arrival_is_permutation →
  Forall (λ name, is_Some (files w !! name)) CONFIGS →
  files w !! MACHINES_CONFIG = Some roster_bytes →
  decode roster_bytes = Ok text →
  json_decode text = Ok machines →
  files w !! DEFAULT_CONFIG_PATH = Some defaults_bytes →
  decode defaults_bytes = Ok defaults →
  files w !! RUNNER_CONFIG = Some runner_bytes →
  decode runner_bytes = Ok runner →
  config_parse defaults (Some runner) = Ok c →
  files w !! CSV_HEADER = Some header_bytes →
  decode header_bytes = Ok header →
  stdin w = "N/A" :: resp :: rest →
  startswith (lower resp) "y" = true →
  setup_function c = Ok () →
  (∀ args, ∃ result, job args = Ok result) →
  (∀ c r, parse_function c r = Ok ()) →
  (∀ cur res, reduce_function cur res = Ok (f cur res)) →
  ∃ w' results entropy indexed_set,
    run_jobs job setup_function parse_function reduce_function ws
             reduce_start o w = (w', Ok (foldl f reduce_start results)) ∧
    get_entropy [ws] w = (w, Ok entropy) ∧
    indexed_set ≡ₚ index_working_set ws (Random (seed_of o entropy)) c ∧
    submitted w' = submitted w ++ [indexed_set] ∧
    Forall2 (λ j result, job j.2 = Ok result)
            (arrival _ indexed_set) results ∧
    length results = length ws ∧
    stdin w' = rest.
Proof.
  intros Hlaw Hperm Hfiles Hroster Htext Hjson Hdefaults Hdtext Hrunner
    Hrtext Hconfig Hheader Hhtext Hin Hy Hsetup Hjob Hparse Hred.
  destruct (get_entropy_present [ws] w Hfiles) as [entropy He].
  destruct (arrange_Ok (weights_of machines) None c ws o entropy Hlaw)
    as (indexed_set & START & STOP & Ha & Hall); [by left|].
  destruct (Hall eq_refl) as (Hshuffled & -> & ->).
  unfold run_jobs. unfold mbind at 1, SE_bind at 1.
  rewrite (identify_run machines c roster_bytes text defaults_bytes defaults
             runner_bytes runner) by done.
  unfold ask_identity. cbn [stdin set_log]. rewrite Hin.
  cbn [identity_loop]. rewrite bool_decide_true by done.
  unfold run_as. unfold mbind at 1, SE_bind at 1.
  rewrite prepare_unfold. cbv zeta.
  match goal with
  | |- context [get_entropy [ws] ?w2] =>
      assert (He2 : get_entropy [ws] w2 = (w2, Ok entropy))
  end.
  { pose proof (get_entropy_agree [ws] w) as Hagree.
    match goal with
    | |- get_entropy [ws] ?w2 = _ =>
        specialize (Hagree w2 ltac:(done) ltac:(done));
        destruct (get_entropy [ws] w2) as [w3 r] eqn:He3;
        apply get_entropy_inv in He3 as ->
    end.
    rewrite He in Hagree. simpl in Hagree. by rewrite <- Hagree. }
  rewrite He2, Ha.
  unfold confirm. cbn [stdin set_log set_stdin set_stdout].
  cbn [confirm_loop]. rewrite (startswith_y_not_n _ Hy), Hy.
  match goal with
  | |- context [execute _ _ _ _ _ ?p ?w4] =>
      rewrite (execute_unfold reduce_start p w4 header_bytes header Hsetup
                 Hheader Hhtext);
      cbn [plan_config plan_lw plan_indexed_set];
      match goal with
      | |- context [consume _ _ _ ?c' ?lw ?st ?pending ?idx ?cur ?t ?w5] =>
          destruct (consume_fold f c' lw st pending
                      ltac:(intros j _; apply Hjob) Hparse Hred idx cur t w5)
            as (w' & results & Hrun & Hres & _ & Hsub & Hrest)
      end
  end.
  exists w', results, entropy, indexed_set.
  split_and!; try done.
  - rewrite <- (Forall2_length _ _ _ Hres), (Hperm _ indexed_set), Hshuffled.
    unfold index_working_set. by rewrite length_imap.
Qed.

End run_facts.

Lemma run_without_identity_runs_every_job_witness :
  ∃ w' results,
    Demo.demo_run Demo.equal_roster "a,b" Demo.all_columns ["N/A"; "Yes"]
                  Demo.adding None =
      (w', Ok (foldl (λ acc result, acc + sum (default [] result))%Z 0%Z
                     results)) ∧
    length results = 4 ∧ length (submitted w') = 1.
Proof.
  destruct (run_without_identity_runs_every_job
              (H:=Demo.demo_library) (H0:=Demo.demo_random)
              (H1:=Demo.demo_pool)
              Demo.squares Demo.no_setup Demo.no_parse Demo.adding
              (λ acc result, acc + sum (default [] result))%Z
              Demo.equal_roster Demo.every_column
              (Demo.roster_text Demo.equal_roster)
              (Demo.roster_text Demo.equal_roster) "[results]" "[results]"
              Demo.all_columns Demo.all_columns "a,b" "a,b"
              Demo.four_jobs 0%Z None "Yes" []
              (Demo.demo_world
                 (Demo.demo_files Demo.equal_roster "a,b" Demo.all_columns)
                 ["N/A"; "Yes"] 7)
              demo_randbelow_in_range demo_arrival_is_permutation)
    as (w' & results & entropy & indexed_set & Hrun & _ & _ & Hsub & _
        & Hlen & _).
  - apply demo_files_present.
  - reflexivity.
  - reflexivity.
  - reflexivity.
  - reflexivity.
  - reflexivity.
  - reflexivity.
  - reflexivity.
  - reflexivity.
  - reflexivity.
  - reflexivity.
  - reflexivity.
  - reflexivity.
  - reflexivity.
  - intros args. unfold Demo.squares. destruct (args.1.1); eauto.
  - reflexivity.
  - reflexivity.
  - exists w', results. split_and!; [exact Hrun | exact Hlen |].
    rewrite Hsub. reflexivity.
Defined.

(** A header with the byte 233, which is no ASCII. *)
Lemma undecodable_header_ends_the_run_witness :
  let c := Demo.every_column in
  let p : plan (H:=Demo.demo_library) (H0:=Demo.demo_random) :=
           {| plan_config := c; plan_ID := None; plan_entropy := "00";
              plan_indexed_set :=
                index_working_set (H:=Demo.demo_library)
                  (H0:=Demo.demo_random) Demo.four_jobs 5%Z c;
              plan_START := 0; plan_STOP := 4; plan_lw := 4;
              plan_num_cores := 8 |} in
  let header := String (Ascii.ascii_of_nat 233) ",b" in
  let w := Demo.demo_world
             (Demo.demo_files Demo.equal_roster header Demo.all_columns)
             [] 7 in
  ∃ w',
    execute (H1:=Demo.demo_pool) Demo.squares Demo.no_setup Demo.no_parse
            Demo.adding 0%Z p w = (w', Raise UnicodeDecodeError) ∧
    files w' !! "results.csv" = Some EmptyString ∧ submitted w' = [].
Proof.
  intros c p header w.
  destruct (undecodable_header_ends_the_run (H1:=Demo.demo_pool)
              Demo.squares Demo.no_setup Demo.no_parse Demo.adding 0%Z p w
              header UnicodeDecodeError)
    as (w' & Hrun & Hfiles & Hsub & _).
  - reflexivity.
  - reflexivity.
  - reflexivity.
  - exists w'. split_and!; [exact Hrun | | exact Hsub].
    rewrite Hfiles. reflexivity.
Defined.

Lemma run_returns_the_fold_witness :
  let c := Demo.every_column in
  let p := {| plan_config := c; plan_ID := None; plan_entropy := "00";
              plan_indexed_set :=
                index_working_set (H:=Demo.demo_library)
                  (H0:=Demo.demo_random) Demo.four_jobs 5%Z c;
              plan_START := 0; plan_STOP := 4; plan_lw := 4;
              plan_num_cores := 8 |} in
  let w := Demo.demo_world
             (Demo.demo_files Demo.equal_roster "a,b" Demo.all_columns)
             [] 7 in
  ∃ w' results,
    execute (H1:=Demo.demo_pool) Demo.squares Demo.no_setup Demo.no_parse
            Demo.adding 0%Z p w =
      (w', Ok (foldl (λ acc result, acc + sum (default [] result))%Z 0%Z
                     results)) ∧
    length results = 4.
Proof.
  intros c p w.
  destruct (run_returns_the_fold (H1:=Demo.demo_pool)
              Demo.squares Demo.no_setup Demo.no_parse Demo.adding
              (λ acc result, acc + sum (default [] result))%Z 0%Z p w
              "a,b" "a,b")
    as (w' & results & Hrun & Hres & _).
  - reflexivity.
  - reflexivity.
  - reflexivity.
  - intros j _. unfold Demo.squares. destruct (j.2.1.1); eauto.
  - reflexivity.
  - reflexivity.
  - exists w', results. split; [exact Hrun|].
    symmetry. exact (Forall2_length _ _ _ Hres).
Defined.

Lemma raising_job_ends_the_run_witness :
  let c := Demo.every_column in
  let job : job_args (H:=Demo.demo_library) (H0:=Demo.demo_random) →
            outcome (option (list Z)) :=
    λ args, match args.1.1 with
            | [] => Raise (UserException "no items")
            | items => Ok (Some items)
            end in
  let p : plan (H:=Demo.demo_library) (H0:=Demo.demo_random) :=
           {| plan_config := c; plan_ID := None; plan_entropy := "00";
              plan_indexed_set :=
                [(0, ([3], 5, c)); (1, ([], 5, c)); (2, ([1; 2], 5, c))]%Z
                : list (indexed_job (H:=Demo.demo_library)
                                    (H0:=Demo.demo_random));
              plan_START := 0; plan_STOP := 3; plan_lw := 3;
              plan_num_cores := 8 |} in
  let w := Demo.demo_world
             (Demo.demo_files Demo.equal_roster ("a,b" +:+ Demo.crlf)
                              Demo.all_columns)
             [] 7 in
  ∃ w' rows,
    execute (H1:=Demo.demo_pool) job Demo.no_setup Demo.no_parse
            Demo.adding 0%Z p w = (w', Raise (UserException "no items")) ∧
    length rows = 1 ∧
    files w' !! "results.csv" =
      Some ("a,b" +:+ newline +:+ newline +:+
            lines_of (H:=Demo.demo_library) c rows).
Proof.
  intros c job p w.
  destruct (raising_job_ends_the_run (H1:=Demo.demo_pool)
              job Demo.no_setup Demo.no_parse Demo.adding 0%Z p w
              ("a,b" +:+ Demo.crlf) ("a,b" +:+ newline)
              [(2, ([1; 2], 5, c))]%Z (1, ([], 5, c))%Z
              [(0, ([3], 5, c))]%Z (UserException "no items"))
    as (w' & rows & Hrun & Hrows & Hfile & _).
  - reflexivity.
  - reflexivity.
  - reflexivity.
  - reflexivity.
  - intros j ->%list_elem_of_singleton. by eexists.
  - reflexivity.
  - reflexivity.
  - intros cur res e [=].
  - exists w', rows. split_and!; [exact Hrun | |].
    + symmetry. exact (Forall2_length _ _ _ Hrows).
    + change (results_path (plan_config p)) with "results.csv" in Hfile.
      destruct (files w' !! "results.csv") as [content|] eqn:Hc.
      * simpl in Hfile. by rewrite Hfile.
      * exfalso. simpl in Hfile. discriminate Hfile.
Defined.

(** ** The first run in a directory *)

(** X19: where one of the four configuration files is missing, [run_jobs]
    writes the templates of the missing ones, logs one line and raises
    [FileNotFoundError]: the operator is asked nothing, no input is read,
    the clock is not read and the pool is given nothing. *)
Theorem first_run_creates_the_files_and_stops
    `{Library} `{RandomSource} `{ProgressPool} {T : Type}
    (job : job_args → outcome (option (list value)))
    (setup_function : config → outcome unit)
    (parse_function : config → list (cell value time) → outcome unit)
    (reduce_function : T → option (list value) → outcome T)
    (ws : list (list value)) (reduce_start : T) (o : option bytes)
    (w : world) :
  ¬ Forall (λ name, is_Some (files w !! name)) CONFIGS →
  ∃ msg,
    run_jobs job setup_function parse_function reduce_function ws
             reduce_start o w =
    ({| files :=
          files w ∪ list_to_map (zip CONFIGS (CONFIG_TEMPLATES defaults_text));
        stdin := stdin w; stdout := stdout w;
        log := log w ++ [CheckingConfiguration];
        clock := clock w; now := now w; submitted := submitted w;
       heap := heap w |},
     Raise (FileNotFoundError msg)).
Proof.
  intros Hmissing. eexists.
  unfold run_jobs, identify, mbind, SE_bind, logger.
  rewrite make_config_files_run. simpl.
  rewrite bool_decide_false by done. reflexivity.
Qed.

Lemma first_run_creates_the_files_and_stops_witness :
  let w := Demo.demo_world {[ MACHINES_CONFIG := "{}" ]} ["0"; "y"] 7 in
  ∃ msg,
    (run_jobs (H:=Demo.demo_library) (H0:=Demo.demo_random)
              (H1:=Demo.demo_pool)
              Demo.squares Demo.no_setup Demo.no_parse Demo.adding
              Demo.four_jobs 0%Z None w).2 = Raise (FileNotFoundError msg).
Proof.
  intros w.
  destruct (first_run_creates_the_files_and_stops
              (H:=Demo.demo_library) (H0:=Demo.demo_random)
              (H1:=Demo.demo_pool)
              Demo.squares Demo.no_setup Demo.no_parse Demo.adding
              Demo.four_jobs 0%Z None w) as [msg Hrun].
  - intros Hall. inversion Hall as [|?? _ Hrest].
    inversion Hrest as [|?? [content Hheader] _]. discriminate Hheader.
  - exists msg. by rewrite Hrun.
Defined.

(** ** The archives of the log *)

Section archive_facts.
Import zipped_logs.

Lemma append_inv_tail (s t u : string) : s +:+ u = t +:+ u → s = t.
Proof.
  intros Heq. apply chars_inj.
  apply (f_equal String.list_ascii_of_string) in Heq.
  rewrite !chars_app in Heq. by apply app_inv_tail in Heq.
Qed.

Lemma numbered_inj (h : handler) (i j : nat) :
  numbered h i = numbered h j → i = j.
Proof.
  unfold numbered, rotation_filename. intros Heq%append_inv_tail.
  apply String.app_inj in Heq. apply String.app_inj in Heq.
  by apply pretty_nat_inj in Heq.
Qed.

Lemma numbered_ne_dest (h : handler) (i : nat) :
  numbered h i ≠ baseFilename h +:+ ".zip".
Proof.
  unfold numbered, rotation_filename. intros Heq%append_inv_tail.
  by apply append_ne in Heq.
Qed.

Lemma numbered_ne_base (h : handler) (i : nat) :
  numbered h i ≠ baseFilename h.
Proof.
  unfold numbered, rotation_filename. rewrite append_assoc.
  by apply append_ne.
Qed.

(** The loop of lines 26-32 over archives that hold the log's entry. *)
Lemma merge_archives_run (h : handler) (dest base : string) (d : nat)
    (contents : list bytes) :
  (∀ k, numbered h k ≠ dest) →
  ∀ (todo i : nat) (fs : disk) (entries0 : list (string * bytes)),
  fs !! dest = Some (Archive entries0) →
  length contents ≤ todo →
  (∀ k c, contents !! k = Some c →
          (zip_read (numbered h (i + k)) base fs).2 = Ok c) →
  (length contents < todo →
   fs !! numbered h (i + length contents) = None) →
  ∃ fs',
    merge_archives h dest base d todo i fs = (fs', Ok ()) ∧
    fs' !! dest =
      Some (Archive
              (entries0 ++
               imap (λ k c, (basename (base +:+ "." +:+
                                       zfill d (pretty (i + k))), c))
                    contents)) ∧
    (∀ k, k < length contents → fs' !! numbered h (i + k) = None) ∧
    (∀ q, q ≠ dest → (∀ k, k < length contents → q ≠ numbered h (i + k)) →
          fs' !! q = fs !! q).
Proof.
  intros Hdest.
  induction contents as [|c contents IH];
    intros todo i fs entries0 Hd Hlen Hheld Hstop.
  - exists fs. simpl.
    assert (Hrun : merge_archives h dest base d todo i fs = (fs, Ok ())).
    { destruct todo as [|todo]; [done|]. simpl. unfold exists_.
      rewrite bool_decide_false; [done|].
      rewrite Nat.add_0_r in Hstop. rewrite Hstop by (simpl; lia).
      by intros [? ?]. }
    split_and!; [done | by rewrite app_nil_r | intros; lia | done].
  - destruct todo as [|todo]; [simpl in Hlen; lia|].
    pose proof (Hheld 0 c eq_refl) as H0. rewrite Nat.add_0_r in H0.
    unfold zip_read in H0.
    destruct (fs !! numbered h i) as [[plain|entries]|] eqn:Hfn;
      try discriminate H0.
    destruct (last (filter (λ e, e.1 = base) entries)) as [e|] eqn:Hlast;
      try discriminate H0.
    simpl in H0. injection H0 as <-.
    set (name := basename (base +:+ "." +:+ zfill d (pretty i))).
    set (fs2 := delete (numbered h i)
                  (<[dest:=Archive (entries0 ++ [(name, e.2)])]> fs)).
    assert (Hstep : merge_archives h dest base d (S todo) i fs =
                    merge_archives h dest base d todo (S i) fs2).
    { cbn [merge_archives]. unfold exists_.
      rewrite bool_decide_true by (rewrite Hfn; by eexists).
      unfold mbind, SE_bind, zip_read, writestr, remove.
      rewrite Hfn, Hlast, Hd.
      rewrite lookup_insert_ne, Hfn by (apply not_eq_sym, Hdest). done. }
    destruct (IH todo (S i) fs2 (entries0 ++ [(name, e.2)]))
      as (fs' & Hrun & Hmerged & Hgone & Hframe).
    + unfold fs2. rewrite lookup_delete_ne by (apply Hdest).
      by rewrite lookup_insert_eq.
    + simpl in Hlen. lia.
    + intros k c' Hk. specialize (Hheld (S k) c' Hk).
      replace (i + S k) with (S i + k) in Hheld by lia.
      rewrite <- Hheld. unfold zip_read, fs2.
      rewrite lookup_delete_ne by (intros Heq%numbered_inj; lia).
      rewrite lookup_insert_ne by (apply not_eq_sym, Hdest).
      destruct (fs !! numbered h (S i + k)) as [[plain'|entries']|]; try done.
      by destruct (last (filter _ entries')).
    + intros Hlt. unfold fs2.
      rewrite lookup_delete_ne by (intros Heq%numbered_inj; lia).
      rewrite lookup_insert_ne by (apply not_eq_sym, Hdest).
      replace (S i + length contents) with (i + S (length contents)) by lia.
      apply Hstop. simpl in *. lia.
    + exists fs'. rewrite Hstep. split_and!.
      * exact Hrun.
      * rewrite Hmerged, <- app_assoc. do 3 f_equal. simpl.
        unfold name. rewrite Nat.add_0_r. f_equal.
        apply imap_ext. intros k c' _. simpl.
        by replace (i + S k) with (S (i + k)) by lia.
      * intros [|k] Hk.
        -- rewrite Nat.add_0_r, Hframe.
           ++ unfold fs2. by rewrite lookup_delete_eq.
           ++ apply Hdest.
           ++ intros k' _ Heq%numbered_inj. lia.
        -- replace (i + S k) with (S i + k) by lia. apply Hgone.
           simpl in Hk. lia.
      * intros q Hq Hnot. rewrite Hframe.
        -- unfold fs2. rewrite lookup_delete_ne.
           ++ by rewrite lookup_insert_ne.
           ++ intros <-. apply (Hnot 0); [simpl; lia|].
              by rewrite Nat.add_0_r.
        -- done.
        -- intros k Hk. replace (S i + k) with (i + S k) by lia.
           apply Hnot. simpl. lia.
Qed.

(** X20: [close] on a handler that was not closed, whose log is there and
    whose archives 1 to [m] hold the log's entry, with [m] below
    [backupCount] and either [m = backupCount - 1] or no archive [m + 1]:
    the merged archive is written anew, whatever it held before, with the
    log under its own name and the archives 1 to [m] under numbered names;
    the log and these archives are removed and every other file is left as
    it was, the archive numbered [backupCount] among them. *)
Theorem close_merges_the_archives (h : handler) (content : bytes)
    (contents : list bytes) (fs : disk) :
  closed h = false →
  fs !! baseFilename h = Some (Plain content) →
  length contents ≤ backupCount h - 1 →
  (∀ k c, contents !! k = Some c →
          (zip_read (numbered h (S k)) (basename (baseFilename h)) fs).2 =
          Ok c) →
  (length contents < backupCount h - 1 →
   fs !! numbered h (S (length contents)) = None) →
  let base := basename (baseFilename h) in
  let max_digits := String.length (pretty (backupCount h)) in
  ∃ fs' h',
    close h fs = (fs', Ok h') ∧
    closed h' = true ∧ baseFilename h' = baseFilename h ∧
    fs' !! (baseFilename h +:+ ".zip") =
      Some (Archive
              ((base, content) ::
               imap (λ k c, (basename (base +:+ "." +:+
                                       zfill max_digits (pretty (S k))), c))
                    contents)) ∧
    fs' !! baseFilename h = None ∧
    (∀ k, k < length contents → fs' !! numbered h (S k) = None) ∧
    (∀ q, q ≠ baseFilename h → q ≠ baseFilename h +:+ ".zip" →
          (∀ k, k < length contents → q ≠ numbered h (S k)) →
          fs' !! q = fs !! q).
Proof.
  intros Hopen Hlog Hlen Hheld Hstop base max_digits.
  set (dest := baseFilename h +:+ ".zip").
  assert (Hzip : dest ≠ baseFilename h) by by apply append_ne.
  set (fs1 := delete (baseFilename h) (<[dest:=Archive [(base, content)]]> fs)).
  assert (Hnum : ∀ k, fs1 !! numbered h k = fs !! numbered h k).
  { intros k. unfold fs1.
    rewrite lookup_delete_ne by (apply not_eq_sym, numbered_ne_base).
    by rewrite lookup_insert_ne by (apply not_eq_sym, numbered_ne_dest). }
  destruct (merge_archives_run h dest base max_digits contents
              (numbered_ne_dest h) (backupCount h - 1) 1 fs1
              [(base, content)])
    as (fs' & Hrun & Hmerged & Hgone & Hframe).
  - unfold fs1. rewrite lookup_delete_ne by done. by rewrite lookup_insert_eq.
  - done.
  - intros k c Hk. rewrite <- (Hheld k c Hk). unfold zip_read.
    rewrite (Hnum (1 + k)). simpl.
    destruct (fs !! numbered h (S k)) as [[plain'|entries']|]; try done.
    by destruct (last (filter _ entries')).
  - intros Hlt. rewrite Hnum. by apply Hstop.
  - exists fs', {| baseFilename := baseFilename h; maxBytes := maxBytes h;
                   backupCount := backupCount h; closed := true |}.
    split_and!; try done.
    + unfold close. rewrite Hopen.
      unfold mbind, SE_bind, zip_create, read_bytes, writestr, remove.
      rewrite lookup_insert_ne, Hlog by done.
      rewrite lookup_insert_eq, insert_insert_eq.
      rewrite lookup_insert_ne, Hlog by done.
      fold dest base max_digits. simpl app. fold fs1. by rewrite Hrun.
    + rewrite Hframe; [|done|].
      * unfold fs1. by rewrite lookup_delete_eq.
      * intros k _. apply not_eq_sym, numbered_ne_base.
    + intros q Hbase Hdest Hq. rewrite Hframe by done.
      unfold fs1. rewrite lookup_delete_ne by done.
      by rewrite lookup_insert_ne.
Qed.

Lemma close_merges_the_archives_witness :
  let h := {| baseFilename := Demo.log_path; maxBytes := 8;
              backupCount := 3; closed := false |} in
  let fs := (Demo.three_rotations ∅).1 in
  ∃ fs' h',
    close h fs = (fs', Ok h') ∧
    fs' !! "/var/log/app.log.zip" =
      Some (Archive [("app.log", Demo.line "ddddd");
                     ("app.log.1", Demo.line "ccccc");
                     ("app.log.2", Demo.line "bbbbb")]) ∧
    fs' !! "/var/log/app.log.3.zip" = fs !! "/var/log/app.log.3.zip".
Proof.
  intros h fs.
  destruct (close_merges_the_archives h (Demo.line "ddddd")
              [Demo.line "ccccc"; Demo.line "bbbbb"] fs)
    as (fs' & h' & Hrun & _ & _ & Hmerged & _ & _ & Hframe).
  - reflexivity.
  - vm_compute. reflexivity.
  - simpl. lia.
  - intros [|[|k]] c [= <-]; vm_compute; reflexivity.
  - simpl. lia.
  - exists fs', h'. split_and!; [exact Hrun | exact Hmerged |].
    apply Hframe; [done | done |].
    intros [|[|k]] Hk; [done | done | simpl in Hk; lia].
Defined.

Lemma rotator_archives_run (h : handler) (dest : string) (content : bytes)
    (fs : disk) :
  fs !! baseFilename h = Some (Plain content) →
  dest ≠ baseFilename h →
  ∃ fs',
    rotator h (baseFilename h) dest fs = (fs', Ok ()) ∧
    fs' !! baseFilename h = None ∧
    fs' !! dest = Some (Archive [(basename (baseFilename h), content)]) ∧
    (∀ q, q ≠ baseFilename h → q ≠ dest → fs' !! q = fs !! q).
Proof.
  intros Hlog Hdest.
  set (entry := (basename (baseFilename h), content)).
  exists (delete (baseFilename h) (<[dest:=Archive [entry]]> fs)).
  split_and!.
  - unfold rotator. rewrite bool_decide_true by done.
    unfold mbind, SE_bind, read_bytes, zip_create, writestr, remove.
    rewrite Hlog, lookup_insert_eq, insert_insert_eq.
    by rewrite lookup_insert_ne, Hlog by done.
  - by rewrite lookup_delete_eq.
  - rewrite lookup_delete_ne by done. by rewrite lookup_insert_eq.
  - intros q Hq Hqd. rewrite lookup_delete_ne by done.
    by rewrite lookup_insert_ne.
Qed.

(** X21: rotating the log itself puts its bytes into a new archive under
    the log's base name and removes the log, so that reading that entry
    gives the bytes back; no other file changes.  Any other source is
    renamed. *)
Theorem rotator_archives_the_log (h : handler) (dest : string)
    (content : bytes) (fs : disk) :
  fs !! baseFilename h = Some (Plain content) →
  dest ≠ baseFilename h →
  (∃ fs',
     rotator h (baseFilename h) dest fs = (fs', Ok ()) ∧
     fs' !! baseFilename h = None ∧
     fs' !! dest = Some (Archive [(basename (baseFilename h), content)]) ∧
     zip_read dest (basename (baseFilename h)) fs' = (fs', Ok content) ∧
     (∀ q, q ≠ baseFilename h → q ≠ dest → fs' !! q = fs !! q)) ∧
  (∀ source n, source ≠ baseFilename h → fs !! source = Some n →
     rotator h source dest fs = (<[dest:=n]> (delete source fs), Ok ())).
Proof.
  intros Hlog Hdest. split.
  - destruct (rotator_archives_run h dest content fs Hlog Hdest)
      as (fs' & Hrun & Hgone & Hnew & Hframe).
    exists fs'. split_and!; try done.
    unfold zip_read. rewrite Hnew.
    by rewrite filter_cons_True, filter_nil by done.
  - intros source n Hsource Hn. unfold rotator, rename.
    rewrite bool_decide_false by done. by rewrite Hn.
Qed.

Lemma rotator_archives_the_log_witness :
  let h := {| baseFilename := Demo.log_path; maxBytes := 8;
              backupCount := 3; closed := false |} in
  let fs : disk := {[ Demo.log_path := Plain "abc" ]} in
  ∃ fs',
    rotator h Demo.log_path "/var/log/app.log.1.zip" fs = (fs', Ok ()) ∧
    zip_read "/var/log/app.log.1.zip" "app.log" fs' = (fs', Ok "abc").
Proof.
  intros h fs.
  destruct (rotator_archives_the_log h "/var/log/app.log.1.zip" "abc" fs)
    as [(fs' & Hrun & _ & _ & Hread & _) _].
  - reflexivity.
  - discriminate.
  - exists fs'. split; [exact Hrun | exact Hread].
Defined.

Lemma shift_archives_frame (h : handler) (i : nat) (fs : disk) :
  ∃ fs',
    shift_archives h i fs = (fs', Ok ()) ∧
    ∀ q, (∀ k, q ≠ numbered h k) → fs' !! q = fs !! q.
Proof.
  revert fs. induction i as [|i IH]; intros fs; [by exists fs|].
  cbn [shift_archives]. unfold mbind at 1, SE_bind at 1, exists_.
  case_bool_decide as Hi.
  - destruct Hi as [n Hn].
    set (fs1 := if bool_decide (is_Some (fs !! numbered h (S i + 1)))
                then delete (numbered h (S i + 1)) fs else fs).
    assert (H1 : (if bool_decide (is_Some (fs !! numbered h (S i + 1)))
                  then remove (numbered h (S i + 1)) else mret ()) fs =
                 (fs1, Ok ())).
    { unfold fs1, remove. case_bool_decide as Hnext; [|done].
      by destruct Hnext as [m ->]. }
    assert (Hn1 : fs1 !! numbered h (S i) = Some n).
    { unfold fs1. case_bool_decide; [|done].
      rewrite lookup_delete_ne; [done|]. intros Heq%numbered_inj. lia. }
    unfold mbind at 1, SE_bind at 1. rewrite H1. unfold rename.
    rewrite Hn1.
    destruct (IH (<[numbered h (S i + 1):=n]> (delete (numbered h (S i)) fs1)))
      as (fs' & Hrun & Hframe).
    exists fs'. split; [exact Hrun|].
    intros q Hq. rewrite Hframe by done.
    rewrite lookup_insert_ne, lookup_delete_ne by (apply not_eq_sym, Hq).
    unfold fs1. case_bool_decide; [|done].
    by rewrite lookup_delete_ne by (apply not_eq_sym, Hq).
  - apply IH.
Qed.

Lemma doRollover_run (h : handler) (content : bytes) (fs : disk) :
  0 < backupCount h →
  fs !! baseFilename h = Some (Plain content) →
  ∃ fs',
    doRollover h fs = (fs', Ok ()) ∧
    fs' !! baseFilename h = Some (Plain EmptyString) ∧
    fs' !! numbered h 1 =
      Some (Archive [(basename (baseFilename h), content)]) ∧
    (∀ q, q ≠ baseFilename h → (∀ k, q ≠ numbered h k) → fs' !! q = fs !! q).
Proof.
  intros Hcount Hlog. unfold doRollover.
  rewrite bool_decide_true by done.
  destruct (shift_archives_frame h (backupCount h - 1) fs)
    as (fs1 & Hshift & Hframe1).
  assert (Hlog1 : fs1 !! baseFilename h = Some (Plain content)).
  { rewrite Hframe1; [done|]. intros k. apply not_eq_sym, numbered_ne_base. }
  set (fs2 := if exists_ fs1 (numbered h 1)
              then delete (numbered h 1) fs1 else fs1).
  assert (H2 : (if exists_ fs1 (numbered h 1)
                then remove (numbered h 1) fs1 else (fs1, Ok ())) =
               (fs2, Ok ())).
  { unfold fs2, remove, exists_. case_bool_decide as Hone; [|done].
    by destruct Hone as [m ->]. }
  assert (Hlog2 : fs2 !! baseFilename h = Some (Plain content)).
  { unfold fs2. destruct (exists_ fs1 (numbered h 1)); [|done].
    by rewrite lookup_delete_ne by (apply numbered_ne_base). }
  destruct (rotator_archives_run h (numbered h 1) content fs2 Hlog2
              (numbered_ne_base h 1))
    as (fs3 & Hrot & Hgone & Hnew & Hframe3).
  exists (<[baseFilename h:=Plain EmptyString]> fs3).
  split_and!.
  - unfold mbind, SE_bind. rewrite Hshift, H2, Hrot.
    unfold open_stream. by rewrite Hgone.
  - by rewrite lookup_insert_eq.
  - rewrite lookup_insert_ne by (apply not_eq_sym, numbered_ne_base). done.
  - intros q Hq Hnum. rewrite lookup_insert_ne by done.
    rewrite Hframe3 by done. unfold fs2.
    destruct (exists_ fs1 (numbered h 1)).
    + rewrite lookup_delete_ne by (apply not_eq_sym, Hnum). by apply Hframe1.
    + by apply Hframe1.
Qed.

(** X22: a record that fits is appended to the log; a record with which
    a log that is not empty would reach [maxBytes] rolls the log over first,
    where the handler keeps backups: the bytes of the log go into archive 1 under the
    log's base name, none of them lost, and the record starts a new log.
    Files that are neither the log nor a numbered archive are not
    touched. *)
Theorem emit_rolls_over_into_archive_one (h : handler) (record : string)
    (content : bytes) (fs : disk) :
  fs !! baseFilename h = Some (Plain content) →
  let msg := record +:+ framework.newline in
  let full := 0 < maxBytes h ∧
              maxBytes h ≤ String.length content + String.length msg in
  ∃ fs',
    emit h record fs = (fs', Ok ()) ∧
    (¬ full → fs' = <[baseFilename h:=Plain (content +:+ msg)]> fs) ∧
    (full → content ≠ EmptyString → 0 < backupCount h →
     fs' !! baseFilename h = Some (Plain msg) ∧
     fs' !! numbered h 1 =
       Some (Archive [(basename (baseFilename h), content)])) ∧
    (∀ q, q ≠ baseFilename h → (∀ k, q ≠ numbered h k) → fs' !! q = fs !! q).
Proof.
  intros Hlog msg full. unfold emit. fold msg.
  unfold mbind at 1, SE_bind at 1, shouldRollover. rewrite Hlog. fold full.
  case_bool_decide as Hfull.
  - unfold mbind, SE_bind. destruct (decide (0 < backupCount h)) as [Hc|Hc].
    + destruct (doRollover_run h content fs Hc Hlog)
        as (fs1 & Hroll & Hlog1 & Hone & Hframe).
      rewrite Hroll. unfold write_stream. rewrite Hlog1.
      eexists. split_and!; [done | done | |].
      * intros _ _ _. rewrite lookup_insert_eq.
        by rewrite lookup_insert_ne by (apply not_eq_sym, numbered_ne_base).
      * intros q Hq Hnum. rewrite lookup_insert_ne by done. by apply Hframe.
    + unfold doRollover. rewrite bool_decide_false by done.
      unfold mbind, SE_bind, mret, SE_ret, open_stream. rewrite Hlog.
      unfold write_stream. rewrite Hlog.
      eexists. split_and!; [done | done | done |].
      intros q Hq _. by rewrite lookup_insert_ne.
  - unfold mbind, SE_bind, mret, SE_ret, write_stream. rewrite Hlog.
    eexists. split_and!; [done | done | done |].
    intros q Hq _. by rewrite lookup_insert_ne.
Qed.

Lemma emit_rolls_over_into_archive_one_witness :
  let h := {| baseFilename := Demo.log_path; maxBytes := 8;
              backupCount := 3; closed := false |} in
  let fs : disk := {[ Demo.log_path := Plain (Demo.line "aaaaa") ]} in
  ∃ fs',
    emit h "bbbbb" fs = (fs', Ok ()) ∧
    fs' !! Demo.log_path = Some (Plain (Demo.line "bbbbb")) ∧
    fs' !! "/var/log/app.log.1.zip" =
      Some (Archive [("app.log", Demo.line "aaaaa")]).
Proof.
  intros h fs.
  destruct (emit_rolls_over_into_archive_one h "bbbbb" (Demo.line "aaaaa") fs)
    as (fs' & Hrun & _ & Hfull & _).
  - reflexivity.
  - destruct Hfull as [Hlog Hone]; [simpl; lia | discriminate | simpl; lia |].
    exists fs'. split_and!; [exact Hrun | exact Hlog | exact Hone].
Defined.

(** X23: where the log is not there, [rotator] raises before it creates
    anything, while [close] raises after line 20 has created the merged
    archive: an archive of an earlier run under that name is replaced by an
    empty one. *)
Theorem missing_log_file (h : handler) (dest : string) (fs : disk) :
  fs !! baseFilename h = None →
  rotator h (baseFilename h) dest fs =
    (fs, Raise (FileNotFoundError (baseFilename h))) ∧
  (closed h = false →
   close h fs = (<[baseFilename h +:+ ".zip":=Archive []]> fs,
                 Raise (FileNotFoundError (baseFilename h)))).
Proof.
  intros Hlog. split.
  - unfold rotator. rewrite bool_decide_true by done.
    unfold mbind, SE_bind, read_bytes. by rewrite Hlog.
  - intros Hopen. unfold close. rewrite Hopen.
    unfold mbind, SE_bind, zip_create, read_bytes.
    rewrite lookup_insert_ne by by apply append_ne. by rewrite Hlog.
Qed.

Lemma missing_log_file_witness :
  let h := {| baseFilename := Demo.log_path; maxBytes := 8;
              backupCount := 3; closed := false |} in
  let fs : disk :=
    {[ "/var/log/app.log.zip" := Archive [("app.log", "earlier")] ]} in
  (close h fs).1 !! "/var/log/app.log.zip" = Some (Archive []).
Proof.
  intros h fs.
  destruct (missing_log_file h "/var/log/app.log.1.zip" fs) as [_ Hclose].
  - reflexivity.
  - rewrite Hclose by reflexivity. reflexivity.
Defined.

(** X24: a handler that [close] has returned is closed: closing it again,
    on any disk, changes no file and returns the same handler. *)
Theorem close_again_does_nothing (h h' : handler) (fs fs' : disk) :
  close h fs = (fs', Ok h') →
  closed h' = true ∧ baseFilename h' = baseFilename h ∧
  backupCount h' = backupCount h ∧
  ∀ fs2, close h' fs2 = (fs2, Ok h').
Proof.
  unfold close at 1. unfold mbind at 1, SE_bind at 1.
  match goal with
  | |- context [(if closed h then ?a else ?b) fs] =>
      destruct ((if closed h then a else b) fs) as [fs1 [[]|e]]
  end; [|done].
  intros [= <- <-]. split_and!; try done.
Qed.

Lemma close_again_does_nothing_witness :
  let h := {| baseFilename := Demo.log_path; maxBytes := 8;
              backupCount := 3; closed := false |} in
  let fs : disk := {[ Demo.log_path := Plain "abc" ]} in
  ∃ h', (close h fs).2 = Ok h' ∧ close h' ∅ = (∅, Ok h').
Proof.
  intros h fs.
  exists {| baseFilename := Demo.log_path; maxBytes := 8;
            backupCount := 3; closed := true |}.
  split; [reflexivity|].
  by apply (close_again_does_nothing h _ fs (close h fs).1).
Defined.

End archive_facts.

(** ** All the machines together *)

Lemma shuffled_indexed_set_seed `{Library} `{RandomSource} (c : config)
    (ws : list (list value)) (o : option bytes) (e1 e2 : bytes) :
  seed_of o e1 = seed_of o e2 →
  shuffled_indexed_set c ws o e1 = shuffled_indexed_set c ws o e2.
Proof. intros Hseed. unfold shuffled_indexed_set. by rewrite Hseed. Qed.

(** X27: machines that seed the shuffle with the same bytes split the work
    between them.  Each machine [i] has its own digest [entropy_of i]; the
    machines are given one override seed that is not empty, or their digests
    are the same.  Then, for non-negative weights with a positive total, all
    of them shuffle the working set into one order, and the slices that the
    machines [0] to [len(names) - 1] keep are, glued in roster order, that
    shuffled set: every job is kept by exactly one machine. *)
Theorem machines_partition_the_working_set `{Library} `{RandomSource}
    (machines : roster) (c : config) (ws : list (list value))
    (o : option bytes) (entropy_of : nat → bytes) :
  randbelow_in_range →
  Forall (λ w, 0 ≤ w)%Z (weights_of machines) →
  (0 < sum (weights_of machines))%Z →
  seed_is_override o = true ∨
    (∀ i, i < length machines → entropy_of i = entropy_of 0) →
  ∃ (shuffled : list indexed_job) (parts : list (list indexed_job)),
    (∀ i, i < length machines →
          shuffled_indexed_set c ws o (entropy_of i) = Ok shuffled) ∧
    Forall2 (λ i part, ∃ START STOP,
               arrange (weights_of machines) (Some (Z.of_nat i)) c ws o
                       (entropy_of i) = Ok (part, START, STOP))
            (seq 0 (length machines)) parts ∧
    concat parts = shuffled ∧
    concat parts ≡ₚ
      index_working_set ws (Random (seed_of o (entropy_of 0))) c.
Proof.
  intros Hlaw HW HT Hsame.
  assert (Hseed : ∀ i, i < length machines →
            seed_of o (entropy_of i) = seed_of o (entropy_of 0)).
  { intros i Hi. destruct Hsame as [Hover|Heq]; [|by rewrite Heq].
    by destruct o as [[|x seed]|]. }
  destruct (shuffled_indexed_set_Ok c ws o (entropy_of 0) Hlaw) as [x Hx].
  pose proof (shuffled_indexed_set_perm c ws o (entropy_of 0) x Hx) as Hperm.
  assert (Hall : ∀ i, i < length machines →
            shuffled_indexed_set c ws o (entropy_of i) = Ok x).
  { intros i Hi. rewrite <- Hx. by apply shuffled_indexed_set_seed, Hseed. }
  set (W := weights_of machines) in *.
  set (L := Z.of_nat (length ws)).
  assert (HL : (0 ≤ L)%Z) by (unfold L; lia).
  assert (Hlen : Z.of_nat (length x) = L).
  { unfold L. rewrite Hperm. unfold index_working_set.
    by rewrite length_imap. }
  assert (Hn : length W = length machines)
    by (unfold W, weights_of; by rewrite length_fmap).
  set (share := λ i : nat, (sum (take i W) * L / sum W)%Z).
  set (cut := λ i : nat, Z.to_nat (share i)).
  assert (Hmono : ∀ i j : nat, i ≤ j → (share i ≤ share j)%Z)
    by (intros; by apply share_mono).
  assert (Hglue : concat ((λ i, take (cut (S i) - cut i) (drop (cut i) x))
                            <$> seq 0 (length W)) = x).
  { rewrite concat_cuts.
    - unfold cut, share. rewrite take_0. simpl.
      rewrite firstn_all, Z.mul_comm, Z.div_mul by lia.
      rewrite <- Hlen, Nat2Z.id, Nat.sub_0_r. apply firstn_all.
    - intros i Hi. unfold cut. pose proof (Hmono i (S i) ltac:(lia)). lia. }
  exists x, ((λ i, take (cut (S i) - cut i) (drop (cut i) x))
               <$> seq 0 (length W)).
  split_and!.
  - exact Hall.
  - rewrite <- Hn. apply Forall2_fmap_r, Forall_Forall2_diag, Forall_forall.
    intros i Hi%elem_of_seq.
    exists (share i), (share (S i)). unfold arrange.
    rewrite Hall by lia. simpl.
    fold L W. rewrite (START_of_share W L HT), (STOP_of_share W L HT) by lia.
    simpl. do 3 f_equal. apply (slice_shares W L HW HT HL); [done | lia].
  - exact Hglue.
  - by rewrite Hglue.
Qed.

(** Two machines whose digests differ, with one override seed. *)
Lemma machines_partition_the_working_set_witness :
  ∃ shuffled parts,
    shuffled_indexed_set (H:=Demo.demo_library) (H0:=Demo.demo_random)
      Demo.every_column Demo.four_jobs (Some "seed") "01" = Ok shuffled ∧
    length parts = 2 ∧ concat parts = shuffled.
Proof.
  destruct (machines_partition_the_working_set
              (H:=Demo.demo_library) (H0:=Demo.demo_random)
              Demo.uneven_roster Demo.every_column Demo.four_jobs
              (Some "seed") (λ i, if i is 0 then "00" else "01")
              demo_randbelow_in_range)
    as (shuffled & parts & Hs & Hparts & Hglue & _).
  - repeat constructor; done.
  - reflexivity.
  - by left.
  - exists shuffled, parts. split_and!; [| | exact Hglue].
    + apply (Hs 1). simpl. lia.
    + symmetry. exact (Forall2_length _ _ _ Hparts).
Defined.
